(** * cryptodev.c: session table and vectored execution engine

    A shallow embedding of [src/cryptodev.c] (the /dev/crypto driver):
    [crypto_create_session], [crypto_destroy_session],
    [crypto_finish_session], [crypto_finish_all_sessions],
    [crypto_get_session_by_sid], [crypto_runv], [crypto_run],
    [cryptodev_open] and [cryptodev_release].

    Conventions of the embedding.
    - A user buffer [(ptr, len)] is the byte string it holds, so a length
      field is the [length] of the list; user regions are taken to be
      mapped and pairwise disjoint ([copy_from_user] and [copy_to_user]
      never fault, the destination does not overlap a source).
    - Kernel objects that C mutates through a pointer (a cipher or hash
      transform, a session) are values threaded through the calls; the
      updated value is stored back where the pointer lives.
    - Every external call of interest is recorded, in program order, in a
      trace of [event]s.
    - Semaphores are recorded in the trace only: the embedding is
      sequential. *)

From Stdlib Require Import ZArith List String Bool Arith Lia.
From Stdlib Require Import Strings.Byte.
From Equations Require Import Equations.
Import ListNotations.

(** ** Kernel and header constants *)

(** errno values of <asm-generic/errno-base.h>. *)
Definition ENOENT : Z := 2.
Definition ENOMEM : Z := 12.
Definition EINVAL : Z := 22.

(** Constants of "cryptodev.h" and <asm/page.h>, neither of which is part of
    the sources at hand: they are parameters of the development
    ([BITS_PER_LONG] is the width of [size_t]).  The law is what the C code
    relies on: a page holds at least one byte. *)
Class cryptodev_h : Type := {
  IOP_CIPHER : Z;
  IOP_HASH : Z;
  CRYPTO_CIPHER_MAX_KEY_LEN : nat;
  CRYPTO_HMAC_MAX_KEY_LEN : nat;
  PAGE_SIZE : nat;
  BITS_PER_LONG : Z;
  PAGE_SIZE_pos : 0 < PAGE_SIZE
}.

(** [sop->cipher]: the case labels of the first switch of
    [crypto_create_session]; [CIPHER_other] stands for every value that
    reaches [default:]. *)
Inductive cipher_id : Type :=
| CIPHER_0
| CRYPTO_DES_CBC
| CRYPTO_3DES_CBC
| CRYPTO_BLF_CBC
| CRYPTO_AES_CBC
| CRYPTO_CAMELLIA_CBC
| CIPHER_other (code : Z).

(** [sop->mac]: the case labels of the second switch. *)
Inductive mac_id : Type :=
| MAC_0
| CRYPTO_MD5_HMAC
| CRYPTO_RIPEMD160_HMAC
| CRYPTO_SHA1_HMAC
| CRYPTO_SHA2_256_HMAC
| CRYPTO_SHA2_384_HMAC
| CRYPTO_SHA2_512_HMAC
| CRYPTO_MD5
| CRYPTO_RIPEMD160
| CRYPTO_SHA1
| CRYPTO_SHA2_256
| CRYPTO_SHA2_384
| CRYPTO_SHA2_512
| MAC_other (code : Z).

(** [copv->op]; [COP_other] is any value that is neither of the two. *)
Inductive cop : Type :=
| COP_ENCRYPT
| COP_DECRYPT
| COP_other (code : Z).

(** ** The kernel CryptoAPI, as far as the driver calls it

    [blkcipher] and [hash_t] are the transform objects behind
    [struct crypto_blkcipher *] and [struct crypto_hash *].  A call that
    mutates the object returns the new object; a call with an [int] result
    returns it first.  The data of the one-entry scatterlist is passed and,
    for the in-place cipher calls, returned. *)
Class CryptoAPI (blkcipher hash_t : Type) : Type := {
  (* None: IS_ERR *)
  crypto_alloc_blkcipher : string -> option blkcipher;
  (* min_keysize, max_keysize; None: a NULL blkcipher_alg *)
  crypto_blkcipher_alg : blkcipher -> option (nat * nat);
  crypto_blkcipher_setkey : blkcipher -> list byte -> Z * blkcipher;
  crypto_blkcipher_blocksize : blkcipher -> nat;
  crypto_blkcipher_ivsize : blkcipher -> nat;
  crypto_blkcipher_set_iv : blkcipher -> list byte -> blkcipher;
  crypto_blkcipher_encrypt : blkcipher -> list byte -> Z * blkcipher * list byte;
  crypto_blkcipher_decrypt : blkcipher -> list byte -> Z * blkcipher * list byte;
  crypto_alloc_hash : string -> option hash_t;
  crypto_hash_setkey : hash_t -> list byte -> Z * hash_t;
  crypto_hash_init : hash_t -> Z * hash_t;
  crypto_hash_update : hash_t -> list byte -> Z * hash_t;
  (* the contents of hash_output after the call *)
  crypto_hash_final : hash_t -> Z * hash_t * list byte;
  crypto_hash_digestsize : hash_t -> nat;
  (* the kernel registers no cipher with a zero block size *)
  crypto_blkcipher_blocksize_pos : forall t, 0 < crypto_blkcipher_blocksize t
}.

(** ** Trace of external calls *)

Inductive event : Type :=
| Ev_down_fcr
| Ev_up_fcr
| Ev_down_ses (sid : Z)
| Ev_up_ses (sid : Z)
| Ev_alloc_blkcipher (name : string)
| Ev_free_blkcipher
| Ev_alloc_hash (name : string)
| Ev_free_hash
| Ev_kmalloc_ses
| Ev_kfree_ses (sid : Z)
| Ev_get_random_bytes (v : Z)
| Ev_list_add (sid : Z)
| Ev_list_del (sid : Z)
| Ev_get_free_page
| Ev_free_page
| Ev_hash_init
| Ev_hash_update (data : list byte)
| Ev_hash_final
| Ev_set_iv (ivp : list byte)
| Ev_encrypt (data : list byte)
| Ev_decrypt (data : list byte)
| Ev_copy_from_user (data : list byte)
| Ev_copy_to_user_dst (data : list byte)
| Ev_copy_to_user_mac (data : list byte).

Definition trace := list event.

Definition is_free_page (e : event) : bool :=
  match e with Ev_free_page => true | _ => false end.

Definition is_get_free_page (e : event) : bool :=
  match e with Ev_get_free_page => true | _ => false end.

Definition is_alloc_blkcipher (e : event) : bool :=
  match e with Ev_alloc_blkcipher _ => true | _ => false end.

Definition is_free_blkcipher (e : event) : bool :=
  match e with Ev_free_blkcipher => true | _ => false end.

Definition is_alloc_hash (e : event) : bool :=
  match e with Ev_alloc_hash _ => true | _ => false end.

Definition is_free_hash (e : event) : bool :=
  match e with Ev_free_hash => true | _ => false end.

(** Events through which a cipher or hash transform is driven, or a byte
    moves between user memory and the staging page. *)
Definition is_data_event (e : event) : bool :=
  match e with
  | Ev_hash_update _ | Ev_encrypt _ | Ev_decrypt _
  | Ev_copy_from_user _ | Ev_copy_to_user_dst _ => true
  | _ => false
  end.

Definition count (p : event -> bool) (t : trace) : nat :=
  List.length (filter p t).

(** 1 for a handle that is there, 0 for NULL. *)
Definition held {A : Type} (o : option A) : nat :=
  match o with Some _ => 1 | None => 0 end.

Section Driver.

Context {H : cryptodev_h}.
Context {blkcipher hash_t : Type} {API : CryptoAPI blkcipher hash_t}.

(** ** struct csession, struct fcrypt *)

Record csession : Type := mk_csession {
  tfm : option blkcipher;
  hash_tfm : option hash_t;
  sid : Z;
  (* stat[COP_ENCRYPT], stat[COP_DECRYPT]: unsigned long long *)
  stat_encrypt : Z;
  stat_decrypt : Z;
  (* size_t *)
  stat_max_size : Z;
  stat_count : Z
}.

(** The intrusive list [fcr->list], first entry first. *)
Definition fcrypt := list csession.

(** A [struct csession *] as the list macros of <linux/list.h> produce it.
    [list_for_each_entry(pos, head, member)] starts at
    [list_entry(head->next)] and stops when [&pos->member == head]; when the
    loop runs to its end, [pos] is therefore [list_entry(head)], a pointer
    computed from the list head itself: it is not NULL and addresses no
    session.  Here the head is [&fcr->list], the first member of
    [struct fcrypt], and [entry] is the first member of [struct csession]:
    the pointer is the address of the [struct fcrypt] itself.  Both structs
    go on with a [struct semaphore sem], so [&pos->sem] is [&fcr->sem];
    [pos->tfm] and the fields after it lie past the end of the
    [struct fcrypt]. *)
Inductive csession_ptr : Type :=
| NULL
| entry_at (i : nat)
| head_container.

Definition is_null (p : csession_ptr) : bool :=
  match p with NULL => true | _ => false end.

(** The cursor of a [list_for_each_entry] loop whose body is
    [if (pos->sid == sid) break;], started at the [i]-th entry. *)
Fixpoint list_for_each_entry_sid (l : list csession) (s : Z) (i : nat)
  : csession_ptr :=
  match l with
  | [] => head_container
  | e :: rest =>
      if Z.eqb (sid e) s then entry_at i
      else list_for_each_entry_sid rest s (S i)
  end.

Definition deref (fcr : fcrypt) (p : csession_ptr) : option csession :=
  match p with
  | entry_at i => nth_error fcr i
  | _ => None
  end.

(** [list_del] of the [i]-th entry. *)
Fixpoint list_del (fcr : fcrypt) (i : nat) : fcrypt :=
  match fcr, i with
  | [], _ => []
  | _ :: rest, O => rest
  | e :: rest, S j => e :: list_del rest j
  end.

(** Store an updated session back at the [i]-th entry. *)
Fixpoint store (fcr : fcrypt) (i : nat) (s : csession) : fcrypt :=
  match fcr, i with
  | [], _ => []
  | _ :: rest, O => s :: rest
  | e :: rest, S j => e :: store rest j s
  end.

Definition sids (fcr : fcrypt) : list Z := map sid fcr.

(** ** crypto_get_session_by_sid *)

Definition crypto_get_session_by_sid (fcr : fcrypt) (s : Z)
  : csession_ptr * trace :=
  let ses_ptr := list_for_each_entry_sid fcr s 0 in
  let locked :=
    match deref fcr ses_ptr with
    | Some e => [Ev_down_ses (sid e)]
    | None => []
    end in
  (ses_ptr, [Ev_down_fcr] ++ locked ++ [Ev_up_fcr]).

(** ** crypto_destroy_session *)

Definition crypto_destroy_session (ses : csession) : trace :=
  [Ev_down_ses (sid ses)]
  ++ (match tfm ses with Some _ => [Ev_free_blkcipher] | None => [] end)
  ++ (match hash_tfm ses with Some _ => [Ev_free_hash] | None => [] end)
  ++ [Ev_up_ses (sid ses); Ev_kfree_ses (sid ses)].

(** ** crypto_finish_session

    [list_for_each_entry_safe] leaves the same cursor as
    [list_for_each_entry]; the test [if (!ses_ptr)] after the loop is on
    that cursor. *)
Definition crypto_finish_session (fcr : fcrypt) (s : Z)
  : Z * fcrypt * trace :=
  let ses_ptr := list_for_each_entry_sid fcr s 0 in
  let '(fcr1, t1) :=
    match ses_ptr with
    | entry_at i =>
        match nth_error fcr i with
        | Some e =>
            (list_del fcr i, [Ev_list_del (sid e)] ++ crypto_destroy_session e)
        | None => (fcr, [])
        end
    | _ => (fcr, [])
    end in
  let ret := if is_null ses_ptr then (- ENOENT)%Z else 0%Z in
  (ret, fcr1, [Ev_down_fcr] ++ t1 ++ [Ev_up_fcr]).

(** ** crypto_finish_all_sessions *)

Fixpoint destroy_each (fcr : fcrypt) : trace :=
  match fcr with
  | [] => []
  | e :: rest =>
      [Ev_list_del (sid e)] ++ crypto_destroy_session e ++ destroy_each rest
  end.

Definition crypto_finish_all_sessions (fcr : fcrypt) : Z * fcrypt * trace :=
  (0%Z, @nil csession, [Ev_down_fcr] ++ destroy_each fcr ++ [Ev_up_fcr]).

(** ** crypto_create_session *)

(** [struct session_op] as the function reads it; [keylen] and [mackeylen]
    are the lengths of [key] and [mackey]. *)
Record session_op : Type := mk_session_op {
  cipher : cipher_id;
  mac : mac_id;
  key : list byte;
  mackey : list byte
}.

Definition keylen (sop : session_op) : nat := List.length (key sop).
Definition mackeylen (sop : session_op) : nat := List.length (mackey sop).

(** What the allocator and the random pool answer during one call:
    whether [kmalloc] succeeds, and the successive [uint32_t] values that
    [get_random_bytes] stores into [ses_new->sid]. *)
Record create_env : Type := mk_create_env {
  kmalloc_ok : bool;
  random : list Z
}.

(** Outcome of one call: the [int] returned, the table afterwards, the
    value written to [sop->ses] (if any) and the trace. *)
Record create_result : Type := mk_create_result {
  cr_ret : Z;
  cr_fcr : fcrypt;
  cr_ses : option Z;
  cr_trace : trace
}.

(** First switch: [Some None] is [case 0], [None] is [default:]. *)
Definition alg_name_of (c : cipher_id) : option (option string) :=
  match c with
  | CIPHER_0 => Some None
  | CRYPTO_DES_CBC => Some (Some "cbc(des)"%string)
  | CRYPTO_3DES_CBC => Some (Some "cbc(3des_ede)"%string)
  | CRYPTO_BLF_CBC => Some (Some "cbc(blowfish)"%string)
  | CRYPTO_AES_CBC => Some (Some "cbc(aes)"%string)
  | CRYPTO_CAMELLIA_CBC => Some (Some "cbc(camelia)"%string)
  | CIPHER_other _ => None
  end.

(** Second switch: the name and [hmac_mode]. *)
Definition hash_name_of (m : mac_id) : option (option (string * bool)) :=
  match m with
  | MAC_0 => Some None
  | CRYPTO_MD5_HMAC => Some (Some ("hmac(md5)"%string, true))
  | CRYPTO_RIPEMD160_HMAC => Some (Some ("hmac(rmd160)"%string, true))
  | CRYPTO_SHA1_HMAC => Some (Some ("hmac(sha1)"%string, true))
  | CRYPTO_SHA2_256_HMAC => Some (Some ("hmac(sha256)"%string, true))
  | CRYPTO_SHA2_384_HMAC => Some (Some ("hmac(sha384)"%string, true))
  | CRYPTO_SHA2_512_HMAC => Some (Some ("hmac(sha512)"%string, true))
  | CRYPTO_MD5 => Some (Some ("md5"%string, false))
  | CRYPTO_RIPEMD160 => Some (Some ("rmd160"%string, false))
  | CRYPTO_SHA1 => Some (Some ("sha1"%string, false))
  | CRYPTO_SHA2_256 => Some (Some ("sha256"%string, false))
  | CRYPTO_SHA2_384 => Some (Some ("sha384"%string, false))
  | CRYPTO_SHA2_512 => Some (Some ("sha512"%string, false))
  | MAC_other _ => None
  end.

(** The label [error:]. *)
Definition create_error (fcr : fcrypt) (blk_tfm : option blkcipher)
    (hash_tfm0 : option hash_t) (ret : Z) (t : trace) : create_result :=
  mk_create_result ret fcr None
    (t ++ (match blk_tfm with Some _ => [Ev_free_blkcipher] | None => [] end)
       ++ (match hash_tfm0 with Some _ => [Ev_free_hash] | None => [] end)).

(** A plain [return] that does not pass through [error:]. *)
Definition create_return (fcr : fcrypt) (ret : Z) (t : trace)
  : create_result :=
  mk_create_result ret fcr None t.

(** "Set-up crypto transform": [inr] is a finished call, [inl] carries
    [blk_tfm] on. *)
Definition setup_cipher (fcr : fcrypt) (sop : session_op)
    (alg_name : option string)
  : (option blkcipher * trace) + create_result :=
  match alg_name with
  | None => inl (None, [])
  | Some name =>
      match crypto_alloc_blkcipher name with
      | None => inr (create_return fcr (- EINVAL)%Z [])
      | Some blk_tfm =>
          let t := [Ev_alloc_blkcipher name] in
          let bad_len :=
            match crypto_blkcipher_alg blk_tfm with
            | Some (min_keysize, max_keysize) =>
                (keylen sop <? min_keysize) || (max_keysize <? keylen sop)
            | None => false
            end in
          if bad_len then
            inr (create_error fcr (Some blk_tfm) None (- EINVAL)%Z t)
          else if CRYPTO_CIPHER_MAX_KEY_LEN <? keylen sop then
            inr (create_error fcr (Some blk_tfm) None (- EINVAL)%Z t)
          else
            let '(ret, blk_tfm') := crypto_blkcipher_setkey blk_tfm (key sop) in
            if negb (Z.eqb ret 0) then
              inr (create_error fcr (Some blk_tfm') None (- EINVAL)%Z t)
            else inl (Some blk_tfm', t)
      end
  end.

(** The hash half; [blk_tfm] is what the cipher half left. *)
Definition setup_hash (fcr : fcrypt) (sop : session_op)
    (blk_tfm : option blkcipher) (hash_name : option (string * bool))
    (t : trace)
  : (option hash_t * trace) + create_result :=
  match hash_name with
  | None => inl (None, t)
  | Some (name, hmac_mode) =>
      match crypto_alloc_hash name with
      | None => inr (create_return fcr (- EINVAL)%Z t)
      | Some h =>
          let t1 := t ++ [Ev_alloc_hash name] in
          if hmac_mode then
            if CRYPTO_HMAC_MAX_KEY_LEN <? mackeylen sop then
              inr (create_error fcr blk_tfm (Some h) (- EINVAL)%Z t1)
            else
              let '(ret, h') := crypto_hash_setkey h (mackey sop) in
              if negb (Z.eqb ret 0) then
                inr (create_error fcr blk_tfm (Some h') (- EINVAL)%Z t1)
              else inl (Some h', t1)
          else inl (Some h, t1)
      end
  end.

(** One pass of the [list_for_each_entry] at [restart:]: does the candidate
    meet an entry with the same sid? *)
Fixpoint duplicate_sid (l : list csession) (cand : Z) : bool :=
  match l with
  | [] => false
  | e :: rest => if Z.eqb cand (sid e) then true else duplicate_sid rest cand
  end.

(** The loop at [restart:].  On a duplicate the candidate is redrawn and the
    scan starts over at the head of the list.  [more] are the values still to
    come from [get_random_bytes]; [None] when they run out while the loop is
    still going. *)
Fixpoint restart (fcr : fcrypt) (cand : Z) (more : list Z) (t : trace)
  : option (Z * trace) :=
  if duplicate_sid fcr cand then
    match more with
    | [] => None
    | r :: more' => restart fcr r more' (t ++ [Ev_get_random_bytes r])
    end
  else Some (cand, t).

Definition crypto_create_session (env : create_env) (fcr : fcrypt)
    (sop : session_op) : option create_result :=
  if match cipher sop, mac sop with CIPHER_0, MAC_0 => true | _, _ => false end
  then Some (create_return fcr (- EINVAL)%Z [])
  else
  match alg_name_of (cipher sop) with
  | None => Some (create_return fcr (- EINVAL)%Z [])
  | Some alg_name =>
  match hash_name_of (mac sop) with
  | None => Some (create_return fcr (- EINVAL)%Z [])
  | Some hash_name =>
  match setup_cipher fcr sop alg_name with
  | inr r => Some r
  | inl (blk_tfm, t1) =>
  match setup_hash fcr sop blk_tfm hash_name t1 with
  | inr r => Some r
  | inl (hash_tfm0, t2) =>
      if negb (kmalloc_ok env) then
        Some (create_error fcr blk_tfm hash_tfm0 (- ENOMEM)%Z t2)
      else
        match random env with
        | [] => None
        | r0 :: more =>
            let t3 := t2 ++ [Ev_kmalloc_ses; Ev_get_random_bytes r0;
                             Ev_down_fcr] in
            match restart fcr r0 more t3 with
            | None => None
            | Some (s, t4) =>
                let ses_new := mk_csession blk_tfm hash_tfm0 s 0%Z 0%Z 0%Z 0%Z in
                Some (mk_create_result 0%Z (ses_new :: fcr) (Some s)
                        (t4 ++ [Ev_list_add s; Ev_up_fcr]))
            end
        end
  end end end end.

(** ** crypto_runv *)

(** [struct crypt_iovec]: [src] is the user buffer, [len] its length. *)
Record crypt_iovec : Type := mk_crypt_iovec {
  src : list byte;
  op_flags : Z
}.

Definition len (v : crypt_iovec) : nat := List.length (src v).

(** [struct crypt_opv] as the function reads it: [iv] is [None] for a NULL
    pointer and otherwise the user buffer it points to; [iovec_cnt] is the
    length of [iovec].  What is stored through [dst] and [mac] is part of
    the result.  The struct has no length for [iv]: the function copies
    [ivsize] bytes from it, whatever the request meant to supply, so the
    buffer behind [iv] is taken to hold at least the [ivsize] bytes of the
    session's cipher; statements about the bytes that prime the cipher say
    so. *)
Record crypt_opv : Type := mk_crypt_opv {
  op : cop;
  ses : Z;
  iv : option (list byte);
  iovec : list crypt_iovec
}.

(** Whether [__get_free_page] succeeds, and the module parameter
    [enable_stats]. *)
Record run_env : Type := mk_run_env {
  page_ok : bool;
  enable_stats : bool
}.

(** What a call has changed so far: the session behind [ses_ptr] (with its
    transforms), the bytes stored through the [dst] cursor, the trace. *)
Record run_st : Type := mk_run_st {
  cur : csession;
  dst : list byte;
  log : trace
}.

Definition emit (e : event) (st : run_st) : run_st :=
  mk_run_st (cur st) (dst st) (log st ++ [e]).

Definition set_tfm (c : blkcipher) (st : run_st) : run_st :=
  let s := cur st in
  mk_run_st (mk_csession (Some c) (hash_tfm s) (sid s) (stat_encrypt s)
               (stat_decrypt s) (stat_max_size s) (stat_count s))
            (dst st) (log st).

Definition set_hash_tfm (h : hash_t) (st : run_st) : run_st :=
  let s := cur st in
  mk_run_st (mk_csession (tfm s) (Some h) (sid s) (stat_encrypt s)
               (stat_decrypt s) (stat_max_size s) (stat_count s))
            (dst st) (log st).

(** [copy_to_user(dst, data, current_len); dst += current_len;] *)
Definition copy_to_dst (data : list byte) (st : run_st) : run_st :=
  mk_run_st (cur st) (dst st ++ data) (log st ++ [Ev_copy_to_user_dst data]).

(** [op_flags & mask] as a C condition. *)
Definition has_flag (fl mask : Z) : bool := negb (Z.eqb (Z.land fl mask) 0).

(** [if (hdesc.tfm && (op_flags & IOP_HASH)) ret = crypto_hash_update(...)];
    a result other than 0 is the [goto out]. *)
Definition hash_step (fl : Z) (data : list byte) (st : run_st)
  : Z * run_st :=
  match hash_tfm (cur st) with
  | Some h =>
      if has_flag fl IOP_HASH then
        let '(ret, h') := crypto_hash_update h data in
        (ret, emit (Ev_hash_update data) (set_hash_tfm h' st))
      else (0%Z, st)
  | None => (0%Z, st)
  end.

(** [if (bdesc.tfm && (op_flags & IOP_CIPHER))] with the in-place cipher
    call and the copy to [dst]; the data returned is what the staging page
    holds afterwards. *)
Definition cipher_step (o : cop) (fl : Z) (data : list byte) (st : run_st)
  : Z * list byte * run_st :=
  match tfm (cur st) with
  | Some c =>
      if has_flag fl IOP_CIPHER then
        let '(ret, c', data') :=
          match o with
          | COP_ENCRYPT => crypto_blkcipher_encrypt c data
          | _ => crypto_blkcipher_decrypt c data
          end in
        let st1 :=
          emit (match o with
                | COP_ENCRYPT => Ev_encrypt data
                | _ => Ev_decrypt data
                end) (set_tfm c' st) in
        if negb (Z.eqb ret 0) then (ret, data', st1)
        else (0%Z, data', copy_to_dst data' st1)
      else (0%Z, data, st)
  | None => (0%Z, data, st)
  end.

(** One turn of [while (nbytes > 0)] on the [current_len] bytes [chunk]
    copied from [src]. *)
Definition chunk_body (o : cop) (fl : Z) (chunk : list byte) (st : run_st)
  : Z * run_st :=
  let st0 := emit (Ev_copy_from_user chunk) st in
  match o with
  | COP_ENCRYPT =>
      let '(ret, st1) := hash_step fl chunk st0 in
      if negb (Z.eqb ret 0) then (ret, st1)
      else
        let '(ret2, _, st2) := cipher_step o fl chunk st1 in
        (ret2, st2)
  | _ =>
      let '(ret, data, st1) := cipher_step o fl chunk st0 in
      if negb (Z.eqb ret 0) then (ret, st1)
      else hash_step fl data st1
  end.

(** [nbytes > bufsize ? bufsize : nbytes] *)
Definition current_len_of (bufsize nbytes : nat) : nat :=
  if bufsize <? nbytes then bufsize else nbytes.

(** [PAGE_SIZE < nbytes ? PAGE_SIZE : nbytes] *)
Definition bufsize_of (nbytes : nat) : nat :=
  if PAGE_SIZE <? nbytes then PAGE_SIZE else nbytes.

Lemma bufsize_of_pos (nbytes : nat) : 0 < nbytes -> 0 < bufsize_of nbytes.
Proof.
  unfold bufsize_of. intros Hn.
  destruct (PAGE_SIZE <? nbytes); [apply PAGE_SIZE_pos | exact Hn].
Qed.

(** [while (nbytes > 0)]: [rest] is what of the segment is still to be read
    ([nbytes] is its length).  The result is [ret] and the state; a [ret]
    other than 0 is the [goto out]. *)
Equations? while_nbytes (o : cop) (fl : Z) (bufsize : nat)
    (Hb : 0 < bufsize) (rest : list byte) (st : run_st)
  : Z * run_st by wf (List.length rest) lt :=
  while_nbytes o fl bufsize Hb [] st := (0%Z, st);
  while_nbytes o fl bufsize Hb (b :: bs) st
    with chunk_body o fl
           (firstn (current_len_of bufsize (List.length (b :: bs))) (b :: bs))
           st := {
    | (ret, st1) with negb (Z.eqb ret 0) := {
      | true := (ret, st1);
      | false :=
          while_nbytes o fl bufsize Hb
            (skipn (current_len_of bufsize (List.length (b :: bs))) (b :: bs))
            st1 } }.
Proof.
  rewrite length_skipn. unfold current_len_of.
  destruct (bufsize <? _); simpl List.length; lia.
Qed.

(** The statistics block at the end of the [for] body. *)
Definition update_stats (env : run_env) (o : cop) (v : crypt_iovec)
    (st : run_st) : run_st :=
  if enable_stats env then
    let s := cur st in
    let n := Z.of_nat (len v) in
    let enc :=
      match o with
      | COP_ENCRYPT => ((stat_encrypt s + n) mod 2 ^ 64)%Z
      | _ => stat_encrypt s
      end in
    let dec :=
      match o with
      | COP_DECRYPT => ((stat_decrypt s + n) mod 2 ^ 64)%Z
      | _ => stat_decrypt s
      end in
    let mx := if (stat_max_size s <? n)%Z then n else stat_max_size s in
    mk_run_st (mk_csession (tfm s) (hash_tfm s) (sid s) enc dec mx
                 ((stat_count s + 1) mod 2 ^ BITS_PER_LONG)%Z)
              (dst st) (log st)
  else st.

(** How the body of the function is left. *)
Inductive exit_label : Type :=
| fall_through
| goto_out
| goto_out_unlock.

(** The alignment test at the head of the [for] body. *)
Definition misaligned (blocksize : nat) (v : crypt_iovec) (st : run_st)
  : bool :=
  match tfm (cur st) with
  | Some _ =>
      has_flag (op_flags v) IOP_CIPHER && negb (len v mod blocksize =? 0)
  | None => false
  end.

(** The [while] loop of one segment. *)
Definition run_segment (o : cop) (v : crypt_iovec) (st : run_st)
  : Z * run_st :=
  match lt_dec 0 (len v) with
  | left Hn =>
      while_nbytes o (op_flags v) (bufsize_of (len v)) (bufsize_of_pos (len v) Hn)
        (src v) st
  | right _ => (0%Z, st)
  end.

(** [for (i = 0; i < copv->iovec_cnt; i++)] *)
Fixpoint for_iovec (env : run_env) (o : cop) (blocksize : nat)
    (vs : list crypt_iovec) (st : run_st) : exit_label * Z * run_st :=
  match vs with
  | [] => (fall_through, 0%Z, st)
  | v :: vs' =>
      if misaligned blocksize v st then (goto_out_unlock, (- EINVAL)%Z, st)
      else
        let '(ret, st1) := run_segment o v st in
        if negb (Z.eqb ret 0) then (goto_out, ret, st1)
        else for_iovec env o blocksize vs' (update_stats env o v st1)
  end.

(** From the allocation of the staging page to [dst = copv->dst], on the
    locked session [s]: [inl] is a jump out of the function, [inr] carries
    [blocksize] and the state on to the [for] loop. *)
Definition runv_init (env : run_env) (copv : crypt_opv) (s : csession)
  : (exit_label * Z * run_st) + (nat * run_st) :=
  let st := mk_run_st s [] [] in
  if negb (page_ok env) then inl (goto_out_unlock, (- ENOMEM)%Z, st)
  else
    let st := emit Ev_get_free_page st in
    let '(ret, st) :=
      match hash_tfm (cur st) with
      | Some h =>
          let '(ret, h') := crypto_hash_init h in
          (ret, emit Ev_hash_init (set_hash_tfm h' st))
      | None => (0%Z, st)
      end in
    if negb (Z.eqb ret 0) then inl (goto_out_unlock, ret, st)
    else
      match tfm (cur st) with
      | Some c =>
          let ivsize := crypto_blkcipher_ivsize c in
          inr (crypto_blkcipher_blocksize c,
               match iv copv with
               | Some ivbuf =>
                   let ivp := firstn ivsize ivbuf in
                   emit (Ev_set_iv ivp)
                     (set_tfm (crypto_blkcipher_set_iv c ivp) st)
               | None => st
               end)
      | None => inr (1, st)
      end.

(** After the [for] loop: [crypto_hash_final] and the copy to
    [copv->mac]; the last component is what was stored there. *)
Definition runv_final (st : run_st)
  : exit_label * Z * run_st * option (list byte) :=
  match hash_tfm (cur st) with
  | Some h =>
      let '(ret, h', hash_output) := crypto_hash_final h in
      let st := emit Ev_hash_final (set_hash_tfm h' st) in
      if negb (Z.eqb ret 0) then (goto_out, ret, st, None)
      else
        let digest := firstn (crypto_hash_digestsize h') hash_output in
        (fall_through, 0%Z, emit (Ev_copy_to_user_mac digest) st,
         Some digest)
  | None => (fall_through, 0%Z, st, None)
  end.

(** The [for] loop and what follows it, from the state [st] that
    [runv_init] left. *)
Definition runv_rest (env : run_env) (copv : crypt_opv) (blocksize : nat)
    (st : run_st) : exit_label * Z * run_st * option (list byte) :=
  match for_iovec env (op copv) blocksize (iovec copv) st with
  | (fall_through, _, st') => runv_final st'
  | (l, ret, st') => (l, ret, st', None)
  end.

(** The body of the function on the locked session [s], up to the label
    [out:]. *)
Definition runv_body (env : run_env) (copv : crypt_opv) (s : csession)
  : exit_label * Z * run_st * option (list byte) :=
  match runv_init env copv s with
  | inl (l, ret, st) => (l, ret, st, None)
  | inr (blocksize, st) => runv_rest env copv blocksize st
  end.

(** The labels [out:] and [out_unlock:]. *)
Definition runv_exit (l : exit_label) (st : run_st) : run_st :=
  let st :=
    match l with
    | goto_out_unlock => st
    | _ => emit Ev_free_page st
    end in
  emit (Ev_up_ses (sid (cur st))) st.

(** What a call yields: an [int], or control running on with a pointer that
    addresses no session (the fields read through it are no part of any
    object of the driver). *)
Inductive run_outcome : Type :=
| returned (ret : Z)
| wild_pointer.

(** The result of a call.  For the outcome [wild_pointer] the other fields
    say how far the call had got when it read through the pointer: the
    table and the trace up to that read.  What the code does from there on
    is not defined by its source, and no result is given for it. *)
Record runv_result : Type := mk_runv_result {
  rv_outcome : run_outcome;
  rv_fcr : fcrypt;
  rv_dst : list byte;
  rv_mac : option (list byte);
  rv_trace : trace
}.

Definition crypto_runv (env : run_env) (fcr : fcrypt) (copv : crypt_opv)
  : runv_result :=
  match op copv with
  | COP_other _ => mk_runv_result (returned (- EINVAL)%Z) fcr [] None []
  | _ =>
      let '(ses_ptr, t0) := crypto_get_session_by_sid fcr (ses copv) in
      match ses_ptr with
      | NULL => mk_runv_result (returned (- EINVAL)%Z) fcr [] None t0
      | entry_at i =>
          match nth_error fcr i with
          | Some s =>
              let '(l, ret, st, m) := runv_body env copv s in
              let st := runv_exit l st in
              mk_runv_result (returned ret) (store fcr i (cur st)) (dst st) m
                (t0 ++ log st)
          | None => mk_runv_result wild_pointer fcr [] None t0
          end
      | head_container =>
          if page_ok env then
            (* data = __get_free_page(); bdesc.tfm = ses_ptr->tfm: a read
               past the end of the struct fcrypt *)
            mk_runv_result wild_pointer fcr [] None (t0 ++ [Ev_get_free_page])
          else
            (* ret = -ENOMEM; goto out_unlock; up(&ses_ptr->sem), which is
               up(&fcr->sem); return ret *)
            mk_runv_result (returned (- ENOMEM)%Z) fcr [] None
              (t0 ++ [Ev_up_fcr])
      end
  end.

(** ** crypto_run *)

(** [struct crypt_op]: the single-buffer request. *)
Record crypt_op : Type := mk_crypt_op {
  cop_op : cop;
  cop_ses : Z;
  cop_src : list byte;
  cop_iv : option (list byte)
}.

Definition crypto_run (env : run_env) (fcr : fcrypt) (c : crypt_op)
  : runv_result :=
  crypto_runv env fcr
    (mk_crypt_opv (cop_op c) (cop_ses c) (cop_iv c)
       [mk_crypt_iovec (cop_src c) (Z.lor IOP_CIPHER IOP_HASH)]).

End Driver.

Arguments csession : clear implicits.
Arguments fcrypt : clear implicits.
Arguments run_st : clear implicits.
Arguments create_result : clear implicits.
Arguments runv_result : clear implicits.

(** ** A small concrete kernel

    An instance of the header constants and of the CryptoAPI on which the
    driver can be run: a chaining XOR cipher under the names of two block
    ciphers, and a hash whose digest is the head of the byte stream it
    absorbed.  It serves to evaluate the driver on concrete requests. *)
Module Toy.

#[global] Instance header : cryptodev_h := {|
  IOP_CIPHER := 1;
  IOP_HASH := 2;
  CRYPTO_CIPHER_MAX_KEY_LEN := 64;
  CRYPTO_HMAC_MAX_KEY_LEN := 512;
  PAGE_SIZE := 4096;
  BITS_PER_LONG := 64;
  PAGE_SIZE_pos := Nat.lt_0_succ 4095
|}.

Record blk : Type := mk_blk {
  blk_blocksize_pred : nat;
  blk_min_keysize : nat;
  blk_max_keysize : nat;
  blk_key : list byte;
  blk_iv : list byte
}.

Record hsh : Type := mk_hsh {
  hsh_digestsize : nat;
  hsh_key : list byte;
  hsh_absorbed : list byte
}.

Definition xor_byte (a b : byte) : byte :=
  match Byte.of_N (N.lxor (Byte.to_N a) (Byte.to_N b)) with
  | Some c => c
  | None => a
  end.

Definition blocksize (c : blk) : nat := S (blk_blocksize_pred c).

(** The last [blocksize] bytes of [data], the new chaining value. *)
Definition last_block (c : blk) (data : list byte) : list byte :=
  skipn (List.length data - blocksize c) data.

Definition mask (c : blk) : byte :=
  xor_byte (hd x00 (blk_iv c)) (hd x00 (blk_key c)).

Definition with_iv (c : blk) (ivp : list byte) : blk :=
  mk_blk (blk_blocksize_pred c) (blk_min_keysize c) (blk_max_keysize c)
    (blk_key c) ivp.

Definition encrypt (c : blk) (data : list byte) : Z * blk * list byte :=
  let out := map (xor_byte (mask c)) data in
  (0%Z, with_iv c (last_block c out), out).

Definition decrypt (c : blk) (data : list byte) : Z * blk * list byte :=
  let out := map (xor_byte (mask c)) data in
  (0%Z, with_iv c (last_block c data), out).

Definition alloc_blkcipher (name : string) : option blk :=
  if String.eqb name "cbc(des)" then Some (mk_blk 7 8 8 [] (repeat x00 8))
  else if String.eqb name "cbc(aes)" then
    Some (mk_blk 15 16 32 [] (repeat x00 16))
  else None.

Definition setkey (c : blk) (k : list byte) : Z * blk :=
  (0%Z, mk_blk (blk_blocksize_pred c) (blk_min_keysize c) (blk_max_keysize c)
          k (blk_iv c)).

Definition alloc_hash (name : string) : option hsh :=
  if String.eqb name "sha1" then Some (mk_hsh 20 [] [])
  else if String.eqb name "hmac(sha1)" then Some (mk_hsh 20 [] [])
  else if String.eqb name "md5" then Some (mk_hsh 16 [] [])
  else if String.eqb name "hmac(md5)" then Some (mk_hsh 16 [] [])
  else None.

Definition hash_setkey (h : hsh) (k : list byte) : Z * hsh :=
  (0%Z, mk_hsh (hsh_digestsize h) k (hsh_absorbed h)).

Definition hash_init (h : hsh) : Z * hsh :=
  (0%Z, mk_hsh (hsh_digestsize h) (hsh_key h) []).

Definition hash_update (h : hsh) (data : list byte) : Z * hsh :=
  (0%Z, mk_hsh (hsh_digestsize h) (hsh_key h) (hsh_absorbed h ++ data)).

(** The digest: the first [digestsize] bytes of key and stream, padded
    with zeros. *)
Definition hash_final (h : hsh) : Z * hsh * list byte :=
  (0%Z, h,
   firstn (hsh_digestsize h)
     (hsh_key h ++ hsh_absorbed h ++ repeat x00 (hsh_digestsize h))).

#[global] Instance api : CryptoAPI blk hsh := {|
  crypto_alloc_blkcipher := alloc_blkcipher;
  crypto_blkcipher_alg :=
    fun c => Some (blk_min_keysize c, blk_max_keysize c);
  crypto_blkcipher_setkey := setkey;
  crypto_blkcipher_blocksize := blocksize;
  crypto_blkcipher_ivsize := blocksize;
  crypto_blkcipher_set_iv := with_iv;
  crypto_blkcipher_encrypt := encrypt;
  crypto_blkcipher_decrypt := decrypt;
  crypto_alloc_hash := alloc_hash;
  crypto_hash_setkey := hash_setkey;
  crypto_hash_init := hash_init;
  crypto_hash_update := hash_update;
  crypto_hash_final := hash_final;
  crypto_hash_digestsize := hsh_digestsize;
  crypto_blkcipher_blocksize_pos := fun c => Nat.lt_0_succ (blk_blocksize_pred c)
|}.

(** A 16-byte key and two sessions to run requests on. *)
Definition key16 : list byte := repeat x11 16.

Definition aes : blk := mk_blk 15 16 32 key16 (repeat x00 16).
Definition sha1 : hsh := mk_hsh 20 [] [].

Definition ses_both : csession blk hsh :=
  mk_csession (Some aes) (Some sha1) 7 0 0 0 0.
Definition ses_hash_only : csession blk hsh :=
  mk_csession None (Some sha1) 8 0 0 0 0.
Definition ses_cipher_only : csession blk hsh :=
  mk_csession (Some aes) None 9 0 0 0 0.

Definition table : fcrypt blk hsh := [ses_both; ses_hash_only; ses_cipher_only].

Definition env_ok : run_env := mk_run_env true true.

(** A request for an id that no session of [table] carries. *)
Definition copv_unknown : crypt_opv :=
  mk_crypt_opv COP_ENCRYPT 99 None [mk_crypt_iovec (repeat x41 16) 3].

(** A session request for AES-CBC with a hash this kernel does not have
    ([alloc_hash] knows no "rmd160"). *)
Definition sop_aes_rmd160 : session_op :=
  mk_session_op CRYPTO_AES_CBC CRYPTO_RIPEMD160 key16 [].

Definition cenv : create_env := mk_create_env true [7%Z; 8%Z; 5%Z].

(** Requests on the three sessions of [table]. *)
Definition seg (n : nat) (fl : Z) : crypt_iovec :=
  mk_crypt_iovec (repeat x41 n) fl.

(** Encrypt and hash two aligned segments on the session with both
    transforms, and the same for decryption. *)
Definition copv_both : crypt_opv :=
  mk_crypt_opv COP_ENCRYPT 7 (Some (repeat x22 16)) [seg 16 3; seg 32 3].


(** The cipher flag on the hash-only session. *)
Definition copv_cipher_on_hash_only : crypt_opv :=
  mk_crypt_opv COP_ENCRYPT 8 None [seg 3 1].

(** Three bytes for a 16-byte block cipher, as the only segment and after
    an aligned one. *)
Definition copv_misaligned : crypt_opv :=
  mk_crypt_opv COP_ENCRYPT 9 None [seg 3 1].

Definition copv_misaligned_second : crypt_opv :=
  mk_crypt_opv COP_ENCRYPT 9 None [seg 16 1; seg 3 1; seg 16 1].

(** Cipher only, on the session with both transforms, and no segment at
    all on the hash-only session. *)
Definition copv_no_hash_flag : crypt_opv :=
  mk_crypt_opv COP_ENCRYPT 7 None [seg 16 1].

Definition copv_empty : crypt_opv := mk_crypt_opv COP_ENCRYPT 8 None [].

(** Associated data that is hashed only, a payload that is hashed and
    encrypted, and padding that is encrypted only. *)
Definition copv_mixed : crypt_opv :=
  mk_crypt_opv COP_ENCRYPT 7 (Some (repeat x22 16))
    [mk_crypt_iovec [x01; x02; x03] 2; seg 32 3;
     mk_crypt_iovec (repeat x00 16) 1].

(** A segment of a page and two blocks, for both transforms. *)
Definition copv_long : crypt_opv :=
  mk_crypt_opv COP_ENCRYPT 7 None [seg (4096 + 32) 3].

(** The single-buffer request of CIOCCRYPT on the hash-only session. *)
Definition cop_hash_only : crypt_op :=
  mk_crypt_op COP_ENCRYPT 8 (repeat x41 3) None.

(** The state in which [runv_init] hands [copv_misaligned_second] to the
    [for] loop, and the state after its first segment. *)
Definition st0_misaligned_second : run_st blk hsh :=
  Eval vm_compute in
    match runv_init env_ok copv_misaligned_second ses_cipher_only with
    | inr (_, st) => st
    | inl (_, _, st) => st
    end.

Definition st1_misaligned_second : run_st blk hsh :=
  Eval vm_compute in
    snd (for_iovec env_ok COP_ENCRYPT 16 [seg 16 1] st0_misaligned_second).

(** The state in which [runv_init] hands [copv_both] to the [for] loop. *)
Definition st0_both : run_st blk hsh :=
  Eval vm_compute in
    match runv_init env_ok copv_both ses_both with
    | inr (_, st) => st
    | inl (_, _, st) => st
    end.

(** Two sessions made by [crypto_create_session] on an empty table; for the
    second one the first value drawn is taken already. *)
Definition sop_aes : session_op := mk_session_op CRYPTO_AES_CBC MAC_0 key16 [].

Definition table1 : fcrypt blk hsh := [mk_csession (Some aes) None 7 0 0 0 0].

Definition table2 : fcrypt blk hsh :=
  [mk_csession (Some aes) None 5 0 0 0 0;
   mk_csession (Some aes) None 7 0 0 0 0].

End Toy.

(** ** A kernel whose hash transform fails

    A second instance of the CryptoAPI, for the error paths: the cipher
    copies its data, and a hash object is the value that its
    [crypto_hash_init] and [crypto_hash_final] return. *)
Module Faulty.

Definition api : CryptoAPI unit Z := {|
  crypto_alloc_blkcipher := fun _ => Some tt;
  crypto_blkcipher_alg := fun _ => None;
  crypto_blkcipher_setkey := fun c _ => (0%Z, c);
  crypto_blkcipher_blocksize := fun _ => 1;
  crypto_blkcipher_ivsize := fun _ => 0;
  crypto_blkcipher_set_iv := fun c _ => c;
  crypto_blkcipher_encrypt := fun c d => (0%Z, c, d);
  crypto_blkcipher_decrypt := fun c d => (0%Z, c, d);
  crypto_alloc_hash := fun _ => Some 0%Z;
  crypto_hash_setkey := fun h _ => (0%Z, h);
  crypto_hash_init := fun h => (h, h);
  crypto_hash_update := fun h _ => (0%Z, h);
  crypto_hash_final := fun h => (h, h, []);
  crypto_hash_digestsize := fun _ => 0;
  crypto_blkcipher_blocksize_pos := fun _ => Nat.lt_0_succ 0
|}.

(** A session whose hash transform answers [-5] ([-EIO]). *)
Definition ses_failing : csession unit Z :=
  mk_csession (Some tt) (Some (-5)%Z) 3 0 0 0 0.

Definition table : fcrypt unit Z := [ses_failing].

Definition copv : crypt_opv :=
  mk_crypt_opv COP_ENCRYPT 3 (Some [x01])
    [mk_crypt_iovec [x41; x42] 3].

End Faulty.

(** ** Vocabulary of the statements *)

Definition valid_op (o : cop) : bool :=
  match o with COP_other _ => false | _ => true end.

Definition is_set_iv (e : event) : bool :=
  match e with Ev_set_iv _ => true | _ => false end.

Definition is_transform_call (e : event) : bool :=
  match e with
  | Ev_hash_update _ | Ev_encrypt _ | Ev_decrypt _ => true
  | _ => false
  end.

(** The calls that drive a transform over data, in order. *)
Definition transform_calls (t : trace) : trace := filter is_transform_call t.




(** What the lookup of a session records. *)
Definition lookup_trace (s : Z) : trace :=
  [Ev_down_fcr; Ev_down_ses s; Ev_up_fcr].

(** The chunks handed to [crypto_hash_update], in order. *)
Fixpoint hash_inputs (t : trace) : list (list byte) :=
  match t with
  | [] => []
  | Ev_hash_update d :: t' => d :: hash_inputs t'
  | _ :: t' => hash_inputs t'
  end.

(** The chunks read from the sources into the staging page, in order. *)
Fixpoint from_user (t : trace) : list (list byte) :=
  match t with
  | [] => []
  | Ev_copy_from_user d :: t' => d :: from_user t'
  | _ :: t' => from_user t'
  end.

(** The chunks stored through [dst], in order. *)
Fixpoint to_dst (t : trace) : list (list byte) :=
  match t with
  | [] => []
  | Ev_copy_to_user_dst d :: t' => d :: to_dst t'
  | _ :: t' => to_dst t'
  end.

Section Digest.

Context {blkcipher hash_t : Type} {API : CryptoAPI blkcipher hash_t}.

(** The hash object after the chunks were fed to it one by one. *)
Definition absorb (h : hash_t) (chunks : list (list byte)) : hash_t :=
  fold_left (fun h' c => snd (crypto_hash_update h' c)) chunks h.

(** The digest of a chunked byte stream under the transform [h]: a fresh
    [crypto_hash_init], the updates, [crypto_hash_final], and the first
    [digestsize] bytes of its output. *)
Definition digest_of (h : hash_t) (chunks : list (list byte)) : list byte :=
  let '(_, h', out) := crypto_hash_final (absorb (snd (crypto_hash_init h)) chunks) in
  firstn (crypto_hash_digestsize h') out.

End Digest.

Section Lookup.

Context {blkcipher hash_t : Type}.

(** The session a request for the id [s] runs on: the entry on which the
    lookup stops. *)
Definition session_of (fcr : fcrypt blkcipher hash_t) (s : Z)
  : option (nat * csession blkcipher hash_t) :=
  match list_for_each_entry_sid fcr s 0 with
  | entry_at i =>
      match nth_error fcr i with Some e => Some (i, e) | None => None end
  | _ => None
  end.

(** Two flag words act alike on a session: they agree on the cipher bit if
    there is a cipher transform, and on the hash bit if there is a hash
    transform. *)
Definition same_effect {H : cryptodev_h} (s : csession blkcipher hash_t)
    (fl fl' : Z) : Prop :=
  (held (tfm s) = 1 -> has_flag fl IOP_CIPHER = has_flag fl' IOP_CIPHER)
  /\ (held (hash_tfm s) = 1 -> has_flag fl IOP_HASH = has_flag fl' IOP_HASH).

(** What the loops never change of a session: its id and which transforms
    it has. *)
Definition same_shape (s s' : csession blkcipher hash_t) : Prop :=
  sid s' = sid s
  /\ held (tfm s') = held (tfm s)
  /\ held (hash_tfm s') = held (hash_tfm s).

End Lookup.

(** A predicate on events that holds of none of the events of a turn of
    the [while] loop. *)
Definition quiet (p : event -> bool) : Prop :=
  forall e, is_data_event e = true -> p e = false.

Section Turn.

Context {H : cryptodev_h}.
Context {blkcipher hash_t : Type} {API : CryptoAPI blkcipher hash_t}.

(** A property of the state that each of the four ways in which a turn of
    the [while] loop changes it keeps: the copy from the source, the hash
    update, the cipher call, the copy to the destination. *)
Record turn_closed (fl : Z) (P : run_st blkcipher hash_t -> Prop) : Prop := {
  closed_copy_in : forall st d, P st -> P (emit (Ev_copy_from_user d) st);
  closed_hash :
    forall st h d,
      hash_tfm (cur st) = Some h -> has_flag fl IOP_HASH = true -> P st ->
      P (emit (Ev_hash_update d)
           (set_hash_tfm (snd (crypto_hash_update h d)) st));
  closed_cipher :
    forall st c c' d,
      tfm (cur st) = Some c -> has_flag fl IOP_CIPHER = true -> P st ->
      P (emit (Ev_encrypt d) (set_tfm c' st))
      /\ P (emit (Ev_decrypt d) (set_tfm c' st));
  closed_copy_out : forall st d, P st -> P (copy_to_dst d st)
}.





End Turn.

(** Two segments that a session cannot tell apart: the same source, and
    flag words that act alike on it. *)
Definition alike {H : cryptodev_h} {blkcipher hash_t : Type}
    (s : csession blkcipher hash_t) (v v' : crypt_iovec) : Prop :=
  src v = src v' /\ same_effect s (op_flags v) (op_flags v').

Section Reachable.

Context {H : cryptodev_h}.
Context {blkcipher hash_t : Type} {API : CryptoAPI blkcipher hash_t}.

(** The tables of one open file: [cryptodev_open] starts with the empty
    list, and every ioctl that [cryptodev_ioctl] passes on to the functions
    above takes the table from one state to the next.  A [crypto_runv] that
    runs on with a pointer to no session is no step: what memory holds after
    it is not defined. *)
Inductive reachable : fcrypt blkcipher hash_t -> Prop :=
| reach_open : reachable []
| reach_create (env : create_env) (sop : session_op)
    (fcr fcr' : fcrypt blkcipher hash_t) :
    reachable fcr ->
    option_map cr_fcr (crypto_create_session env fcr sop) = Some fcr' ->
    reachable fcr'
| reach_finish (x : Z) (fcr fcr' : fcrypt blkcipher hash_t) :
    reachable fcr ->
    snd (fst (crypto_finish_session fcr x)) = fcr' ->
    reachable fcr'
| reach_run (env : run_env) (copv : crypt_opv) (ret : Z)
    (fcr fcr' : fcrypt blkcipher hash_t) :
    reachable fcr ->
    rv_outcome (crypto_runv env fcr copv) = returned ret ->
    rv_fcr (crypto_runv env fcr copv) = fcr' ->
    reachable fcr'.

End Reachable.

(** ** Opening and closing the device *)

Section Device.

Context {H : cryptodev_h}.
Context {blkcipher hash_t : Type} {API : CryptoAPI blkcipher hash_t}.

(** [cryptodev_open]: the result, and [filp->private_data] afterwards
    ([None] is NULL); the argument says whether [kmalloc] gives the
    [struct fcrypt]. *)
Definition cryptodev_open (kmalloc_fcr_ok : bool)
  : Z * option (fcrypt blkcipher hash_t) :=
  if kmalloc_fcr_ok then (0%Z, Some []) else ((- ENOMEM)%Z, None).

(** [cryptodev_release]: with a table behind [filp->private_data], all its
    sessions are finished and the table is freed. *)
Definition cryptodev_release (private_data : option (fcrypt blkcipher hash_t))
  : Z * option (fcrypt blkcipher hash_t) * trace :=
  match private_data with
  | Some fcr =>
      let '(_, _, t) := crypto_finish_all_sessions fcr in (0%Z, None, t)
  | None => (0%Z, None, [])
  end.

(** The handles that the sessions of a table own. *)
Definition held_ciphers (fcr : fcrypt blkcipher hash_t) : nat :=
  list_sum (map (fun s => held (tfm s)) fcr).

Definition held_hashes (fcr : fcrypt blkcipher hash_t) : nat :=
  list_sum (map (fun s => held (hash_tfm s)) fcr).

(** The life of one open file: the table that a successful
    [cryptodev_open] left behind [filp->private_data], then the ioctls, with
    the trace of all calls so far.  As in [reachable], a [crypto_runv] that
    runs on with a pointer to no session is no step. *)
Inductive execution : fcrypt blkcipher hash_t -> trace -> Prop :=
| exec_open (fcr : fcrypt blkcipher hash_t) :
    cryptodev_open true = (0%Z, Some fcr) -> execution fcr []
| exec_create (env : create_env) (sop : session_op)
    (fcr fcr' : fcrypt blkcipher hash_t) (T T' : trace) :
    execution fcr T ->
    option_map (fun r => (cr_fcr r, T ++ cr_trace r))
      (crypto_create_session env fcr sop) = Some (fcr', T') ->
    execution fcr' T'
| exec_finish (x : Z) (fcr fcr' : fcrypt blkcipher hash_t) (T T' : trace) :
    execution fcr T ->
    (snd (fst (crypto_finish_session fcr x)),
     T ++ snd (crypto_finish_session fcr x)) = (fcr', T') ->
    execution fcr' T'
| exec_run (env : run_env) (copv : crypt_opv) (ret : Z)
    (fcr fcr' : fcrypt blkcipher hash_t) (T T' : trace) :
    execution fcr T ->
    rv_outcome (crypto_runv env fcr copv) = returned ret ->
    (rv_fcr (crypto_runv env fcr copv),
     T ++ rv_trace (crypto_runv env fcr copv)) = (fcr', T') ->
    execution fcr' T'.



End Device.

(** The events that [crypto_runv] can record. *)
Definition is_run_event (e : event) : bool :=
  match e with
  | Ev_down_fcr | Ev_up_fcr | Ev_down_ses _ | Ev_up_ses _
  | Ev_get_free_page | Ev_free_page
  | Ev_hash_init | Ev_hash_update _ | Ev_hash_final
  | Ev_set_iv _ | Ev_encrypt _ | Ev_decrypt _
  | Ev_copy_from_user _ | Ev_copy_to_user_dst _ | Ev_copy_to_user_mac _ =>
      true
  | _ => false
  end.

(** The semaphore operations. *)
Definition is_semaphore (e : event) : bool :=
  match e with
  | Ev_down_fcr | Ev_up_fcr | Ev_down_ses _ | Ev_up_ses _ => true
  | _ => false
  end.

(** What [crypto_runv] can record between [__get_free_page] and the label
    [out:]. *)
Definition is_body_event (e : event) : bool :=
  match e with
  | Ev_get_free_page
  | Ev_hash_init | Ev_hash_update _ | Ev_hash_final
  | Ev_set_iv _ | Ev_encrypt _ | Ev_decrypt _
  | Ev_copy_from_user _ | Ev_copy_to_user_dst _ | Ev_copy_to_user_mac _ =>
      true
  | _ => false
  end.

(** Allocation and release of a transform. *)
Definition is_handle_event (e : event) : bool :=
  match e with
  | Ev_alloc_blkcipher _ | Ev_free_blkcipher
  | Ev_alloc_hash _ | Ev_free_hash => true
  | _ => false
  end.

Definition is_kmalloc_ses (e : event) : bool :=
  match e with Ev_kmalloc_ses => true | _ => false end.

Definition is_kfree_ses (e : event) : bool :=
  match e with Ev_kfree_ses _ => true | _ => false end.

(** The data handed to the cipher, in order. *)
Fixpoint cipher_inputs (t : trace) : list (list byte) :=
  match t with
  | [] => []
  | Ev_encrypt d :: t' => d :: cipher_inputs t'
  | Ev_decrypt d :: t' => d :: cipher_inputs t'
  | _ :: t' => cipher_inputs t'
  end.

(** The four statistics fields of a session. *)
Definition stats_of {blkcipher hash_t : Type} (s : csession blkcipher hash_t)
  : Z * Z * Z * Z :=
  (stat_encrypt s, stat_decrypt s, stat_max_size s, stat_count s).

(** * Properties of the session table *)

Section TableProperties.

Context {H : cryptodev_h}.
Context {blkcipher hash_t : Type} {API : CryptoAPI blkcipher hash_t}.

#[local] Abbreviation csession := (csession blkcipher hash_t).
#[local] Abbreviation fcrypt := (fcrypt blkcipher hash_t).

(** *** The cursor of the list loops *)

Lemma cursor_not_null (l : fcrypt) (s : Z) (i : nat) :
  is_null (list_for_each_entry_sid l s i) = false.
Proof.
  revert i. induction l as [|e l IH]; intros i; simpl; [reflexivity|].
  destruct (Z.eqb (sid e) s); [reflexivity | apply IH].
Qed.

Lemma cursor_absent (l : fcrypt) (s : Z) (i : nat) :
  ~ In s (sids l) -> list_for_each_entry_sid l s i = head_container.
Proof.
  revert i. induction l as [|e l IH]; intros i Hn; simpl; [reflexivity|].
  destruct (Z.eqb_spec (sid e) s) as [E|E].
  - exfalso. apply Hn. left. exact E.
  - apply IH. intro Hin. apply Hn. right. exact Hin.
Qed.

Lemma cursor_present (l : fcrypt) (s : Z) (i : nat) :
  In s (sids l) ->
  exists j e, list_for_each_entry_sid l s i = entry_at (i + j)
              /\ nth_error l j = Some e /\ sid e = s
              /\ ~ In s (sids (firstn j l)).
Proof.
  revert i. induction l as [|e l IH]; intros i Hin; simpl in *; [contradiction|].
  destruct (Z.eqb_spec (sid e) s) as [E|E].
  - exists 0, e. rewrite Nat.add_0_r. simpl. auto.
  - destruct Hin as [Hin|Hin]; [contradiction|].
    destruct (IH (S i) Hin) as (j & e' & Hc & Hn & Hs & Hf).
    exists (S j), e'. rewrite Hc. simpl.
    split; [f_equal; lia|]. split; [exact Hn|]. split; [exact Hs|].
    intros [Hd|Hd]; [contradiction | exact (Hf Hd)].
Qed.

Lemma list_del_sids (l : fcrypt) (j : nat) :
  sids (list_del l j) = firstn j (sids l) ++ skipn (S j) (sids l).
Proof.
  revert j. induction l as [|e l IH]; intros [|j]; try reflexivity.
  exact (f_equal (cons (sid e)) (IH j)).
Qed.

Lemma sids_split (l : fcrypt) (j : nat) (e : csession) :
  nth_error l j = Some e ->
  sids l = firstn j (sids l) ++ sid e :: skipn (S j) (sids l).
Proof.
  revert j. induction l as [|a l IH]; intros [|j] Hn; simpl in *; try discriminate.
  - injection Hn as ->. reflexivity.
  - f_equal. apply IH. exact Hn.
Qed.

Lemma list_del_NoDup (l : fcrypt) (j : nat) :
  NoDup (sids l) -> NoDup (sids (list_del l j)).
Proof.
  intros Hnd. rewrite list_del_sids.
  destruct (nth_error l j) as [e|] eqn:Hn.
  - rewrite (sids_split l j e Hn) in Hnd.
    apply NoDup_remove_1 in Hnd. exact Hnd.
  - apply nth_error_None in Hn.
    assert (Hl : List.length (sids l) <= j) by (unfold sids; rewrite length_map; exact Hn).
    rewrite firstn_all2 by exact Hl.
    rewrite skipn_all2 by lia. rewrite app_nil_r. exact Hnd.
Qed.

Lemma list_del_removes (l : fcrypt) (j : nat) (e : csession) :
  NoDup (sids l) -> nth_error l j = Some e ->
  ~ In (sid e) (sids (list_del l j)).
Proof.
  intros Hnd Hn. rewrite list_del_sids.
  rewrite (sids_split l j e Hn) in Hnd.
  apply NoDup_remove_2 in Hnd. exact Hnd.
Qed.

(** *** The loop at [restart:] *)

Lemma duplicate_sid_In (l : fcrypt) (c : Z) :
  duplicate_sid l c = true <-> In c (sids l).
Proof.
  induction l as [|e l IH]; simpl.
  - split; [discriminate | contradiction].
  - destruct (Z.eqb_spec c (sid e)) as [E|E].
    + split; auto.
    + rewrite IH. split; [auto | intros [E'|E']; [congruence | exact E']].
Qed.

Lemma restart_find (fcr : fcrypt) (r0 : Z) (more : list Z) (t : trace) :
  option_map fst (restart fcr r0 more t)
  = find (fun c => negb (duplicate_sid fcr c)) (r0 :: more).
Proof.
  revert r0 t. induction more as [|r more IH]; intros r0 t; simpl.
  - destruct (duplicate_sid fcr r0); reflexivity.
  - destruct (duplicate_sid fcr r0) eqn:E; simpl; [|reflexivity].
    rewrite IH. reflexivity.
Qed.

Lemma restart_fresh (fcr : fcrypt) (r0 : Z) (more : list Z) (t t' : trace)
    (s : Z) :
  restart fcr r0 more t = Some (s, t') -> ~ In s (sids fcr).
Proof.
  intros Hr.
  pose proof (restart_find fcr r0 more t) as Hf. rewrite Hr in Hf.
  symmetry in Hf. apply find_some in Hf. destruct Hf as [_ Hd].
  simpl in Hd. rewrite <- duplicate_sid_In.
  destruct (duplicate_sid fcr s); [discriminate | congruence].
Qed.

(** Every set of draws that holds a value absent from the table lets the
    loop finish. *)
Lemma restart_terminates (fcr : fcrypt) (r0 : Z) (more : list Z) (t : trace) :
  (exists c, In c (r0 :: more) /\ ~ In c (sids fcr)) ->
  exists s t', restart fcr r0 more t = Some (s, t').
Proof.
  intros (c & Hin & Hc).
  destruct (restart fcr r0 more t) as [[s t']|] eqn:Hr; [eauto|].
  exfalso.
  pose proof (restart_find fcr r0 more t) as Hf. rewrite Hr in Hf.
  simpl option_map in Hf. symmetry in Hf.
  apply (find_none _ _ Hf) in Hin.
  apply negb_false_iff in Hin. apply duplicate_sid_In in Hin. contradiction.
Qed.

Lemma last_cons_default (z : Z) (l : list Z) (d d' : Z) :
  last (z :: l) d = last (z :: l) d'.
Proof.
  revert z. induction l as [|y l IH]; intros z; [reflexivity|].
  exact (IH y).
Qed.

(** What the loop records: the values drawn anew, the last of which is
    the id it ends on. *)
Lemma restart_trace (fcr : fcrypt) (r0 : Z) (more : list Z) (t t' : trace)
    (s : Z) :
  restart fcr r0 more t = Some (s, t') ->
  exists redraws rest,
    more = redraws ++ rest
    /\ t' = t ++ map Ev_get_random_bytes redraws
    /\ s = last redraws r0.
Proof.
  revert r0 t. induction more as [|r more IH]; intros r0 t; simpl.
  - destruct (duplicate_sid fcr r0); [discriminate|].
    intros E. injection E as <- <-. exists [], []. simpl.
    rewrite app_nil_r. auto.
  - destruct (duplicate_sid fcr r0).
    + intros E. destruct (IH r _ E) as (redraws & rest & Hm & Ht & Hl).
      exists (r :: redraws), rest.
      split; [simpl; f_equal; exact Hm|].
      split; [rewrite Ht, <- app_assoc; reflexivity|].
      rewrite Hl. destruct redraws as [|z l]; [reflexivity|].
      exact (last_cons_default z l r r0).
    + intros E. injection E as <- <-. exists [], (r :: more). simpl.
      rewrite app_nil_r. auto.
Qed.

(** *** crypto_create_session: what an error leaves behind *)

Lemma count_app (p : event -> bool) (t1 t2 : trace) :
  count p (t1 ++ t2) = count p t1 + count p t2.
Proof. unfold count. rewrite filter_app, length_app. reflexivity. Qed.

Lemma setup_cipher_inr (fcr : fcrypt) (sop : session_op)
    (alg_name : option string) (r : create_result blkcipher hash_t) :
  setup_cipher fcr sop alg_name = inr r ->
  cr_ret r = (- EINVAL)%Z /\ cr_fcr r = fcr /\ cr_ses r = None
  /\ count is_alloc_blkcipher (cr_trace r)
     = count is_free_blkcipher (cr_trace r)
  /\ count is_alloc_hash (cr_trace r) = 0
  /\ count is_free_hash (cr_trace r) = 0.
Proof.
  unfold setup_cipher. destruct alg_name as [name|]; [|discriminate].
  destruct (crypto_alloc_blkcipher name) as [b|].
  - destruct (match crypto_blkcipher_alg b with
              | Some (mn, mx) => (keylen sop <? mn) || (mx <? keylen sop)
              | None => false end).
    + intros E. injection E as <-. repeat split.
    + destruct (CRYPTO_CIPHER_MAX_KEY_LEN <? keylen sop).
      * intros E. injection E as <-. repeat split.
      * destruct (crypto_blkcipher_setkey b (key sop)) as [ret b'].
        destruct (negb (Z.eqb ret 0)); [|discriminate].
        intros E. injection E as <-. repeat split.
  - intros E. injection E as <-. repeat split.
Qed.

Lemma setup_cipher_inl (fcr : fcrypt) (sop : session_op)
    (alg_name : option string) (b : option blkcipher) (t : trace) :
  setup_cipher fcr sop alg_name = inl (b, t) ->
  count is_alloc_blkcipher t = held b
  /\ count is_free_blkcipher t = 0
  /\ count is_alloc_hash t = 0 /\ count is_free_hash t = 0.
Proof.
  unfold setup_cipher. destruct alg_name as [name|].
  - destruct (crypto_alloc_blkcipher name) as [b0|]; [|discriminate].
    destruct (match crypto_blkcipher_alg b0 with
              | Some (mn, mx) => (keylen sop <? mn) || (mx <? keylen sop)
              | None => false end); [discriminate|].
    destruct (CRYPTO_CIPHER_MAX_KEY_LEN <? keylen sop); [discriminate|].
    destruct (crypto_blkcipher_setkey b0 (key sop)) as [ret b'].
    destruct (negb (Z.eqb ret 0)); [discriminate|].
    intros E. injection E as <- <-. repeat split.
  - intros E. injection E as <- <-. repeat split.
Qed.

(** The hash half, started with a balanced trace that holds the cipher
    handle (if any): either it ends the call with every handle released,
    or it ends it on the failed hash allocation with the cipher handle
    still held, or it goes on. *)
Lemma setup_hash_inr (fcr : fcrypt) (sop : session_op)
    (b : option blkcipher) (hn : option (string * bool)) (t : trace)
    (r : create_result blkcipher hash_t) :
  count is_alloc_blkcipher t = held b ->
  count is_free_blkcipher t = 0 ->
  count is_alloc_hash t = 0 -> count is_free_hash t = 0 ->
  setup_hash fcr sop b hn t = inr r ->
  cr_ret r = (- EINVAL)%Z /\ cr_fcr r = fcr /\ cr_ses r = None
  /\ count is_alloc_hash (cr_trace r) = count is_free_hash (cr_trace r)
  /\ (count is_alloc_blkcipher (cr_trace r)
      = count is_free_blkcipher (cr_trace r)
      \/ (count is_alloc_blkcipher (cr_trace r) = 1
          /\ count is_free_blkcipher (cr_trace r) = 0
          /\ exists name m, hn = Some (name, m)
                            /\ crypto_alloc_hash name = None)).
Proof.
  intros Hab Hfb Hah Hfh. unfold setup_hash.
  destruct hn as [[name m]|]; [|discriminate].
  assert (Hbal : forall h' : hash_t,
    let r' := create_error fcr b (Some h') (- EINVAL)%Z
                (t ++ [Ev_alloc_hash name]) in
    count is_alloc_hash (cr_trace r') = count is_free_hash (cr_trace r')
    /\ count is_alloc_blkcipher (cr_trace r')
       = count is_free_blkcipher (cr_trace r')).
  { intros h'. simpl. rewrite !count_app, Hab, Hfb, Hah, Hfh.
    destruct b; split; reflexivity. }
  destruct (crypto_alloc_hash name) as [h|] eqn:Ea.
  - destruct m; [|discriminate].
    destruct (CRYPTO_HMAC_MAX_KEY_LEN <? mackeylen sop).
    + intros E. injection E as <-. destruct (Hbal h) as [B1 B2].
      repeat split; auto.
    + destruct (crypto_hash_setkey h (mackey sop)) as [ret h'].
      destruct (negb (Z.eqb ret 0)); [|discriminate].
      intros E. injection E as <-. destruct (Hbal h') as [B1 B2].
      repeat split; auto.
  - intros E. injection E as <-. simpl. rewrite Hab, Hfb, Hah, Hfh.
    repeat split; try reflexivity.
    destruct b; [right | left; reflexivity].
    repeat split. exists name, m. split; [reflexivity | exact Ea].
Qed.

Lemma setup_hash_inl (fcr : fcrypt) (sop : session_op)
    (b : option blkcipher) (hn : option (string * bool)) (t t' : trace)
    (h : option hash_t) :
  count is_alloc_blkcipher t = held b ->
  count is_free_blkcipher t = 0 ->
  count is_alloc_hash t = 0 -> count is_free_hash t = 0 ->
  setup_hash fcr sop b hn t = inl (h, t') ->
  count is_alloc_blkcipher t' = held b
  /\ count is_free_blkcipher t' = 0
  /\ count is_alloc_hash t' = held h
  /\ count is_free_hash t' = 0.
Proof.
  intros Hab Hfb Hah Hfh. unfold setup_hash.
  destruct hn as [[name m]|].
  - destruct (crypto_alloc_hash name) as [h0|]; [|discriminate].
    assert (Hc : count is_alloc_blkcipher (t ++ [Ev_alloc_hash name])
                 = held b
                 /\ count is_free_blkcipher (t ++ [Ev_alloc_hash name]) = 0
                 /\ count is_alloc_hash (t ++ [Ev_alloc_hash name]) = 1
                 /\ count is_free_hash (t ++ [Ev_alloc_hash name]) = 0).
    { rewrite !count_app, Hab, Hfb, Hah, Hfh. unfold count. simpl.
      repeat split; lia. }
    destruct m.
    + destruct (CRYPTO_HMAC_MAX_KEY_LEN <? mackeylen sop); [discriminate|].
      destruct (crypto_hash_setkey h0 (mackey sop)) as [ret h'].
      destruct (negb (Z.eqb ret 0)); [discriminate|].
      intros E. injection E as <- <-. exact Hc.
    + intros E. injection E as <- <-. exact Hc.
  - intros E. injection E as <- <-. auto.
Qed.

(** One successful call: the new session sits at the head of the list and
    carries the first drawn value that no session of the table has. *)
Lemma create_session_success (env : create_env) (fcr : fcrypt)
    (sop : session_op) (r : create_result blkcipher hash_t) :
  crypto_create_session env fcr sop = Some r -> cr_ret r = 0%Z ->
  exists s e,
    cr_ses r = Some s /\ cr_fcr r = e :: fcr /\ sid e = s
    /\ ~ In s (sids fcr)
    /\ find (fun c => negb (duplicate_sid fcr c)) (random env) = Some s
    /\ exists t r0 redraws rest,
         random env = r0 :: redraws ++ rest
         /\ s = last redraws r0
         /\ cr_trace r
            = t ++ [Ev_kmalloc_ses; Ev_get_random_bytes r0; Ev_down_fcr]
                ++ map Ev_get_random_bytes redraws
                ++ [Ev_list_add s; Ev_up_fcr].
Proof.
  unfold crypto_create_session.
  destruct (match cipher sop with CIPHER_0 => _ | _ => _ end).
  { intros E. injection E as <-. discriminate. }
  destruct (alg_name_of (cipher sop)) as [alg|].
  2:{ intros E. injection E as <-. discriminate. }
  destruct (hash_name_of (mac sop)) as [hn|].
  2:{ intros E. injection E as <-. discriminate. }
  destruct (setup_cipher fcr sop alg) as [[b t1]|r1] eqn:Ec.
  2:{ intros E. injection E as <-. intros E0.
      apply setup_cipher_inr in Ec. destruct Ec as [Er _].
      rewrite Er in E0. discriminate. }
  destruct (setup_hash fcr sop b hn t1) as [[h t2]|r2] eqn:Eh.
  2:{ intros E. injection E as <-. intros E0.
      apply setup_cipher_inl in Ec. destruct Ec as (A1 & A2 & A3 & A4).
      apply (setup_hash_inr _ _ _ _ _ _ A1 A2 A3 A4) in Eh.
      destruct Eh as [Er _]. rewrite Er in E0. discriminate. }
  destruct (negb (kmalloc_ok env)).
  { intros E. injection E as <-. discriminate. }
  destruct (random env) as [|r0 more]; [discriminate|].
  destruct (restart fcr r0 more _) as [[s t4]|] eqn:Er; [|discriminate].
  intros E _. injection E as <-. simpl.
  exists s, (mk_csession b h s 0 0 0 0).
  split; [reflexivity|]. split; [reflexivity|]. split; [reflexivity|].
  split; [exact (restart_fresh _ _ _ _ _ _ Er)|]. split.
  - pose proof (restart_find fcr r0 more
                  (t2 ++ [Ev_kmalloc_ses; Ev_get_random_bytes r0; Ev_down_fcr]))
      as Hf.
    rewrite Er in Hf. simpl option_map in Hf. symmetry. exact Hf.
  - destruct (restart_trace _ _ _ _ _ _ Er)
      as (redraws & rest & Hm & Ht & Hl).
    exists t2, r0, redraws, rest. rewrite Hm, Ht, <- !app_assoc. auto.
Qed.

(** One failed call leaves the table as it was. *)
Lemma create_session_failure (env : create_env) (fcr : fcrypt)
    (sop : session_op) (r : create_result blkcipher hash_t) :
  crypto_create_session env fcr sop = Some r -> cr_ret r <> 0%Z ->
  cr_fcr r = fcr /\ cr_ses r = None.
Proof.
  unfold crypto_create_session.
  destruct (match cipher sop with CIPHER_0 => _ | _ => _ end).
  { intros E. injection E as <-. split; reflexivity. }
  destruct (alg_name_of (cipher sop)) as [alg|].
  2:{ intros E. injection E as <-. split; reflexivity. }
  destruct (hash_name_of (mac sop)) as [hn|].
  2:{ intros E. injection E as <-. split; reflexivity. }
  destruct (setup_cipher fcr sop alg) as [[b t1]|r1] eqn:Ec.
  2:{ intros E. injection E as <-. intros _.
      apply setup_cipher_inr in Ec. tauto. }
  destruct (setup_hash fcr sop b hn t1) as [[h t2]|r2] eqn:Eh.
  2:{ intros E. injection E as <-. intros _.
      apply setup_cipher_inl in Ec. destruct Ec as (A1 & A2 & A3 & A4).
      apply (setup_hash_inr _ _ _ _ _ _ A1 A2 A3 A4) in Eh. tauto. }
  destruct (negb (kmalloc_ok env)).
  { intros E. injection E as <-. split; reflexivity. }
  destruct (random env) as [|r0 more]; [discriminate|].
  destruct (restart fcr r0 more _) as [[s t4]|]; [|discriminate].
  intros E. injection E as <-. simpl. intros E0. contradiction E0. reflexivity.
Qed.

(** C3: when [crypto_create_session] returns an error, the table is as it
    was and no id is handed out; a hash handle allocated in the call has
    been released; a cipher handle allocated in the call has been released
    unless the error is the failed allocation of the hash transform: there
    the function returns with the cipher handle still allocated. *)
Theorem create_session_error_paths (env : create_env) (fcr : fcrypt)
    (sop : session_op) (r : create_result blkcipher hash_t) :
  crypto_create_session env fcr sop = Some r -> cr_ret r <> 0%Z ->
  cr_fcr r = fcr /\ cr_ses r = None
  /\ count is_alloc_hash (cr_trace r) = count is_free_hash (cr_trace r)
  /\ (count is_alloc_blkcipher (cr_trace r)
      = count is_free_blkcipher (cr_trace r)
      \/ (count is_alloc_blkcipher (cr_trace r) = 1
          /\ count is_free_blkcipher (cr_trace r) = 0
          /\ exists name m,
               hash_name_of (mac sop) = Some (Some (name, m))
               /\ crypto_alloc_hash name = None)).
Proof.
  intros Hc Hr.
  destruct (create_session_failure _ _ _ _ Hc Hr) as [F1 F2].
  split; [exact F1|]. split; [exact F2|].
  revert Hc Hr. clear F1 F2. unfold crypto_create_session.
  destruct (match cipher sop with CIPHER_0 => _ | _ => _ end).
  { intros E. injection E as <-. intros _. split; [reflexivity | left; reflexivity]. }
  destruct (alg_name_of (cipher sop)) as [alg|].
  2:{ intros E. injection E as <-. intros _. split; [reflexivity | left; reflexivity]. }
  destruct (hash_name_of (mac sop)) as [hn|].
  2:{ intros E. injection E as <-. intros _. split; [reflexivity | left; reflexivity]. }
  destruct (setup_cipher fcr sop alg) as [[b t1]|r1] eqn:Ec.
  2:{ intros E. injection E as <-. intros _.
      apply setup_cipher_inr in Ec.
      destruct Ec as (_ & _ & _ & B & A & F). split; [congruence | left; exact B]. }
  apply setup_cipher_inl in Ec. destruct Ec as (A1 & A2 & A3 & A4).
  destruct (setup_hash fcr sop b hn t1) as [[h t2]|r2] eqn:Eh.
  2:{ intros E. injection E as <-. intros _.
      apply (setup_hash_inr _ _ _ _ _ _ A1 A2 A3 A4) in Eh.
      destruct Eh as (_ & _ & _ & Bh & [Bb | (L1 & L2 & name & m & -> & L3)]).
      - split; [exact Bh | left; exact Bb].
      - split; [exact Bh|]. right. split; [exact L1|]. split; [exact L2|].
        exists name, m. split; [reflexivity | exact L3]. }
  apply (setup_hash_inl _ _ _ _ _ _ _ A1 A2 A3 A4) in Eh.
  destruct Eh as (B1 & B2 & B3 & B4).
  destruct (negb (kmalloc_ok env)).
  { intros E. injection E as <-. intros _. simpl.
    rewrite !count_app, B1, B2, B3, B4.
    destruct b, h; split; try reflexivity; left; reflexivity. }
  destruct (random env) as [|r0 more]; [discriminate|].
  destruct (restart fcr r0 more _) as [[s t4]|]; [|discriminate].
  intros E. injection E as <-. simpl. intros E0. contradiction E0. reflexivity.
Qed.

(** C1: for a session id that no session of the table carries, the lookup
    ends on the pointer computed from the list head, which is not NULL; so
    [crypto_runv] never takes its [-EINVAL] exit for such an id.  When
    [__get_free_page] gives a page, the call goes on to read the transforms
    through that pointer, past the end of the table.  When the page is
    refused, the call returns [-ENOMEM], having released the semaphore of
    the table a second time (through the pointer, in place of the semaphore
    of a session); table and outputs are as they were. *)
Theorem crypto_runv_unknown_session (env : run_env) (fcr : fcrypt)
    (copv : crypt_opv) :
  valid_op (op copv) = true ->
  ~ In (ses copv) (sids fcr) ->
  fst (crypto_get_session_by_sid fcr (ses copv)) = head_container
  /\ is_null (fst (crypto_get_session_by_sid fcr (ses copv))) = false
  /\ rv_outcome (crypto_runv env fcr copv) <> returned (- EINVAL)%Z
  /\ (page_ok env = true ->
      rv_outcome (crypto_runv env fcr copv) = wild_pointer
      /\ rv_trace (crypto_runv env fcr copv)
         = [Ev_down_fcr; Ev_up_fcr; Ev_get_free_page])
  /\ (page_ok env = false ->
      crypto_runv env fcr copv
      = mk_runv_result (returned (- ENOMEM)%Z) fcr [] None
          [Ev_down_fcr; Ev_up_fcr; Ev_up_fcr]).
Proof.
  intros Hop Habs.
  pose proof (cursor_absent fcr (ses copv) 0 Habs) as Hc.
  unfold crypto_runv, crypto_get_session_by_sid. rewrite Hc. simpl.
  split; [reflexivity|]. split; [reflexivity|].
  destruct (op copv); try discriminate Hop;
    (destruct (page_ok env);
     (split; [discriminate|]);
     (split; [intros E; try discriminate E; split; reflexivity|]);
     intros E; try discriminate E; reflexivity).
Qed.

(** C2: for an id that no session of the table carries,
    [crypto_finish_session] leaves the table as it is and returns 0, not
    [-ENOENT]: its cursor is never NULL. *)
Theorem crypto_finish_session_unknown_sid (fcr : fcrypt) (s : Z) :
  ~ In s (sids fcr) ->
  crypto_finish_session fcr s = (0%Z, fcr, [Ev_down_fcr; Ev_up_fcr]).
Proof.
  intros Habs. unfold crypto_finish_session.
  rewrite (cursor_absent fcr s 0 Habs). reflexivity.
Qed.

(** For an id that a session carries, the first such session is unlinked
    and destroyed and 0 is returned. *)
Lemma crypto_finish_session_known_sid (fcr : fcrypt) (s : Z) :
  In s (sids fcr) ->
  exists i e,
    nth_error fcr i = Some e /\ sid e = s
    /\ ~ In s (sids (firstn i fcr))
    /\ crypto_finish_session fcr s
       = (0%Z, list_del fcr i,
          [Ev_down_fcr] ++ ([Ev_list_del s] ++ crypto_destroy_session e)
          ++ [Ev_up_fcr])
    /\ (NoDup (sids fcr) -> ~ In s (sids (list_del fcr i))).
Proof.
  intros Hin.
  destruct (cursor_present fcr s 0 Hin) as (j & e & Hc & Hn & Hs & Hf).
  exists j, e. split; [exact Hn|]. split; [exact Hs|]. split; [exact Hf|].
  split.
  - unfold crypto_finish_session. rewrite Hc. simpl Nat.add.
    rewrite Hn. rewrite Hs. reflexivity.
  - intros Hnd. rewrite <- Hs. apply list_del_removes; assumption.
Qed.

Lemma crypto_finish_session_NoDup (fcr : fcrypt) (s : Z) :
  NoDup (sids fcr) -> NoDup (sids (snd (fst (crypto_finish_session fcr s)))).
Proof.
  intros Hnd. unfold crypto_finish_session.
  destruct (list_for_each_entry_sid fcr s 0) as [|i|]; simpl; try exact Hnd.
  destruct (nth_error fcr i); simpl; [apply list_del_NoDup|]; exact Hnd.
Qed.

Lemma crypto_create_session_NoDup (env : create_env) (fcr : fcrypt)
    (sop : session_op) (r : create_result blkcipher hash_t) :
  NoDup (sids fcr) -> crypto_create_session env fcr sop = Some r ->
  NoDup (sids (cr_fcr r)).
Proof.
  intros Hnd Hc. destruct (Z.eq_dec (cr_ret r) 0) as [E|E].
  - destruct (create_session_success _ _ _ _ Hc E)
      as (s & e & _ & Hf & Hs & Hfresh & _).
    rewrite Hf. simpl. rewrite Hs. constructor; assumption.
  - destruct (create_session_failure _ _ _ _ Hc E) as [-> _]. exact Hnd.
Qed.

End TableProperties.

(** *** The table properties on the concrete kernel *)

Lemma toy_sid_99_unknown : ~ In 99%Z (sids Toy.table).
Proof. simpl. intros [E|[E|[E|[]]]]; discriminate E. Qed.

Lemma crypto_runv_unknown_session_witness :
  valid_op (op Toy.copv_unknown) = true
  /\ ~ In (ses Toy.copv_unknown) (sids Toy.table)
  /\ rv_outcome (crypto_runv Toy.env_ok Toy.table Toy.copv_unknown)
     = wild_pointer
  /\ rv_trace (crypto_runv Toy.env_ok Toy.table Toy.copv_unknown)
     = [Ev_down_fcr; Ev_up_fcr; Ev_get_free_page]
  /\ crypto_runv (mk_run_env false true) Toy.table Toy.copv_unknown
     = mk_runv_result (returned (- ENOMEM)%Z) Toy.table [] None
         [Ev_down_fcr; Ev_up_fcr; Ev_up_fcr].
Proof.
  split; [reflexivity|]. split; [exact toy_sid_99_unknown|].
  destruct (crypto_runv_unknown_session Toy.env_ok Toy.table Toy.copv_unknown
              eq_refl toy_sid_99_unknown) as (_ & _ & _ & A & _).
  destruct (A eq_refl) as [A1 A2].
  split; [exact A1|]. split; [exact A2|].
  exact (proj2 (proj2 (proj2 (proj2
           (crypto_runv_unknown_session (mk_run_env false true) Toy.table
              Toy.copv_unknown eq_refl toy_sid_99_unknown)))) eq_refl).
Defined.

Lemma crypto_finish_session_unknown_sid_witness :
  ~ In 99%Z (sids Toy.table)
  /\ crypto_finish_session Toy.table 99
     = (0%Z, Toy.table, [Ev_down_fcr; Ev_up_fcr]).
Proof.
  split; [exact toy_sid_99_unknown|].
  exact (crypto_finish_session_unknown_sid Toy.table 99 toy_sid_99_unknown).
Defined.

(** The failed call of C3: the cipher handle is allocated, the hash
    allocation fails, and the function returns without releasing it. *)
Lemma create_session_error_paths_witness :
  exists r,
    crypto_create_session Toy.cenv Toy.table Toy.sop_aes_rmd160 = Some r
    /\ cr_ret r = (- EINVAL)%Z
    /\ cr_trace r = [Ev_alloc_blkcipher "cbc(aes)"]
    /\ cr_fcr r = Toy.table /\ cr_ses r = None
    /\ count is_alloc_hash (cr_trace r) = count is_free_hash (cr_trace r)
    /\ (count is_alloc_blkcipher (cr_trace r)
        = count is_free_blkcipher (cr_trace r)
        \/ (count is_alloc_blkcipher (cr_trace r) = 1
            /\ count is_free_blkcipher (cr_trace r) = 0
            /\ exists name m,
                 hash_name_of (mac Toy.sop_aes_rmd160) = Some (Some (name, m))
                 /\ crypto_alloc_hash name = None)).
Proof.
  eexists. split; [vm_compute; reflexivity|].
  split; [reflexivity|]. split; [reflexivity|].
  refine (create_session_error_paths Toy.cenv Toy.table Toy.sop_aes_rmd160 _
            eq_refl _).
  vm_compute. discriminate.
Defined.

(** * Properties of the execution engine *)

Section RunProperties.

Context {H : cryptodev_h}.
Context {blkcipher hash_t : Type} {API : CryptoAPI blkcipher hash_t}.

#[local] Abbreviation csession := (csession blkcipher hash_t).
#[local] Abbreviation fcrypt := (fcrypt blkcipher hash_t).
#[local] Abbreviation run_st := (run_st blkcipher hash_t).

(** *** Projections of a trace *)

Lemma hash_inputs_app (t1 t2 : trace) :
  hash_inputs (t1 ++ t2) = hash_inputs t1 ++ hash_inputs t2.
Proof.
  induction t1 as [|e t1 IH]; [reflexivity|].
  destruct e; simpl; rewrite IH; reflexivity.
Qed.

Lemma from_user_app (t1 t2 : trace) :
  from_user (t1 ++ t2) = from_user t1 ++ from_user t2.
Proof.
  induction t1 as [|e t1 IH]; [reflexivity|].
  destruct e; simpl; rewrite IH; reflexivity.
Qed.

Lemma to_dst_app (t1 t2 : trace) :
  to_dst (t1 ++ t2) = to_dst t1 ++ to_dst t2.
Proof.
  induction t1 as [|e t1 IH]; [reflexivity|].
  destruct e; simpl; rewrite IH; reflexivity.
Qed.

Lemma absorb_snoc (h : hash_t) (chunks : list (list byte)) (c : list byte) :
  absorb h (chunks ++ [c]) = snd (crypto_hash_update (absorb h chunks) c).
Proof. unfold absorb. rewrite fold_left_app. reflexivity. Qed.

(** *** The [while] loop, unfolded once *)

Lemma while_nbytes_cons (o : cop) (fl : Z) (bufsize : nat) (Hb : 0 < bufsize)
    (b : byte) (bs : list byte) (st : run_st) :
  while_nbytes o fl bufsize Hb (b :: bs) st
  = let n := current_len_of bufsize (List.length (b :: bs)) in
    let r := chunk_body o fl (firstn n (b :: bs)) st in
    if negb (Z.eqb (fst r) 0) then r
    else while_nbytes o fl bufsize Hb (skipn n (b :: bs)) (snd r).
Proof.
  rewrite while_nbytes_equation_2. cbv zeta.
  destruct (chunk_body o fl _ st) as [ret st1]. simpl.
  destruct (negb (Z.eqb ret 0)); reflexivity.
Qed.


(** A property that every turn of the loop keeps is kept by the loop. *)
Lemma while_nbytes_inv (P : run_st -> Prop) (o : cop) (fl : Z) :
  (forall chunk st, P st -> P (snd (chunk_body o fl chunk st))) ->
  forall bufsize Hb rest st,
    P st -> P (snd (while_nbytes o fl bufsize Hb rest st)).
Proof.
  intros Hstep bufsize Hb rest.
  remember (List.length rest) as n eqn:Hn. revert rest Hn.
  induction n as [n IH] using lt_wf_ind. intros rest Hn st HP.
  destruct rest as [|b bs]; [rewrite while_nbytes_equation_1; exact HP|].
  rewrite while_nbytes_cons. cbv zeta.
  pose proof (Hstep (firstn (current_len_of bufsize (List.length (b :: bs)))
                       (b :: bs)) st HP) as HP1.
  destruct (chunk_body o fl _ st) as [ret st1]. simpl in *.
  destruct (negb (Z.eqb ret 0)); [exact HP1|].
  apply (IH (List.length (skipn (current_len_of bufsize (S (List.length bs)))
                            (b :: bs)))); [|reflexivity | exact HP1].
  subst n. rewrite length_skipn. unfold current_len_of.
  destruct (bufsize <? _); simpl List.length; lia.
Qed.

(** A nonzero [ret] is what ends the loop early; 0 is what it ends on
    otherwise. *)
Lemma run_segment_inv (P : run_st -> Prop) (o : cop) (v : crypt_iovec) :
  (forall chunk st, P st -> P (snd (chunk_body o (op_flags v) chunk st))) ->
  forall st, P st -> P (snd (run_segment o v st)).
Proof.
  intros Hstep st HP. unfold run_segment.
  destruct (lt_dec 0 (len v)); [|exact HP].
  apply while_nbytes_inv; assumption.
Qed.

(** The same for the [for] loop, for segments that all satisfy [Q]. *)
Lemma for_iovec_inv (P : run_st -> Prop) (Q : crypt_iovec -> Prop)
    (env : run_env) (o : cop) (blocksize : nat) :
  (forall v chunk st,
     Q v -> P st -> P (snd (chunk_body o (op_flags v) chunk st))) ->
  (forall v st, P st -> P (update_stats env o v st)) ->
  forall vs st,
    Forall Q vs -> P st -> P (snd (for_iovec env o blocksize vs st)).
Proof.
  intros Hstep Hstat vs. induction vs as [|v vs IH]; intros st HQ HP.
  - exact HP.
  - inversion HQ as [|v0 vs0 Hv Hvs]; subst. simpl.
    destruct (misaligned blocksize v st); [exact HP|].
    pose proof (run_segment_inv P o v (fun c s => Hstep v c s Hv) st HP) as H1.
    destruct (run_segment o v st) as [ret st1]. simpl in H1.
    destruct (negb (Z.eqb ret 0)); [exact H1|].
    apply IH; [exact Hvs | apply Hstat; exact H1].
Qed.

(** *** One turn of the loop *)


Lemma hash_step_inv (fl : Z) (P : run_st -> Prop) (d : list byte)
    (st : run_st) :
  (forall st h d,
     hash_tfm (cur st) = Some h -> has_flag fl IOP_HASH = true -> P st ->
     P (emit (Ev_hash_update d)
          (set_hash_tfm (snd (crypto_hash_update h d)) st))) ->
  P st -> P (snd (hash_step fl d st)).
Proof.
  intros HC HP. unfold hash_step.
  destruct (hash_tfm (cur st)) as [h|] eqn:Eh; [|exact HP].
  destruct (has_flag fl IOP_HASH) eqn:Ef; [|exact HP].
  pose proof (HC st h d Eh eq_refl HP) as Hn.
  destruct (crypto_hash_update h d) as [ret h']. exact Hn.
Qed.

Lemma cipher_step_inv (fl : Z) (P : run_st -> Prop) (o : cop) (d : list byte)
    (st : run_st) :
  (forall st c c' d,
     tfm (cur st) = Some c -> has_flag fl IOP_CIPHER = true -> P st ->
     P (emit (Ev_encrypt d) (set_tfm c' st))
     /\ P (emit (Ev_decrypt d) (set_tfm c' st))) ->
  (forall st d, P st -> P (copy_to_dst d st)) ->
  P st -> P (snd (cipher_step o fl d st)).
Proof.
  intros HC HO HP. unfold cipher_step.
  destruct (tfm (cur st)) as [c|] eqn:Ec; [|exact HP].
  destruct (has_flag fl IOP_CIPHER) eqn:Ef; [|exact HP].
  assert (Hn : forall c', P (emit (match o with
                                  | COP_ENCRYPT => Ev_encrypt d
                                  | _ => Ev_decrypt d
                                  end) (set_tfm c' st))).
  { intros c'. destruct (HC st c c' d Ec eq_refl HP) as [A B].
    destruct o; assumption. }
  destruct (match o with
            | COP_ENCRYPT => crypto_blkcipher_encrypt c d
            | _ => crypto_blkcipher_decrypt c d
            end) as [[ret c'] d'].
  destruct (negb (Z.eqb ret 0)); simpl; [apply Hn|].
  apply HO. apply Hn.
Qed.

(** A property that holds once the chunk is in the staging page and that
    the hash update, the cipher call and the copy to [dst] keep, holds
    after the turn. *)
Lemma chunk_body_tail_inv (fl : Z) (P : run_st -> Prop) (o : cop)
    (chunk : list byte) (st : run_st) :
  (forall st h d,
     hash_tfm (cur st) = Some h -> has_flag fl IOP_HASH = true -> P st ->
     P (emit (Ev_hash_update d)
          (set_hash_tfm (snd (crypto_hash_update h d)) st))) ->
  (forall st c c' d,
     tfm (cur st) = Some c -> has_flag fl IOP_CIPHER = true -> P st ->
     P (emit (Ev_encrypt d) (set_tfm c' st))
     /\ P (emit (Ev_decrypt d) (set_tfm c' st))) ->
  (forall st d, P st -> P (copy_to_dst d st)) ->
  P (emit (Ev_copy_from_user chunk) st) ->
  P (snd (chunk_body o fl chunk st)).
Proof.
  intros HH HC HO H0. unfold chunk_body.
  set (st0 := emit (Ev_copy_from_user chunk) st) in *.
  destruct o.
  - pose proof (hash_step_inv fl P chunk st0 HH H0) as H1.
    destruct (hash_step fl chunk st0) as [ret st1]. simpl in H1.
    destruct (negb (Z.eqb ret 0)); [exact H1|].
    pose proof (cipher_step_inv fl P COP_ENCRYPT chunk st1 HC HO H1) as H2.
    destruct (cipher_step COP_ENCRYPT fl chunk st1) as [[ret2 d2] st2].
    exact H2.
  - pose proof (cipher_step_inv fl P COP_DECRYPT chunk st0 HC HO H0) as H1.
    destruct (cipher_step COP_DECRYPT fl chunk st0) as [[ret d1] st1].
    simpl in H1. destruct (negb (Z.eqb ret 0)); [exact H1|].
    apply hash_step_inv; assumption.
  - pose proof (cipher_step_inv fl P (COP_other code) chunk st0 HC HO H0)
      as H1.
    destruct (cipher_step (COP_other code) fl chunk st0) as [[ret d1] st1].
    simpl in H1. destruct (negb (Z.eqb ret 0)); [exact H1|].
    apply hash_step_inv; assumption.
Qed.

Lemma chunk_body_inv (fl : Z) (P : run_st -> Prop) (o : cop)
    (chunk : list byte) (st : run_st) :
  turn_closed fl P -> P st -> P (snd (chunk_body o fl chunk st)).
Proof.
  intros HC HP. apply chunk_body_tail_inv.
  - exact (closed_hash _ _ HC).
  - exact (closed_cipher _ _ HC).
  - exact (closed_copy_out _ _ HC).
  - exact (closed_copy_in _ _ HC st chunk HP).
Qed.

(** Every turn reads its chunk from the source, once. *)
Lemma chunk_body_from_user (o : cop) (fl : Z) (chunk : list byte)
    (st : run_st) :
  from_user (log (snd (chunk_body o fl chunk st)))
  = from_user (log st) ++ [chunk].
Proof.
  apply (chunk_body_tail_inv fl
           (fun st' => from_user (log st') = from_user (log st) ++ [chunk]));
    simpl.
  - intros st' h d _ _ E. rewrite from_user_app. simpl.
    rewrite app_nil_r. exact E.
  - intros st' c c' d _ _ E. rewrite !from_user_app. simpl.
    rewrite !app_nil_r. auto.
  - intros st' d E. rewrite from_user_app. simpl. rewrite app_nil_r. exact E.
  - rewrite from_user_app. reflexivity.
Qed.

(** *** The steps when their transform is there and their flag is set *)








Lemma update_stats_frame (env : run_env) (o : cop) (v : crypt_iovec)
    (st : run_st) :
  log (update_stats env o v st) = log st
  /\ dst (update_stats env o v st) = dst st
  /\ tfm (cur (update_stats env o v st)) = tfm (cur st)
  /\ hash_tfm (cur (update_stats env o v st)) = hash_tfm (cur st).
Proof.
  unfold update_stats. destruct (enable_stats env); simpl; auto.
Qed.

(** *** The loops on the path on which nothing fails *)







Lemma chunk_body_shape (s : csession) (o : cop) (fl : Z) (chunk : list byte)
    (st : run_st) :
  same_shape s (cur st) ->
  same_shape s (cur (snd (chunk_body o fl chunk st))).
Proof.
  apply (chunk_body_inv fl (fun st' => same_shape s (cur st'))).
  constructor; unfold same_shape; simpl.
  - auto.
  - intros st' h d Eh _. rewrite Eh. auto.
  - intros st' c c' d Ec _. rewrite Ec. auto.
  - auto.
Qed.

Lemma update_stats_shape (s : csession) (env : run_env) (o : cop)
    (v : crypt_iovec) (st : run_st) :
  same_shape s (cur st) -> same_shape s (cur (update_stats env o v st)).
Proof.
  unfold update_stats. destruct (enable_stats env); [|auto].
  unfold same_shape. simpl. auto.
Qed.

(** The [for] loop keeps what every turn on its segments keeps and the
    statistics block does not touch. *)
Lemma for_iovec_closed (P : run_st -> Prop) (Q : crypt_iovec -> Prop)
    (env : run_env) (o : cop) (blocksize : nat) :
  (forall v, Q v -> turn_closed (op_flags v) P) ->
  (forall v st, P st -> P (update_stats env o v st)) ->
  forall vs st,
    Forall Q vs -> P st -> P (snd (for_iovec env o blocksize vs st)).
Proof.
  intros HC Hstat. apply for_iovec_inv; [|exact Hstat].
  intros v chunk st Hv HP. apply chunk_body_inv; [apply HC; exact Hv | exact HP].
Qed.

Lemma Forall_True (vs : list crypt_iovec) : Forall (fun _ => True) vs.
Proof. apply Forall_forall. intros; exact I. Qed.

Lemma for_iovec_shape (s : csession) (env : run_env) (o : cop)
    (blocksize : nat) (vs : list crypt_iovec) (st : run_st) :
  same_shape s (cur st) ->
  same_shape s (cur (snd (for_iovec env o blocksize vs st))).
Proof.
  intros Hs.
  apply (for_iovec_inv (fun st' => same_shape s (cur st')) (fun _ => True)).
  - intros v chunk st' _. apply chunk_body_shape.
  - intros v st'. apply update_stats_shape.
  - apply Forall_True.
  - exact Hs.
Qed.

Lemma count_snoc (p : event -> bool) (t : trace) (e : event) :
  count p (t ++ [e]) = count p t + (if p e then 1 else 0).
Proof. rewrite count_app. unfold count. simpl. destruct (p e); reflexivity. Qed.

Lemma quiet_closed (p : event -> bool) (fl : Z) (n : nat) :
  quiet p -> turn_closed fl (fun st => count p (log st) = n).
Proof.
  intros Hq. constructor; simpl; intros.
  - rewrite count_snoc, Hq by reflexivity. lia.
  - rewrite count_snoc, Hq by reflexivity. lia.
  - rewrite !count_snoc, !Hq by reflexivity. lia.
  - rewrite count_snoc, Hq by reflexivity. lia.
Qed.

Lemma for_iovec_quiet (p : event -> bool) (env : run_env) (o : cop)
    (blocksize : nat) (vs : list crypt_iovec) (st : run_st) :
  quiet p ->
  count p (log (snd (for_iovec env o blocksize vs st))) = count p (log st).
Proof.
  intros Hq.
  apply (for_iovec_closed (fun st' => count p (log st') = count p (log st))
           (fun _ => True)).
  - intros v _. apply quiet_closed. exact Hq.
  - intros v st' E. destruct (update_stats_frame env o v st') as [-> _]. exact E.
  - apply Forall_True.
  - reflexivity.
Qed.

(** The hash transform always holds what [crypto_hash_update] made of the
    chunks recorded in the trace. *)
Lemma absorbs_closed (h0 : hash_t) (fl : Z) :
  turn_closed fl
    (fun st => hash_tfm (cur st) = Some (absorb h0 (hash_inputs (log st)))).
Proof.
  constructor; simpl.
  - intros st d E. rewrite hash_inputs_app. simpl. rewrite app_nil_r. exact E.
  - intros st h d Eh _ E. rewrite hash_inputs_app. simpl.
    rewrite absorb_snoc. rewrite Eh in E. injection E as ->. reflexivity.
  - intros st c c' d _ _ E. rewrite !hash_inputs_app. simpl.
    rewrite !app_nil_r. auto.
  - intros st d E. rewrite hash_inputs_app. simpl. rewrite app_nil_r. exact E.
Qed.

Lemma for_iovec_absorbs (h0 : hash_t) (env : run_env) (o : cop)
    (blocksize : nat) (vs : list crypt_iovec) (st : run_st) :
  hash_tfm (cur st) = Some (absorb h0 (hash_inputs (log st))) ->
  hash_tfm (cur (snd (for_iovec env o blocksize vs st)))
  = Some (absorb h0 (hash_inputs (log (snd (for_iovec env o blocksize vs st))))).
Proof.
  intros Hh.
  apply (for_iovec_closed
           (fun st' => hash_tfm (cur st')
                       = Some (absorb h0 (hash_inputs (log st'))))
           (fun _ => True)).
  - intros v _. apply absorbs_closed.
  - intros v st' E.
    destruct (update_stats_frame env o v st') as (-> & _ & _ & ->). exact E.
  - apply Forall_True.
  - exact Hh.
Qed.



(** Segments without the hash flag leave the hash transform and the list
    of hashed chunks as they are. *)
Lemma no_hash_closed (fl : Z) (h : option hash_t) (l : list (list byte)) :
  has_flag fl IOP_HASH = false ->
  turn_closed fl
    (fun st : run_st => hash_tfm (cur st) = h /\ hash_inputs (log st) = l).
Proof.
  intros Hf. constructor; simpl.
  - intros st d E. rewrite hash_inputs_app. simpl. rewrite app_nil_r. exact E.
  - intros st h0 d _ Hf'. congruence.
  - intros st c c' d _ _ E. rewrite !hash_inputs_app. simpl.
    rewrite !app_nil_r. auto.
  - intros st d E. rewrite hash_inputs_app. simpl. rewrite app_nil_r. exact E.
Qed.

Lemma for_iovec_no_hash (env : run_env) (o : cop) (blocksize : nat)
    (vs : list crypt_iovec) (st : run_st) :
  Forall (fun v => has_flag (op_flags v) IOP_HASH = false) vs ->
  hash_tfm (cur (snd (for_iovec env o blocksize vs st))) = hash_tfm (cur st)
  /\ hash_inputs (log (snd (for_iovec env o blocksize vs st)))
     = hash_inputs (log st).
Proof.
  intros Hvs.
  apply (for_iovec_closed
           (fun st' => hash_tfm (cur st') = hash_tfm (cur st)
                       /\ hash_inputs (log st') = hash_inputs (log st))
           (fun v => has_flag (op_flags v) IOP_HASH = false)).
  - intros v Hv. apply no_hash_closed. exact Hv.
  - intros v st' E.
    destruct (update_stats_frame env o v st') as (-> & _ & _ & ->). exact E.
  - exact Hvs.
  - split; reflexivity.
Qed.

(** *** The call on a session that the lookup found *)

Lemma cursor_entry (l : fcrypt) (x : Z) (k i : nat) :
  list_for_each_entry_sid l x k = entry_at i ->
  exists j e, i = k + j /\ nth_error l j = Some e /\ sid e = x.
Proof.
  revert k. induction l as [|e l IH]; intros k; simpl; [discriminate|].
  destruct (Z.eqb_spec (sid e) x) as [E|E].
  - intros Ei. injection Ei as <-. exists 0, e. rewrite Nat.add_0_r. auto.
  - intros Ei. destruct (IH (S k) Ei) as (j & e' & -> & Hn & Hs).
    exists (S j), e'. split; [lia | auto].
Qed.

Lemma session_of_cursor (fcr : fcrypt) (x : Z) (i : nat) (s : csession) :
  session_of fcr x = Some (i, s) ->
  list_for_each_entry_sid fcr x 0 = entry_at i
  /\ nth_error fcr i = Some s /\ sid s = x.
Proof.
  unfold session_of.
  destruct (list_for_each_entry_sid fcr x 0) as [|j|] eqn:Ec; try discriminate.
  destruct (nth_error fcr j) as [e|] eqn:En; [|discriminate].
  intros E. injection E as <- <-. repeat split; [exact En|].
  destruct (cursor_entry fcr x 0 j Ec) as (j' & e' & Hj & Hn & Hs).
  simpl in Hj. subst j'. congruence.
Qed.

Lemma crypto_runv_found (env : run_env) (fcr : fcrypt) (copv : crypt_opv)
    (i : nat) (s : csession) :
  valid_op (op copv) = true ->
  session_of fcr (ses copv) = Some (i, s) ->
  crypto_runv env fcr copv
  = let st' := runv_exit (fst (fst (fst (runv_body env copv s))))
                 (snd (fst (runv_body env copv s))) in
    mk_runv_result (returned (snd (fst (fst (runv_body env copv s)))))
      (store fcr i (cur st')) (dst st') (snd (runv_body env copv s))
      (lookup_trace (sid s) ++ log st').
Proof.
  intros Hop Hs. destruct (session_of_cursor _ _ _ _ Hs) as (Hc & Hn & _).
  unfold crypto_runv, crypto_get_session_by_sid. rewrite Hc. simpl deref.
  rewrite Hn. destruct (runv_body env copv s) as [[[l ret] st] m].
  destruct (op copv); try discriminate; reflexivity.
Qed.

Lemma runv_exit_spec (l : exit_label) (st : run_st) :
  cur (runv_exit l st) = cur st /\ dst (runv_exit l st) = dst st
  /\ log (runv_exit l st)
     = log st
       ++ (match l with goto_out_unlock => [] | _ => [Ev_free_page] end)
       ++ [Ev_up_ses (sid (cur st))].
Proof.
  unfold runv_exit, emit. destruct l; simpl; rewrite <- ?app_assoc; auto.
Qed.

(** A [for] loop ends by falling through with 0, by [goto out] with the
    nonzero result of a transform, or by [goto out_unlock] with
    [-EINVAL]. *)
Lemma for_iovec_ret (env : run_env) (o : cop) (blocksize : nat)
    (vs : list crypt_iovec) (st : run_st) :
  match for_iovec env o blocksize vs st with
  | (fall_through, ret, _) => ret = 0%Z
  | (goto_out, ret, _) => ret <> 0%Z
  | (goto_out_unlock, ret, _) => ret = (- EINVAL)%Z
  end.
Proof.
  revert st. induction vs as [|v vs IH]; intros st; simpl; [reflexivity|].
  destruct (misaligned blocksize v st); [reflexivity|].
  destruct (run_segment o v st) as [r st1].
  destruct (Z.eqb_spec r 0) as [->|Hr]; simpl; [apply IH | exact Hr].
Qed.

(** What [runv_init] hands to the [for] loop. *)
Lemma runv_init_inr (env : run_env) (copv : crypt_opv) (s : csession)
    (bs : nat) (st0 : run_st) :
  runv_init env copv s = inr (bs, st0) ->
  page_ok env = true
  /\ same_shape s (cur st0) /\ dst st0 = []
  /\ hash_inputs (log st0) = [] /\ from_user (log st0) = []
  /\ to_dst (log st0) = [] /\ transform_calls (log st0) = []
  /\ count is_get_free_page (log st0) = 1
  /\ count is_free_page (log st0) = 0
  /\ hash_tfm (cur st0)
     = option_map (fun h => snd (crypto_hash_init h)) (hash_tfm s)
  /\ match tfm s with
     | Some c =>
         bs = crypto_blkcipher_blocksize c
         /\ tfm (cur st0)
            = Some (match iv copv with
                    | Some ivbuf =>
                        crypto_blkcipher_set_iv c
                          (firstn (crypto_blkcipher_ivsize c) ivbuf)
                    | None => c
                    end)
         /\ filter is_set_iv (log st0)
            = match iv copv with
              | Some ivbuf =>
                  [Ev_set_iv (firstn (crypto_blkcipher_ivsize c) ivbuf)]
              | None => []
              end
     | None => tfm (cur st0) = None /\ filter is_set_iv (log st0) = []
     end.
Proof.
  unfold runv_init. destruct (page_ok env); simpl; [|discriminate].
  destruct (hash_tfm s) as [h|] eqn:Eh; simpl.
  - destruct (crypto_hash_init h) as [ret h'] eqn:Ei. simpl.
    destruct (negb (Z.eqb ret 0)); [discriminate|].
    destruct (tfm s) as [c|] eqn:Ec; [destruct (iv copv)|];
      intros E; injection E as <- <-; unfold same_shape; simpl;
      rewrite ?Eh, ?Ec; simpl; repeat split; reflexivity.
  - destruct (tfm s) as [c|] eqn:Ec; [destruct (iv copv)|];
      intros E; injection E as <- <-; unfold same_shape; simpl;
      rewrite ?Eh, ?Ec; simpl; repeat split; reflexivity.
Qed.

(** When [runv_init] jumps out, it is to [out_unlock], with an error. *)
Lemma runv_init_inl (env : run_env) (copv : crypt_opv) (s : csession)
    (l : exit_label) (ret : Z) (st : run_st) :
  runv_init env copv s = inl (l, ret, st) ->
  l = goto_out_unlock /\ ret <> 0%Z
  /\ count is_free_page (log st) = 0
  /\ count is_get_free_page (log st) = (if page_ok env then 1 else 0)
  /\ same_shape s (cur st)
  /\ tfm (cur st) = tfm s
  /\ filter is_set_iv (log st) = [].
Proof.
  unfold runv_init, same_shape. destruct (page_ok env); simpl.
  - destruct (hash_tfm s) as [h|] eqn:Eh; simpl.
    + destruct (crypto_hash_init h) as [r h']. simpl.
      destruct (Z.eqb_spec r 0) as [->|Hr]; simpl.
      * destruct (tfm s); discriminate.
      * intros E. injection E as <- <- <-. simpl. rewrite ?Eh.
        repeat split. exact Hr.
    + destruct (tfm s); discriminate.
  - intros E. injection E as <- <- <-. repeat split. discriminate.
Qed.

(** What [runv_final] adds. *)
Lemma runv_final_spec (st : run_st) :
  let st' := snd (fst (runv_final st)) in
  same_shape (cur st) (cur st')
  /\ tfm (cur st') = tfm (cur st)
  /\ dst st' = dst st
  /\ hash_inputs (log st') = hash_inputs (log st)
  /\ from_user (log st') = from_user (log st)
  /\ to_dst (log st') = to_dst (log st)
  /\ transform_calls (log st') = transform_calls (log st)
  /\ count is_get_free_page (log st') = count is_get_free_page (log st)
  /\ count is_free_page (log st') = count is_free_page (log st)
  /\ filter is_set_iv (log st') = filter is_set_iv (log st).
Proof.
  unfold runv_final, same_shape.
  destruct (hash_tfm (cur st)) as [h|] eqn:Eh.
  - destruct (crypto_hash_final h) as [[r h'] out].
    destruct (negb (Z.eqb r 0)); simpl;
      rewrite ?hash_inputs_app, ?from_user_app, ?to_dst_app, ?count_app;
      unfold transform_calls, count; rewrite ?filter_app; simpl;
      rewrite ?app_nil_r, ?Eh; repeat split; auto; lia.
  - simpl. rewrite Eh. repeat split; auto.
Qed.

Lemma runv_final_ret (st : run_st) :
  match runv_final st with
  | (fall_through, ret, _, _) => ret = 0%Z
  | (goto_out, ret, _, m) => ret <> 0%Z /\ m = None
  | (goto_out_unlock, _, _, _) => False
  end.
Proof.
  unfold runv_final. destruct (hash_tfm (cur st)) as [h|]; [|reflexivity].
  destruct (crypto_hash_final h) as [[r h'] out].
  destruct (Z.eqb_spec r 0) as [->|Hr]; simpl; auto.
Qed.

Lemma quiet_free_page : quiet is_free_page.
Proof. intros e. destruct e; simpl; congruence. Qed.

Lemma quiet_get_free_page : quiet is_get_free_page.
Proof. intros e. destruct e; simpl; congruence. Qed.

Lemma quiet_set_iv : quiet is_set_iv.
Proof. intros e. destruct e; simpl; congruence. Qed.

(** The page events of the body: with the page granted there is one
    [__get_free_page] and, before the labels, no [free_page]. *)
Lemma runv_body_pages (env : run_env) (copv : crypt_opv) (s : csession) :
  page_ok env = true ->
  count is_get_free_page (log (snd (fst (runv_body env copv s)))) = 1
  /\ count is_free_page (log (snd (fst (runv_body env copv s)))) = 0.
Proof.
  intros Hp. unfold runv_body.
  destruct (runv_init env copv s) as [[[l ret] st]|[bs st0]] eqn:Ei.
  - apply runv_init_inl in Ei. destruct Ei as (_ & _ & F & G & _).
    rewrite Hp in G. simpl. auto.
  - apply runv_init_inr in Ei.
    destruct Ei as (_ & _ & _ & _ & _ & _ & _ & G & F & _).
    unfold runv_rest.
    pose proof (for_iovec_quiet is_get_free_page env (op copv) bs (iovec copv)
                  st0 quiet_get_free_page) as Q1.
    pose proof (for_iovec_quiet is_free_page env (op copv) bs (iovec copv) st0
                  quiet_free_page) as Q2.
    destruct (for_iovec env (op copv) bs (iovec copv) st0) as [[l r] st1].
    simpl in Q1, Q2.
    destruct l; simpl; try (rewrite Q1, Q2; auto).
    destruct (runv_final_spec st1) as (_ & _ & _ & _ & _ & _ & _ & A & B & _).
    rewrite A, B, Q1, Q2. auto.
Qed.

(** C5: on a call that got its staging page, the trace holds one
    [__get_free_page]; it holds one [free_page] when the body is left
    through the label [out:] (success, or a failing transform call), and
    none when it is left through [out_unlock:], as it is when
    [crypto_hash_init] fails or a segment is misaligned. *)
Theorem staging_page_release (env : run_env) (fcr : fcrypt)
    (copv : crypt_opv) (i : nat) (s : csession) :
  valid_op (op copv) = true ->
  session_of fcr (ses copv) = Some (i, s) ->
  page_ok env = true ->
  count is_get_free_page (rv_trace (crypto_runv env fcr copv)) = 1
  /\ count is_free_page (rv_trace (crypto_runv env fcr copv))
     = match fst (fst (fst (runv_body env copv s))) with
       | goto_out_unlock => 0
       | _ => 1
       end.
Proof.
  intros Hop Hs Hp. rewrite (crypto_runv_found env fcr copv i s Hop Hs).
  cbv zeta. cbn [rv_trace].
  destruct (runv_body_pages env copv s Hp) as [G F].
  destruct (runv_exit_spec (fst (fst (fst (runv_body env copv s))))
              (snd (fst (runv_body env copv s)))) as (_ & _ & ->).
  rewrite !count_app, G, F.
  destruct (fst (fst (fst (runv_body env copv s)))); split; reflexivity.
Qed.

(** A failing [crypto_hash_init] leaves the body through [out_unlock:]. *)
Lemma hash_init_failure_label (env : run_env) (copv : crypt_opv)
    (s : csession) (h : hash_t) :
  page_ok env = true -> hash_tfm s = Some h ->
  fst (crypto_hash_init h) <> 0%Z ->
  fst (fst (runv_body env copv s))
  = (goto_out_unlock, fst (crypto_hash_init h)).
Proof.
  intros Hp Eh Hr. unfold runv_body, runv_init. rewrite Hp. simpl.
  rewrite Eh. destruct (crypto_hash_init h) as [r h']. simpl in *.
  destruct (Z.eqb_spec r 0) as [E|E]; [contradiction | reflexivity].
Qed.

(** *** Alignment *)

Lemma for_iovec_app (env : run_env) (o : cop) (blocksize : nat)
    (pre rest : list crypt_iovec) (st st_pre : run_st) (r : Z) :
  for_iovec env o blocksize pre st = (fall_through, r, st_pre) ->
  for_iovec env o blocksize (pre ++ rest) st
  = for_iovec env o blocksize rest st_pre.
Proof.
  revert st. induction pre as [|v pre IH]; intros st; simpl.
  - intros E. injection E as _ <-. reflexivity.
  - destruct (misaligned blocksize v st); [discriminate|].
    destruct (run_segment o v st) as [r1 st1].
    destruct (negb (Z.eqb r1 0)); [discriminate|]. apply IH.
Qed.

(** C7: a segment with the cipher flag whose length is no multiple of the
    block size of the session's cipher ends the call with [-EINVAL] in the
    state that the segments before it left: nothing of it is read, no
    transform is called on it, nothing is stored through [dst], the
    statistics are those of the earlier segments, and no later segment is
    looked at. *)
Theorem misaligned_segment_rejected (env : run_env) (fcr : fcrypt)
    (copv : crypt_opv) (i : nat) (s : csession) (c : blkcipher)
    (bs : nat) (st0 st_pre : run_st)
    (pre : list crypt_iovec) (v : crypt_iovec) (post : list crypt_iovec) :
  valid_op (op copv) = true ->
  session_of fcr (ses copv) = Some (i, s) ->
  tfm s = Some c ->
  runv_init env copv s = inr (bs, st0) ->
  iovec copv = pre ++ v :: post ->
  for_iovec env (op copv) bs pre st0 = (fall_through, 0%Z, st_pre) ->
  has_flag (op_flags v) IOP_CIPHER = true ->
  len v mod crypto_blkcipher_blocksize c <> 0 ->
  for_iovec env (op copv) bs (iovec copv) st0
  = (goto_out_unlock, (- EINVAL)%Z, st_pre)
  /\ crypto_runv env fcr copv
     = mk_runv_result (returned (- EINVAL)%Z) (store fcr i (cur st_pre))
         (dst st_pre) None
         (lookup_trace (sid s) ++ log st_pre ++ [Ev_up_ses (sid s)]).
Proof.
  intros Hop Hs Ec Ei Hv Hpre Hf Hm.
  pose proof (runv_init_inr _ _ _ _ _ Ei) as Hi.
  destruct Hi as (_ & Hsh & _ & _ & _ & _ & _ & _ & _ & _ & Hc).
  rewrite Ec in Hc. destruct Hc as (Hbs & _ & _).
  pose proof (for_iovec_shape s env (op copv) bs pre st0 Hsh) as Hsh'.
  rewrite Hpre in Hsh'. simpl in Hsh'. destruct Hsh' as (Hsid & Htf & _).
  assert (Hfor : for_iovec env (op copv) bs (iovec copv) st0
                 = (goto_out_unlock, (- EINVAL)%Z, st_pre)).
  { rewrite Hv, (for_iovec_app _ _ _ _ _ _ _ _ Hpre). simpl.
    unfold misaligned. rewrite Ec in Htf.
    destruct (tfm (cur st_pre)); [|discriminate Htf].
    rewrite Hf, Hbs. simpl.
    destruct (Nat.eqb_spec (len v mod crypto_blkcipher_blocksize c) 0);
      [contradiction | reflexivity]. }
  split; [exact Hfor|].
  rewrite (crypto_runv_found env fcr copv i s Hop Hs).
  unfold runv_body. rewrite Ei. unfold runv_rest. rewrite Hfor. simpl.
  unfold runv_exit, emit. simpl. rewrite Hsid. reflexivity.
Qed.

(** *** The state a call leaves *)

Lemma same_shape_trans (s1 s2 s3 : csession) :
  same_shape s1 s2 -> same_shape s2 s3 -> same_shape s1 s3.
Proof.
  unfold same_shape. intros (A & B & C) (A' & B' & C').
  repeat split; congruence.
Qed.

Lemma runv_body_shape (env : run_env) (copv : crypt_opv) (s : csession) :
  same_shape s (cur (snd (fst (runv_body env copv s)))).
Proof.
  unfold runv_body.
  destruct (runv_init env copv s) as [[[l ret] st]|[bs st0]] eqn:Ei.
  - apply runv_init_inl in Ei. simpl. tauto.
  - apply runv_init_inr in Ei. destruct Ei as (_ & Hsh & _).
    unfold runv_rest.
    pose proof (for_iovec_shape s env (op copv) bs (iovec copv) st0 Hsh) as H1.
    destruct (for_iovec env (op copv) bs (iovec copv) st0) as [[l r] st1].
    simpl in H1. destruct l; simpl; try exact H1.
    destruct (runv_final_spec st1) as (H2 & _).
    exact (same_shape_trans _ _ _ H1 H2).
Qed.

Lemma cursor_store (l : fcrypt) (x : Z) (k j : nat) (s s1 : csession) :
  nth_error l j = Some s -> sid s1 = sid s ->
  list_for_each_entry_sid (store l j s1) x k = list_for_each_entry_sid l x k.
Proof.
  revert k j. induction l as [|e l IH]; intros k [|j] Hn Hs; simpl in *;
    try discriminate.
  - injection Hn as ->. rewrite Hs. reflexivity.
  - rewrite (IH (S k) j Hn Hs). reflexivity.
Qed.

Lemma nth_error_store (l : fcrypt) (j : nat) (s s1 : csession) :
  nth_error l j = Some s -> nth_error (store l j s1) j = Some s1.
Proof.
  revert j. induction l as [|e l IH]; intros [|j] Hn; simpl in *;
    try discriminate; auto.
Qed.

Lemma store_sids (l : fcrypt) (j : nat) (s s1 : csession) :
  nth_error l j = Some s -> sid s1 = sid s -> sids (store l j s1) = sids l.
Proof.
  revert j. induction l as [|e l IH]; intros [|j] Hn Hs; simpl in *;
    try discriminate.
  - injection Hn as ->. rewrite Hs. reflexivity.
  - f_equal. exact (IH j Hn Hs).
Qed.

Lemma session_of_store (fcr : fcrypt) (x : Z) (i : nat) (s s1 : csession) :
  session_of fcr x = Some (i, s) -> sid s1 = sid s ->
  session_of (store fcr i s1) x = Some (i, s1).
Proof.
  intros Hs Hsid. destruct (session_of_cursor _ _ _ _ Hs) as (Hc & Hn & _).
  unfold session_of. rewrite (cursor_store fcr x 0 i s s1 Hn Hsid), Hc.
  rewrite (nth_error_store fcr i s s1 Hn). reflexivity.
Qed.

Lemma count_zero_filter (p : event -> bool) (t : trace) :
  count p t = 0 -> filter p t = [].
Proof. unfold count. destruct (filter p t); [reflexivity | discriminate]. Qed.

(** Without an IV in the request no call sets one. *)
Lemma runv_body_no_set_iv (env : run_env) (copv : crypt_opv) (s : csession) :
  iv copv = None ->
  filter is_set_iv (log (snd (fst (runv_body env copv s)))) = [].
Proof.
  intros Hiv. unfold runv_body.
  destruct (runv_init env copv s) as [[[l ret] st]|[bs st0]] eqn:Ei.
  - apply runv_init_inl in Ei. simpl. tauto.
  - apply runv_init_inr in Ei.
    destruct Ei as (_ & _ & _ & _ & _ & _ & _ & _ & _ & _ & Hc).
    assert (H0 : filter is_set_iv (log st0) = []).
    { destruct (tfm s); [rewrite Hiv in Hc|]; tauto. }
    unfold runv_rest.
    pose proof (for_iovec_quiet is_set_iv env (op copv) bs (iovec copv) st0
                  quiet_set_iv) as Q.
    destruct (for_iovec env (op copv) bs (iovec copv) st0) as [[l r] st1].
    simpl in Q. unfold count in Q. rewrite H0 in Q. simpl in Q.
    assert (H1 : filter is_set_iv (log st1) = [])
      by (apply count_zero_filter; exact Q).
    destruct l; simpl; try exact H1.
    destruct (runv_final_spec st1) as (_ & _ & _ & _ & _ & _ & _ & _ & _ & B).
    rewrite B. exact H1.
Qed.

(** Which calls get as far as their segments. *)
Lemma runv_init_reaches (env : run_env) (copv : crypt_opv) (s : csession) :
  (exists bs st0, runv_init env copv s = inr (bs, st0))
  <-> page_ok env = true
      /\ forall h, hash_tfm s = Some h -> fst (crypto_hash_init h) = 0%Z.
Proof.
  unfold runv_init. destruct (page_ok env); simpl.
  2:{ split; [intros (bs & st0 & E); discriminate E
             |intros [E _]; discriminate E]. }
  destruct (hash_tfm s) as [h|]; simpl.
  - destruct (crypto_hash_init h) as [r h'] eqn:Ei. simpl.
    destruct (Z.eqb_spec r 0) as [->|Hr]; simpl.
    + split.
      * intros _. split; [reflexivity|].
        intros h0 E. injection E as <-. rewrite Ei. reflexivity.
      * intros _. destruct (tfm s); eauto.
    + split; [intros (bs & st0 & E); discriminate E|].
      intros [_ E]. specialize (E h eq_refl). rewrite Ei in E.
      contradiction.
  - split.
    + intros _. split; [reflexivity | intros h E; discriminate E].
    + intros _. destruct (tfm s); eauto.
Qed.

(** C9: on a session with a cipher transform, the calls that get as far as
    their segments are those for which the staging page is granted and
    [crypto_hash_init] does not fail.  Such a call starts its segments with
    the cipher object primed by [crypto_blkcipher_set_iv] from the first
    [ivsize] bytes of the request's IV (exactly [ivsize] bytes, the buffer
    holding that many), or, without an IV, with the object as the session
    holds it, and then no call sets an IV at all.  A call that ends before
    its segments sets no IV, also when the request supplies one, and leaves
    the cipher object of the session as it was.  The session afterwards
    holds the cipher object as the call left it, and a later call without
    an IV starts its segments with that object. *)
Theorem cipher_iv_state (env : run_env) (fcr : fcrypt) (copv : crypt_opv)
    (i : nat) (s : csession) (c : blkcipher) :
  valid_op (op copv) = true ->
  session_of fcr (ses copv) = Some (i, s) ->
  tfm s = Some c ->
  ((exists bs st0, runv_init env copv s = inr (bs, st0))
   <-> page_ok env = true
       /\ forall h, hash_tfm s = Some h -> fst (crypto_hash_init h) = 0%Z)
  /\ (forall bs st0,
      runv_init env copv s = inr (bs, st0) ->
      runv_body env copv s = runv_rest env copv bs st0
      /\ tfm (cur st0)
         = Some (match iv copv with
                 | Some ivbuf =>
                     crypto_blkcipher_set_iv c
                       (firstn (crypto_blkcipher_ivsize c) ivbuf)
                 | None => c
                 end)
      /\ filter is_set_iv (log st0)
         = match iv copv with
           | Some ivbuf =>
               [Ev_set_iv (firstn (crypto_blkcipher_ivsize c) ivbuf)]
           | None => []
           end
      /\ (forall ivbuf,
            iv copv = Some ivbuf ->
            crypto_blkcipher_ivsize c <= List.length ivbuf ->
            exists ivp,
              List.length ivp = crypto_blkcipher_ivsize c
              /\ ivp = firstn (crypto_blkcipher_ivsize c) ivbuf
              /\ tfm (cur st0) = Some (crypto_blkcipher_set_iv c ivp)
              /\ filter is_set_iv (log st0) = [Ev_set_iv ivp])
      /\ from_user (log st0) = [] /\ transform_calls (log st0) = [])
  /\ (forall l ret st,
      runv_init env copv s = inl (l, ret, st) ->
      rv_outcome (crypto_runv env fcr copv) = returned ret
      /\ ret <> 0%Z
      /\ filter is_set_iv (rv_trace (crypto_runv env fcr copv)) = []
      /\ exists s1,
           session_of (rv_fcr (crypto_runv env fcr copv)) (ses copv)
           = Some (i, s1)
           /\ tfm s1 = Some c)
  /\ (iv copv = None ->
      filter is_set_iv (rv_trace (crypto_runv env fcr copv)) = [])
  /\ exists s1 c1,
       session_of (rv_fcr (crypto_runv env fcr copv)) (ses copv)
       = Some (i, s1)
       /\ s1 = cur (snd (fst (runv_body env copv s)))
       /\ tfm s1 = Some c1
       /\ forall env2 copv2 bs st0',
            iv copv2 = None ->
            runv_init env2 copv2 s1 = inr (bs, st0') ->
            tfm (cur st0') = Some c1.
Proof.
  intros Hop Hs Ec. split; [apply runv_init_reaches|].
  split; [|split; [|split]].
  - intros bs st0 Ei. split.
    + unfold runv_body. rewrite Ei. reflexivity.
    + apply runv_init_inr in Ei.
      destruct Ei as (_ & _ & _ & _ & Hfu & _ & Htc & _ & _ & _ & Hc).
      rewrite Ec in Hc. destruct Hc as (_ & Hc1 & Hc2).
      split; [exact Hc1|]. split; [exact Hc2|].
      split; [|split; assumption].
      intros ivbuf Eiv Hle. rewrite Eiv in Hc1, Hc2.
      exists (firstn (crypto_blkcipher_ivsize c) ivbuf).
      split; [apply firstn_length_le; exact Hle|].
      split; [reflexivity|]. split; assumption.
  - intros l ret st Ei.
    rewrite (crypto_runv_found env fcr copv i s Hop Hs). cbv zeta.
    cbn [rv_outcome rv_trace rv_fcr].
    unfold runv_body. rewrite Ei. cbn [fst snd].
    apply runv_init_inl in Ei.
    destruct Ei as (-> & Hret & _ & _ & (Hsid & _) & Htf & Hiv).
    split; [reflexivity|]. split; [exact Hret|].
    destruct (runv_exit_spec goto_out_unlock st) as (E1 & _ & E3).
    rewrite E3, E1. split.
    + rewrite !filter_app, Hiv. reflexivity.
    + exists (cur st). split; [|congruence].
      exact (session_of_store fcr (ses copv) i s (cur st) Hs Hsid).
  - intros Hiv. rewrite (crypto_runv_found env fcr copv i s Hop Hs).
    cbv zeta. cbn [rv_trace].
    destruct (runv_exit_spec (fst (fst (fst (runv_body env copv s))))
                (snd (fst (runv_body env copv s)))) as (_ & _ & ->).
    rewrite !filter_app, (runv_body_no_set_iv env copv s Hiv).
    destruct (fst (fst (fst (runv_body env copv s)))); reflexivity.
  - pose proof (runv_body_shape env copv s) as Hsh.
    set (s1 := cur (snd (fst (runv_body env copv s)))) in *.
    destruct Hsh as (Hsid & Htf & _). rewrite Ec in Htf.
    destruct (tfm s1) as [c1|] eqn:Ec1; [|discriminate Htf].
    exists s1, c1. split; [|split; [reflexivity|split; [exact Ec1|]]].
    + rewrite (crypto_runv_found env fcr copv i s Hop Hs).
      cbv zeta. cbn [rv_fcr].
      destruct (runv_exit_spec (fst (fst (fst (runv_body env copv s))))
                  (snd (fst (runv_body env copv s)))) as (-> & _).
      exact (session_of_store fcr (ses copv) i s s1 Hs Hsid).
    + intros env2 copv2 bs st0' Hiv Ei. apply runv_init_inr in Ei.
      destruct Ei as (_ & _ & _ & _ & _ & _ & _ & _ & _ & _ & Hc).
      rewrite Ec1, Hiv in Hc. tauto.
Qed.

(** *** Calls that return 0 *)

Lemma runv_final_mac (st : run_st) :
  fst (fst (fst (runv_final st))) = fall_through ->
  snd (runv_final st)
  = match hash_tfm (cur st) with
    | Some hN =>
        Some (let '(_, h', out) := crypto_hash_final hN in
              firstn (crypto_hash_digestsize h') out)
    | None => None
    end.
Proof.
  unfold runv_final. destruct (hash_tfm (cur st)) as [h|]; [|reflexivity].
  destruct (crypto_hash_final h) as [[r h'] out].
  destruct (negb (Z.eqb r 0)); simpl; [discriminate | reflexivity].
Qed.

(** A call that returns 0 went through [runv_init], fell through the [for]
    loop and through [crypto_hash_final]; its trace, as far as data is
    concerned, is the trace of the [for] loop. *)
Lemma crypto_runv_success (env : run_env) (fcr : fcrypt) (copv : crypt_opv)
    (i : nat) (s : csession) :
  valid_op (op copv) = true ->
  session_of fcr (ses copv) = Some (i, s) ->
  rv_outcome (crypto_runv env fcr copv) = returned 0%Z ->
  exists bs st0 stN,
    runv_init env copv s = inr (bs, st0)
    /\ for_iovec env (op copv) bs (iovec copv) st0 = (fall_through, 0%Z, stN)
    /\ rv_dst (crypto_runv env fcr copv) = dst stN
    /\ hash_inputs (rv_trace (crypto_runv env fcr copv))
       = hash_inputs (log stN)
    /\ from_user (rv_trace (crypto_runv env fcr copv)) = from_user (log stN)
    /\ to_dst (rv_trace (crypto_runv env fcr copv)) = to_dst (log stN)
    /\ transform_calls (rv_trace (crypto_runv env fcr copv))
       = transform_calls (log stN)
    /\ rv_mac (crypto_runv env fcr copv)
       = match hash_tfm (cur stN) with
         | Some hN =>
             Some (let '(_, h', out) := crypto_hash_final hN in
                   firstn (crypto_hash_digestsize h') out)
         | None => None
         end.
Proof.
  intros Hop Hs. rewrite (crypto_runv_found env fcr copv i s Hop Hs).
  cbv zeta. cbn [rv_outcome rv_dst rv_trace rv_mac].
  destruct (runv_exit_spec (fst (fst (fst (runv_body env copv s))))
              (snd (fst (runv_body env copv s)))) as (_ & -> & ->).
  unfold runv_body.
  destruct (runv_init env copv s) as [[[l ret] st]|[bs st0]] eqn:Ei.
  { apply runv_init_inl in Ei. destruct Ei as (_ & Hr & _). simpl.
    intros E. injection E as E. contradiction. }
  unfold runv_rest.
  pose proof (for_iovec_ret env (op copv) bs (iovec copv) st0) as Hret.
  destruct (for_iovec env (op copv) bs (iovec copv) st0) as [[l r] stN]
    eqn:Hfor.
  destruct l.
  - subst r.
    pose proof (runv_final_ret stN) as Hfr.
    pose proof (runv_final_mac stN) as Hfm.
    destruct (runv_final_spec stN)
      as (_ & _ & Hd & Hhi & Hfu & Htd & Htc & _).
    destruct (runv_final stN) as [[[l2 r2] stF] m]. simpl in *.
    intros E. injection E as ->.
    destruct l2; [|destruct Hfr as [Hfr _]; contradiction Hfr; reflexivity
                  |contradiction].
    exists bs, st0, stN. split; [reflexivity|]. split; [exact Hfor|].
    split; [exact Hd|].
    unfold transform_calls in *.
    rewrite !hash_inputs_app, !from_user_app, !to_dst_app, !filter_app.
    simpl. rewrite !app_nil_r.
    repeat split; auto.
  - simpl. intros E. injection E as E. contradiction.
  - simpl. intros E. injection E as E. rewrite E in Hret. discriminate Hret.
Qed.

(** The MAC of a call that returns 0: the digest, under the session's hash
    transform, of the chunks that were handed to [crypto_hash_update]. *)
Lemma crypto_runv_mac (env : run_env) (fcr : fcrypt) (copv : crypt_opv)
    (i : nat) (s : csession) (h : hash_t) :
  valid_op (op copv) = true ->
  session_of fcr (ses copv) = Some (i, s) ->
  hash_tfm s = Some h ->
  rv_outcome (crypto_runv env fcr copv) = returned 0%Z ->
  rv_mac (crypto_runv env fcr copv)
  = Some (digest_of h (hash_inputs (rv_trace (crypto_runv env fcr copv)))).
Proof.
  intros Hop Hs Eh Hr.
  destruct (crypto_runv_success env fcr copv i s Hop Hs Hr)
    as (bs & st0 & stN & Ei & Hfor & _ & Hhi & _ & _ & _ & Hm).
  apply runv_init_inr in Ei.
  destruct Ei as (_ & _ & _ & H0 & _ & _ & _ & _ & _ & Hh0 & _).
  rewrite Eh in Hh0. simpl in Hh0.
  pose proof (for_iovec_absorbs (snd (crypto_hash_init h)) env (op copv) bs
                (iovec copv) st0) as Ha.
  rewrite Hfor in Ha. simpl in Ha.
  rewrite Hm, Hhi, Ha; [reflexivity|].
  rewrite Hh0, H0. reflexivity.
Qed.

(** C10: on a session with a hash transform, a call that returns 0 and
    none of whose segments (if it has any) carries the hash flag hands no
    chunk to [crypto_hash_update] and stores through [copv->mac] the digest
    of the empty stream: the first [digestsize] bytes that
    [crypto_hash_final] gives on the freshly initialised transform. *)
Theorem mac_without_hash_segments (env : run_env) (fcr : fcrypt)
    (copv : crypt_opv) (i : nat) (s : csession) (h : hash_t) :
  valid_op (op copv) = true ->
  session_of fcr (ses copv) = Some (i, s) ->
  hash_tfm s = Some h ->
  Forall (fun v => has_flag (op_flags v) IOP_HASH = false) (iovec copv) ->
  rv_outcome (crypto_runv env fcr copv) = returned 0%Z ->
  hash_inputs (rv_trace (crypto_runv env fcr copv)) = []
  /\ rv_mac (crypto_runv env fcr copv) = Some (digest_of h [])
  /\ digest_of h []
     = firstn
         (crypto_hash_digestsize
            (snd (fst (crypto_hash_final (snd (crypto_hash_init h))))))
         (snd (crypto_hash_final (snd (crypto_hash_init h))))
  /\ (crypto_hash_digestsize
        (snd (fst (crypto_hash_final (snd (crypto_hash_init h)))))
      <= List.length (snd (crypto_hash_final (snd (crypto_hash_init h)))) ->
      List.length (digest_of h [])
      = crypto_hash_digestsize
          (snd (fst (crypto_hash_final (snd (crypto_hash_init h)))))).
Proof.
  intros Hop Hs Eh Hnh Hr.
  assert (Hin : hash_inputs (rv_trace (crypto_runv env fcr copv)) = []).
  { destruct (crypto_runv_success env fcr copv i s Hop Hs Hr)
      as (bs & st0 & stN & Ei & Hfor & _ & Hhi & _).
    apply runv_init_inr in Ei. destruct Ei as (_ & _ & _ & H0 & _).
    destruct (for_iovec_no_hash env (op copv) bs (iovec copv) st0 Hnh)
      as [_ Hl].
    rewrite Hfor in Hl. simpl in Hl. rewrite Hhi, Hl. exact H0. }
  assert (Hd : digest_of h []
               = firstn
                   (crypto_hash_digestsize
                      (snd (fst (crypto_hash_final
                                   (snd (crypto_hash_init h))))))
                   (snd (crypto_hash_final (snd (crypto_hash_init h))))).
  { unfold digest_of, absorb. simpl.
    destruct (crypto_hash_final (snd (crypto_hash_init h))) as [[r h'] out].
    reflexivity. }
  split; [exact Hin|]. split; [|split; [exact Hd|]].
  - rewrite (crypto_runv_mac env fcr copv i s h Hop Hs Eh Hr), Hin.
    reflexivity.
  - intros Hl. rewrite Hd. apply firstn_length_le. exact Hl.
Qed.

(** *** Cipher and hash on the same segments *)













(** *** Flags for a transform that the session does not have *)

Lemma same_effect_shape (s s' : csession) (fl fl' : Z) :
  same_shape s s' -> same_effect s fl fl' -> same_effect s' fl fl'.
Proof.
  unfold same_shape, same_effect. intros (_ & A & B) (C & D).
  rewrite A, B. auto.
Qed.

Lemma hash_step_same (fl fl' : Z) (d : list byte) (st : run_st) :
  same_effect (cur st) fl fl' -> hash_step fl d st = hash_step fl' d st.
Proof.
  intros (_ & Hh). unfold hash_step.
  destruct (hash_tfm (cur st)); [|reflexivity].
  rewrite (Hh eq_refl). reflexivity.
Qed.

Lemma cipher_step_same (o : cop) (fl fl' : Z) (d : list byte) (st : run_st) :
  same_effect (cur st) fl fl' ->
  cipher_step o fl d st = cipher_step o fl' d st.
Proof.
  intros (Hc & _). unfold cipher_step.
  destruct (tfm (cur st)); [|reflexivity].
  rewrite (Hc eq_refl). reflexivity.
Qed.

Lemma hash_step_shape (fl : Z) (d : list byte) (st : run_st) :
  same_shape (cur st) (cur (snd (hash_step fl d st))).
Proof.
  apply (hash_step_inv fl (fun st' => same_shape (cur st) (cur st'))).
  - unfold same_shape. simpl. intros st' h d' Eh _. rewrite Eh. auto.
  - unfold same_shape. auto.
Qed.

Lemma cipher_step_shape (o : cop) (fl : Z) (d : list byte) (st : run_st) :
  same_shape (cur st) (cur (snd (cipher_step o fl d st))).
Proof.
  apply (cipher_step_inv fl (fun st' => same_shape (cur st) (cur st'))).
  - unfold same_shape. simpl. intros st' c c' d' Ec _. rewrite Ec. auto.
  - unfold same_shape. simpl. auto.
  - unfold same_shape. auto.
Qed.

Lemma chunk_body_same (o : cop) (fl fl' : Z) (chunk : list byte)
    (st : run_st) :
  same_effect (cur st) fl fl' ->
  chunk_body o fl chunk st = chunk_body o fl' chunk st.
Proof.
  intros He. unfold chunk_body.
  set (st0 := emit (Ev_copy_from_user chunk) st).
  assert (He0 : same_effect (cur st0) fl fl') by exact He.
  destruct o.
  - rewrite (hash_step_same fl fl' chunk st0 He0).
    pose proof (hash_step_shape fl' chunk st0) as Hsh.
    destruct (hash_step fl' chunk st0) as [ret st1]. simpl in Hsh.
    destruct (negb (Z.eqb ret 0)); [reflexivity|].
    rewrite (cipher_step_same COP_ENCRYPT fl fl' chunk st1
               (same_effect_shape _ _ _ _ Hsh He0)).
    reflexivity.
  - rewrite (cipher_step_same COP_DECRYPT fl fl' chunk st0 He0).
    pose proof (cipher_step_shape COP_DECRYPT fl' chunk st0) as Hsh.
    destruct (cipher_step COP_DECRYPT fl' chunk st0) as [[ret d1] st1].
    simpl in Hsh. destruct (negb (Z.eqb ret 0)); [reflexivity|].
    exact (hash_step_same fl fl' d1 st1 (same_effect_shape _ _ _ _ Hsh He0)).
  - rewrite (cipher_step_same (COP_other code) fl fl' chunk st0 He0).
    pose proof (cipher_step_shape (COP_other code) fl' chunk st0) as Hsh.
    destruct (cipher_step (COP_other code) fl' chunk st0) as [[ret d1] st1].
    simpl in Hsh. destruct (negb (Z.eqb ret 0)); [reflexivity|].
    exact (hash_step_same fl fl' d1 st1 (same_effect_shape _ _ _ _ Hsh He0)).
Qed.

Lemma while_nbytes_same (o : cop) (fl fl' : Z) (bufsize : nat)
    (Hb : 0 < bufsize) (rest : list byte) (st : run_st) :
  same_effect (cur st) fl fl' ->
  while_nbytes o fl bufsize Hb rest st = while_nbytes o fl' bufsize Hb rest st.
Proof.
  remember (List.length rest) as n eqn:Hn. revert rest Hn st.
  induction n as [n IH] using lt_wf_ind. intros rest Hn st He.
  destruct rest as [|b bs].
  { rewrite !while_nbytes_equation_1. reflexivity. }
  rewrite !while_nbytes_cons. cbv zeta.
  set (k := current_len_of bufsize (List.length (b :: bs))).
  rewrite (chunk_body_same o fl fl' (firstn k (b :: bs)) st He).
  pose proof (chunk_body_shape (cur st) o fl' (firstn k (b :: bs)) st) as Hsh.
  destruct (chunk_body o fl' (firstn k (b :: bs)) st) as [ret st1].
  simpl in *. destruct (negb (Z.eqb ret 0)); [reflexivity|].
  apply (IH (List.length (skipn k (b :: bs)))); [|reflexivity|].
  - subst n k. rewrite length_skipn. unfold current_len_of.
    destruct (bufsize <? _); simpl List.length; lia.
  - apply (same_effect_shape (cur st)); [|exact He].
    apply Hsh. unfold same_shape. auto.
Qed.

Lemma run_segment_same (o : cop) (v v' : crypt_iovec) (st : run_st) :
  alike (cur st) v v' -> run_segment o v st = run_segment o v' st.
Proof.
  destruct v as [sv fv], v' as [sv' fv']. unfold alike. simpl.
  intros [<- He]. unfold run_segment, len. simpl.
  destruct (lt_dec 0 (List.length sv)); [|reflexivity].
  apply while_nbytes_same. exact He.
Qed.

Lemma for_iovec_same (s : csession) (env : run_env) (o : cop)
    (blocksize : nat) (vs vs' : list crypt_iovec) :
  Forall2 (alike s) vs vs' ->
  forall st, same_shape s (cur st) ->
             for_iovec env o blocksize vs st
             = for_iovec env o blocksize vs' st.
Proof.
  induction 1 as [|v v' vs vs' Hv Hvs IH]; intros st Hsh; [reflexivity|].
  simpl.
  assert (Hst : alike (cur st) v v').
  { destruct Hv as [A B]. split; [exact A|].
    exact (same_effect_shape _ _ _ _ Hsh B). }
  assert (Hm : misaligned blocksize v st = misaligned blocksize v' st).
  { unfold misaligned, len. destruct Hst as [-> [Hc _]].
    destruct (tfm (cur st)); [|reflexivity].
    rewrite (Hc eq_refl). reflexivity. }
  rewrite Hm. destruct (misaligned blocksize v' st); [reflexivity|].
  rewrite (run_segment_same o v v' st Hst).
  pose proof (run_segment_inv (fun st' => same_shape s (cur st')) o v'
                (fun c st' => chunk_body_shape s o (op_flags v') c st')
                st Hsh) as Hsh1.
  destruct (run_segment o v' st) as [ret st1]. simpl in Hsh1.
  destruct (negb (Z.eqb ret 0)); [reflexivity|].
  assert (Hu : update_stats env o v st1 = update_stats env o v' st1).
  { unfold update_stats, len. destruct Hv as [-> _]. reflexivity. }
  rewrite Hu. apply IH. apply update_stats_shape. exact Hsh1.
Qed.

(** C4, as the code has it: a flag that names a transform the session does
    not have is ignored.  Two requests on a session that differ only in
    such flags (their segments have the same sources, agree on the cipher
    flag if the session has a cipher transform and on the hash flag if it
    has a hash transform) give the same result, the same table, the same
    output and the same trace; no error arises from the flag. *)
Theorem absent_transform_flags_ignored (env : run_env) (fcr : fcrypt)
    (o : cop) (x : Z) (ivo : option (list byte))
    (vs vs' : list crypt_iovec) (i : nat) (s : csession) :
  session_of fcr x = Some (i, s) ->
  Forall2 (alike s) vs vs' ->
  crypto_runv env fcr (mk_crypt_opv o x ivo vs)
  = crypto_runv env fcr (mk_crypt_opv o x ivo vs').
Proof.
  intros Hs Hvs.
  destruct (valid_op o) eqn:Hop.
  2:{ destruct o; try discriminate Hop. reflexivity. }
  rewrite (crypto_runv_found env fcr (mk_crypt_opv o x ivo vs) i s Hop Hs).
  rewrite (crypto_runv_found env fcr (mk_crypt_opv o x ivo vs') i s Hop Hs).
  assert (Hb : runv_body env (mk_crypt_opv o x ivo vs) s
               = runv_body env (mk_crypt_opv o x ivo vs') s).
  { unfold runv_body.
    change (runv_init env (mk_crypt_opv o x ivo vs') s)
      with (runv_init env (mk_crypt_opv o x ivo vs) s).
    destruct (runv_init env (mk_crypt_opv o x ivo vs) s)
      as [[[l ret] st]|[bs st0]] eqn:Ei; [reflexivity|].
    apply runv_init_inr in Ei. destruct Ei as (_ & Hsh & _).
    unfold runv_rest. simpl op. simpl iovec.
    rewrite (for_iovec_same s env o bs vs vs' Hvs st0 Hsh). reflexivity. }
  rewrite Hb. reflexivity.
Qed.

(** *** Unique session ids *)

Lemma crypto_runv_sids (env : run_env) (fcr : fcrypt) (copv : crypt_opv) :
  sids (rv_fcr (crypto_runv env fcr copv)) = sids fcr.
Proof.
  destruct (valid_op (op copv)) eqn:Hop.
  2:{ unfold crypto_runv. destruct (op copv); try discriminate Hop.
      reflexivity. }
  destruct (session_of fcr (ses copv)) as [[i s]|] eqn:Hs.
  - rewrite (crypto_runv_found env fcr copv i s Hop Hs). cbv zeta.
    cbn [rv_fcr].
    destruct (runv_exit_spec (fst (fst (fst (runv_body env copv s))))
                (snd (fst (runv_body env copv s)))) as (-> & _).
    destruct (session_of_cursor _ _ _ _ Hs) as (_ & Hn & _).
    destruct (runv_body_shape env copv s) as (Hsid & _).
    exact (store_sids fcr i s _ Hn Hsid).
  - unfold crypto_runv, crypto_get_session_by_sid.
    unfold session_of in Hs.
    destruct (list_for_each_entry_sid fcr (ses copv) 0) as [|j|];
      simpl deref; destruct (op copv); try discriminate Hop; try reflexivity;
      try (destruct (page_ok env); reflexivity);
      destruct (nth_error fcr j); try discriminate Hs; reflexivity.
Qed.

Lemma reachable_NoDup (fcr : fcrypt) : reachable fcr -> NoDup (sids fcr).
Proof.
  induction 1 as [|env sop fcr fcr' _ IH Hc|x fcr fcr' _ IH Hf
                  |env copv ret fcr fcr' _ IH _ Hr].
  - constructor.
  - destruct (crypto_create_session env fcr sop) as [r|] eqn:E;
      [|discriminate Hc].
    simpl in Hc. injection Hc as <-.
    exact (crypto_create_session_NoDup env fcr sop r IH E).
  - subst fcr'. apply crypto_finish_session_NoDup. exact IH.
  - subst fcr'. rewrite crypto_runv_sids. exact IH.
Qed.

(** C8: in every table that the calls of the driver can produce, no two
    sessions carry the same id; and a successful [crypto_create_session] on
    such a table puts at its head a session whose id is the first of the
    drawn values that the scan of the whole table finds on no session: the
    last value drawn, every redraw and the insertion lying between the
    [down] and the [up] of the table's semaphore. *)
Theorem session_ids_unique (fcr : fcrypt) :
  reachable fcr ->
  NoDup (sids fcr)
  /\ forall env sop r,
       crypto_create_session env fcr sop = Some r -> cr_ret r = 0%Z ->
       exists x e,
         cr_ses r = Some x /\ cr_fcr r = e :: fcr /\ sid e = x
         /\ ~ In x (sids fcr)
         /\ find (fun c => negb (duplicate_sid fcr c)) (random env) = Some x
         /\ NoDup (sids (cr_fcr r))
         /\ exists t r0 redraws rest,
              random env = r0 :: redraws ++ rest
              /\ x = last redraws r0
              /\ cr_trace r
                 = t ++ [Ev_kmalloc_ses; Ev_get_random_bytes r0; Ev_down_fcr]
                     ++ map Ev_get_random_bytes redraws
                     ++ [Ev_list_add x; Ev_up_fcr].
Proof.
  intros Hr. pose proof (reachable_NoDup fcr Hr) as Hnd.
  split; [exact Hnd|].
  intros env sop r Hc H0.
  destruct (create_session_success env fcr sop r Hc H0)
    as (x & e & A & B & C & D & E & F).
  exists x, e.
  split; [exact A|]. split; [exact B|]. split; [exact C|].
  split; [exact D|]. split; [exact E|]. split; [|exact F].
  exact (crypto_create_session_NoDup env fcr sop r Hnd Hc).
Qed.



End RunProperties.

(** *** The execution engine on the concrete kernel *)

(** Requests that name a transform the session lacks: the cipher flag on
    a session without a cipher transform, in a vectored request and in the
    single-buffer request of [crypto_run], which always sets both flags.
    Both calls return 0; the segment is read, hashed if the hash flag is
    set, and nothing is stored through [dst]. *)
Lemma cipher_flag_on_hash_only_session_accepted :
  session_of Toy.table (ses Toy.copv_cipher_on_hash_only)
  = Some (1, Toy.ses_hash_only)
  /\ tfm Toy.ses_hash_only = None
  /\ Forall (fun v => has_flag (op_flags v) IOP_CIPHER = true)
       (iovec Toy.copv_cipher_on_hash_only)
  /\ rv_outcome (crypto_runv Toy.env_ok Toy.table
                   Toy.copv_cipher_on_hash_only) = returned 0%Z
  /\ rv_dst (crypto_runv Toy.env_ok Toy.table Toy.copv_cipher_on_hash_only)
     = []
  /\ transform_calls
       (rv_trace (crypto_runv Toy.env_ok Toy.table
                    Toy.copv_cipher_on_hash_only)) = []
  /\ has_flag (Z.lor IOP_CIPHER IOP_HASH) IOP_CIPHER = true
  /\ rv_outcome (crypto_run Toy.env_ok Toy.table Toy.cop_hash_only)
     = returned 0%Z
  /\ transform_calls
       (rv_trace (crypto_run Toy.env_ok Toy.table Toy.cop_hash_only))
     = [Ev_hash_update (repeat x41 3)].
Proof.
  split; [reflexivity|]. split; [reflexivity|].
  split; [repeat constructor|].
  repeat split; vm_compute; reflexivity.
Qed.

Lemma absent_transform_flags_ignored_witness :
  session_of Toy.table 8 = Some (1, Toy.ses_hash_only)
  /\ Forall2 (alike Toy.ses_hash_only) [Toy.seg 3 1] [Toy.seg 3 0]
  /\ crypto_runv Toy.env_ok Toy.table
       (mk_crypt_opv COP_ENCRYPT 8 None [Toy.seg 3 1])
     = crypto_runv Toy.env_ok Toy.table
         (mk_crypt_opv COP_ENCRYPT 8 None [Toy.seg 3 0]).
Proof.
  assert (Hs : session_of Toy.table 8 = Some (1, Toy.ses_hash_only))
    by reflexivity.
  assert (Ha : Forall2 (alike Toy.ses_hash_only) [Toy.seg 3 1] [Toy.seg 3 0]).
  { constructor; [|constructor]. split; [reflexivity|].
    split; [intros E; discriminate E | intros _; reflexivity]. }
  split; [exact Hs|]. split; [exact Ha|].
  exact (absent_transform_flags_ignored Toy.env_ok Toy.table COP_ENCRYPT 8
           None [Toy.seg 3 1] [Toy.seg 3 0] 1 Toy.ses_hash_only Hs Ha).
Defined.

(** The call of C5 that keeps its page: a misaligned segment. *)
Lemma staging_page_release_witness :
  valid_op (op Toy.copv_misaligned) = true
  /\ session_of Toy.table (ses Toy.copv_misaligned)
     = Some (2, Toy.ses_cipher_only)
  /\ page_ok Toy.env_ok = true
  /\ rv_outcome (crypto_runv Toy.env_ok Toy.table Toy.copv_misaligned)
     = returned (- EINVAL)%Z
  /\ count is_get_free_page
       (rv_trace (crypto_runv Toy.env_ok Toy.table Toy.copv_misaligned)) = 1
  /\ count is_free_page
       (rv_trace (crypto_runv Toy.env_ok Toy.table Toy.copv_misaligned)) = 0.
Proof.
  split; [reflexivity|]. split; [reflexivity|]. split; [reflexivity|].
  split; [vm_compute; reflexivity|].
  exact (staging_page_release Toy.env_ok Toy.table Toy.copv_misaligned 2
           Toy.ses_cipher_only eq_refl eq_refl eq_refl).
Defined.


Lemma misaligned_segment_rejected_witness :
  valid_op (op Toy.copv_misaligned_second) = true
  /\ session_of Toy.table (ses Toy.copv_misaligned_second)
     = Some (2, Toy.ses_cipher_only)
  /\ runv_init Toy.env_ok Toy.copv_misaligned_second Toy.ses_cipher_only
     = inr (16, Toy.st0_misaligned_second)
  /\ for_iovec Toy.env_ok COP_ENCRYPT 16 [Toy.seg 16 1]
       Toy.st0_misaligned_second
     = (fall_through, 0%Z, Toy.st1_misaligned_second)
  /\ len (Toy.seg 3 1) mod crypto_blkcipher_blocksize Toy.aes <> 0
  /\ crypto_runv Toy.env_ok Toy.table Toy.copv_misaligned_second
     = mk_runv_result (returned (- EINVAL)%Z)
         (store Toy.table 2 (cur Toy.st1_misaligned_second))
         (dst Toy.st1_misaligned_second) None
         (lookup_trace 9 ++ log Toy.st1_misaligned_second ++ [Ev_up_ses 9]).
Proof.
  assert (Hi : runv_init Toy.env_ok Toy.copv_misaligned_second
                 Toy.ses_cipher_only
               = inr (16, Toy.st0_misaligned_second))
    by (vm_compute; reflexivity).
  assert (Hp : for_iovec Toy.env_ok (op Toy.copv_misaligned_second) 16
                 [Toy.seg 16 1] Toy.st0_misaligned_second
               = (fall_through, 0%Z, Toy.st1_misaligned_second))
    by (vm_compute; reflexivity).
  assert (Hm : len (Toy.seg 3 1) mod crypto_blkcipher_blocksize Toy.aes <> 0)
    by (vm_compute; discriminate).
  split; [reflexivity|]. split; [reflexivity|]. split; [exact Hi|].
  split; [exact Hp|]. split; [exact Hm|].
  exact (proj2 (misaligned_segment_rejected Toy.env_ok Toy.table
                  Toy.copv_misaligned_second 2 Toy.ses_cipher_only Toy.aes 16
                  Toy.st0_misaligned_second Toy.st1_misaligned_second
                  [Toy.seg 16 1] (Toy.seg 3 1) [Toy.seg 16 1]
                  eq_refl eq_refl eq_refl Hi eq_refl Hp eq_refl Hm)).
Defined.

Lemma toy_table2_reachable : reachable Toy.table2.
Proof.
  apply (reach_create (mk_create_env true [7%Z; 5%Z]) Toy.sop_aes Toy.table1).
  - apply (reach_create (mk_create_env true [7%Z]) Toy.sop_aes []).
    + apply reach_open.
    + vm_compute. reflexivity.
  - vm_compute. reflexivity.
Defined.

Lemma session_ids_unique_witness :
  reachable Toy.table2
  /\ NoDup (sids Toy.table2)
  /\ option_map cr_ses
       (crypto_create_session (mk_create_env true [7%Z; 5%Z; 9%Z])
          Toy.table2 Toy.sop_aes)
     = Some (Some 9%Z).
Proof.
  split; [exact toy_table2_reachable|].
  split; [exact (proj1 (session_ids_unique Toy.table2 toy_table2_reachable))|].
  vm_compute. reflexivity.
Defined.

(** Calls that supply an IV which is never applied: the staging page is
    refused, or [crypto_hash_init] fails.  Each returns its error with no
    [crypto_blkcipher_set_iv] in the trace and with the table as it was. *)
Lemma supplied_iv_not_applied :
  (session_of Toy.table (ses Toy.copv_both) = Some (0, Toy.ses_both)
   /\ tfm Toy.ses_both = Some Toy.aes
   /\ iv Toy.copv_both = Some (repeat x22 16)
   /\ crypto_blkcipher_ivsize Toy.aes = 16
   /\ rv_outcome (crypto_runv (mk_run_env false true) Toy.table
                    Toy.copv_both) = returned (- ENOMEM)%Z
   /\ filter is_set_iv
        (rv_trace (crypto_runv (mk_run_env false true) Toy.table
                     Toy.copv_both)) = []
   /\ rv_fcr (crypto_runv (mk_run_env false true) Toy.table Toy.copv_both)
      = Toy.table)
  /\ (@session_of unit Z Faulty.table (ses Faulty.copv)
      = Some (0, Faulty.ses_failing)
      /\ tfm Faulty.ses_failing = Some tt
      /\ iv Faulty.copv = Some [x01]
      /\ rv_outcome (@crypto_runv Toy.header unit Z Faulty.api Toy.env_ok
                       Faulty.table Faulty.copv) = returned (-5)%Z
      /\ filter is_set_iv
           (rv_trace (@crypto_runv Toy.header unit Z Faulty.api Toy.env_ok
                        Faulty.table Faulty.copv)) = []).
Proof.
  split; repeat split; vm_compute; reflexivity.
Qed.

Lemma cipher_iv_state_witness :
  valid_op (op Toy.copv_both) = true
  /\ session_of Toy.table (ses Toy.copv_both) = Some (0, Toy.ses_both)
  /\ tfm Toy.ses_both = Some Toy.aes
  /\ runv_init Toy.env_ok Toy.copv_both Toy.ses_both
     = inr (16, Toy.st0_both)
  /\ tfm (cur Toy.st0_both)
     = Some (crypto_blkcipher_set_iv Toy.aes (repeat x22 16))
  /\ filter is_set_iv (log Toy.st0_both) = [Ev_set_iv (repeat x22 16)]
  /\ exists ivp,
       List.length ivp = crypto_blkcipher_ivsize Toy.aes
       /\ ivp = firstn (crypto_blkcipher_ivsize Toy.aes) (repeat x22 16)
       /\ tfm (cur Toy.st0_both)
          = Some (crypto_blkcipher_set_iv Toy.aes ivp)
       /\ filter is_set_iv (log Toy.st0_both) = [Ev_set_iv ivp].
Proof.
  assert (Hi : runv_init Toy.env_ok Toy.copv_both Toy.ses_both
               = inr (16, Toy.st0_both)) by (vm_compute; reflexivity).
  split; [reflexivity|]. split; [reflexivity|]. split; [reflexivity|].
  split; [exact Hi|].
  destruct (cipher_iv_state Toy.env_ok Toy.table Toy.copv_both 0 Toy.ses_both
              Toy.aes eq_refl eq_refl eq_refl) as (_ & Hinit & _).
  destruct (Hinit 16 Toy.st0_both Hi) as (_ & A & B & L & _).
  split; [exact A|]. split; [exact B|].
  apply (L (repeat x22 16) eq_refl). vm_compute. apply le_n.
Defined.

Lemma mac_without_hash_segments_witness :
  valid_op (op Toy.copv_no_hash_flag) = true
  /\ session_of Toy.table (ses Toy.copv_no_hash_flag) = Some (0, Toy.ses_both)
  /\ hash_tfm Toy.ses_both = Some Toy.sha1
  /\ Forall (fun v => has_flag (op_flags v) IOP_HASH = false)
       (iovec Toy.copv_no_hash_flag)
  /\ rv_outcome (crypto_runv Toy.env_ok Toy.table Toy.copv_no_hash_flag)
     = returned 0%Z
  /\ rv_mac (crypto_runv Toy.env_ok Toy.table Toy.copv_no_hash_flag)
     = Some (digest_of Toy.sha1 [])
  /\ rv_mac (crypto_runv Toy.env_ok Toy.table Toy.copv_empty)
     = Some (digest_of Toy.sha1 [])
  /\ digest_of Toy.sha1 [] = repeat x00 20.
Proof.
  assert (Hf : Forall (fun v => has_flag (op_flags v) IOP_HASH = false)
                 (iovec Toy.copv_no_hash_flag)) by (repeat constructor).
  assert (Hr : rv_outcome (crypto_runv Toy.env_ok Toy.table
                             Toy.copv_no_hash_flag) = returned 0%Z)
    by (vm_compute; reflexivity).
  assert (Hr0 : rv_outcome (crypto_runv Toy.env_ok Toy.table Toy.copv_empty)
                = returned 0%Z) by (vm_compute; reflexivity).
  split; [reflexivity|]. split; [reflexivity|]. split; [reflexivity|].
  split; [exact Hf|]. split; [exact Hr|].
  destruct (mac_without_hash_segments Toy.env_ok Toy.table
              Toy.copv_no_hash_flag 0 Toy.ses_both Toy.sha1
              eq_refl eq_refl eq_refl Hf Hr) as (_ & Hm & _).
  destruct (mac_without_hash_segments Toy.env_ok Toy.table
              Toy.copv_empty 1 Toy.ses_hash_only Toy.sha1
              eq_refl eq_refl eq_refl (Forall_nil _) Hr0) as (_ & Hm0 & _).
  split; [exact Hm|]. split; [exact Hm0 | vm_compute; reflexivity].
Defined.

(** * Further properties of the driver *)

Section Further.

Context {H : cryptodev_h}.
Context {blkcipher hash_t : Type} {API : CryptoAPI blkcipher hash_t}.

#[local] Abbreviation csession := (csession blkcipher hash_t).
#[local] Abbreviation fcrypt := (fcrypt blkcipher hash_t).
#[local] Abbreviation run_st := (run_st blkcipher hash_t).

(** *** Storing a session back *)

Lemma store_same (l : fcrypt) (i : nat) (s : csession) :
  nth_error l i = Some s -> store l i s = l.
Proof.
  revert i. induction l as [|e l IH]; intros [|i] Hn; simpl in *;
    try discriminate.
  - injection Hn as ->. reflexivity.
  - f_equal. exact (IH i Hn).
Qed.

Lemma nth_error_store_other (l : fcrypt) (i j : nat) (s' : csession) :
  j <> i -> nth_error (store l i s') j = nth_error l j.
Proof.
  revert i j. induction l as [|e l IH]; intros [|i] [|j] Hj; simpl;
    try reflexivity; try contradiction.
  apply IH. intros E. apply Hj. f_equal. exact E.
Qed.

Lemma length_store (l : fcrypt) (i : nat) (s' : csession) :
  List.length (store l i s') = List.length l.
Proof.
  revert i. induction l as [|e l IH]; intros [|i]; simpl; auto.
Qed.

(** *** Calls that end before the first segment *)

(** X1: a request whose [op] is neither [COP_ENCRYPT] nor [COP_DECRYPT] is
    answered with [-EINVAL] before the session is looked up: nothing is
    recorded, no semaphore is taken, the table is as it was.  A request on
    a session that exists, for which [__get_free_page] gives no page, is
    answered with [-ENOMEM]: the session is locked and released, and
    nothing of it or of the outputs is touched. *)
Theorem crypto_runv_early_errors (env : run_env) (fcr : fcrypt)
    (copv : crypt_opv) :
  (valid_op (op copv) = false ->
   crypto_runv env fcr copv
   = mk_runv_result (returned (- EINVAL)%Z) fcr [] None [])
  /\ (valid_op (op copv) = true ->
      forall i s,
        session_of fcr (ses copv) = Some (i, s) ->
        page_ok env = false ->
        crypto_runv env fcr copv
        = mk_runv_result (returned (- ENOMEM)%Z) fcr [] None
            (lookup_trace (sid s) ++ [Ev_up_ses (sid s)])).
Proof.
  split.
  - intros Hop. unfold crypto_runv.
    destruct (op copv); try discriminate Hop. reflexivity.
  - intros Hop i s Hs Hp.
    rewrite (crypto_runv_found env fcr copv i s Hop Hs).
    unfold runv_body, runv_init. rewrite Hp. simpl.
    destruct (session_of_cursor _ _ _ _ Hs) as (_ & Hn & _).
    rewrite (store_same fcr i s Hn). reflexivity.
Qed.

(** X2: when [crypto_hash_init] fails, its result is what the call
    returns.  Nothing has been read from the segments, no IV has been set
    (the cipher object is untouched even if the request carries one), no
    MAC and no output is stored; the session keeps the hash object as the
    failed call left it. *)
Theorem crypto_runv_hash_init_failure (env : run_env) (fcr : fcrypt)
    (copv : crypt_opv) (i : nat) (s : csession) (h : hash_t) :
  valid_op (op copv) = true ->
  session_of fcr (ses copv) = Some (i, s) ->
  page_ok env = true ->
  hash_tfm s = Some h ->
  fst (crypto_hash_init h) <> 0%Z ->
  crypto_runv env fcr copv
  = mk_runv_result (returned (fst (crypto_hash_init h)))
      (store fcr i
         (mk_csession (tfm s) (Some (snd (crypto_hash_init h))) (sid s)
            (stat_encrypt s) (stat_decrypt s) (stat_max_size s)
            (stat_count s)))
      [] None
      (lookup_trace (sid s)
       ++ [Ev_get_free_page; Ev_hash_init; Ev_up_ses (sid s)]).
Proof.
  intros Hop Hs Hp Eh Hr.
  rewrite (crypto_runv_found env fcr copv i s Hop Hs).
  unfold runv_body, runv_init. rewrite Hp. simpl. rewrite Eh.
  destruct (crypto_hash_init h) as [r h']. simpl in *.
  destruct (Z.eqb_spec r 0) as [E|E]; [contradiction|]. reflexivity.
Qed.

(** What [runv_body] stores through [copv->mac]. *)
Lemma runv_body_mac (env : run_env) (copv : crypt_opv) (s : csession) :
  snd (runv_body env copv s) <> None
  <-> snd (fst (fst (runv_body env copv s))) = 0%Z /\ hash_tfm s <> None.
Proof.
  unfold runv_body.
  destruct (runv_init env copv s) as [[[l ret] st]|[bs st0]] eqn:Ei.
  - apply runv_init_inl in Ei. destruct Ei as (_ & Hr & _). simpl.
    split; [intros F; contradiction F; reflexivity | intros [E _]; contradiction].
  - apply runv_init_inr in Ei. destruct Ei as (_ & Hsh & _).
    unfold runv_rest.
    pose proof (for_iovec_ret env (op copv) bs (iovec copv) st0) as Hret.
    pose proof (for_iovec_shape s env (op copv) bs (iovec copv) st0 Hsh)
      as (_ & _ & Hh).
    destruct (for_iovec env (op copv) bs (iovec copv) st0) as [[l r] stN].
    simpl in Hh.
    destruct l; simpl.
    + unfold runv_final.
      destruct (hash_tfm (cur stN)) as [hN|] eqn:EN.
      * destruct (crypto_hash_final hN) as [[rf h'] out].
        destruct (Z.eqb_spec rf 0) as [->|Hf]; simpl.
        -- split; [intros _|intros _; discriminate].
           split; [reflexivity|]. destruct (hash_tfm s); [discriminate|].
           discriminate Hh.
        -- split; [intros F; contradiction F; reflexivity
                  |intros [E _]; contradiction].
      * simpl. split; [intros F; contradiction F; reflexivity|].
        intros [_ F]. destruct (hash_tfm s); [discriminate Hh|].
        contradiction F. reflexivity.
    + split; [intros F; contradiction F; reflexivity
             |intros [E _]; contradiction].
    + split; [intros F; contradiction F; reflexivity|].
      intros [E _]. rewrite E in Hret. discriminate Hret.
Qed.

(** X3: a MAC is stored through [copv->mac] exactly when the call returns 0
    and the session has a hash transform: never on an error, and on every
    successful call of such a session. *)
Theorem mac_stored_iff (env : run_env) (fcr : fcrypt) (copv : crypt_opv)
    (i : nat) (s : csession) :
  valid_op (op copv) = true ->
  session_of fcr (ses copv) = Some (i, s) ->
  (rv_mac (crypto_runv env fcr copv) <> None
   <-> rv_outcome (crypto_runv env fcr copv) = returned 0%Z
       /\ hash_tfm s <> None).
Proof.
  intros Hop Hs. rewrite (crypto_runv_found env fcr copv i s Hop Hs).
  cbv zeta. cbn [rv_mac rv_outcome].
  rewrite (runv_body_mac env copv s).
  split; intros [A B]; (split; [|exact B]).
  - rewrite A. reflexivity.
  - injection A as A. exact A.
Qed.

(** *** Creating a session *)

(** The ways through [crypto_create_session]. *)
Lemma create_session_inv (env : create_env) (fcr : fcrypt)
    (sop : session_op) (r : create_result blkcipher hash_t) :
  crypto_create_session env fcr sop = Some r ->
  r = create_return fcr (- EINVAL)%Z []
  \/ exists alg hn,
       alg_name_of (cipher sop) = Some alg
       /\ hash_name_of (mac sop) = Some hn
       /\ (alg = None -> hn = None -> False)
       /\ (setup_cipher fcr sop alg = inr r
           \/ exists b t1,
                setup_cipher fcr sop alg = inl (b, t1)
                /\ (setup_hash fcr sop b hn t1 = inr r
                    \/ exists h t2,
                         setup_hash fcr sop b hn t1 = inl (h, t2)
                         /\ ((kmalloc_ok env = false
                              /\ r = create_error fcr b h (- ENOMEM)%Z t2)
                             \/ (kmalloc_ok env = true
                                 /\ exists r0 more s t4,
                                      random env = r0 :: more
                                      /\ restart fcr r0 more
                                           (t2 ++ [Ev_kmalloc_ses;
                                                   Ev_get_random_bytes r0;
                                                   Ev_down_fcr])
                                         = Some (s, t4)
                                      /\ r = mk_create_result 0%Z
                                               (mk_csession b h s 0 0 0 0
                                                :: fcr)
                                               (Some s)
                                               (t4 ++ [Ev_list_add s;
                                                       Ev_up_fcr]))))).
Proof.
  unfold crypto_create_session.
  destruct (match cipher sop with CIPHER_0 => _ | _ => _ end) eqn:E0.
  { intros E. injection E as <-. left. reflexivity. }
  destruct (alg_name_of (cipher sop)) as [alg|] eqn:Ea.
  2:{ intros E. injection E as <-. left. reflexivity. }
  destruct (hash_name_of (mac sop)) as [hn|] eqn:Eh.
  2:{ intros E. injection E as <-. left. reflexivity. }
  intros E. right. exists alg, hn.
  split; [reflexivity|]. split; [reflexivity|].
  split.
  { intros -> ->. destruct (cipher sop); try discriminate Ea.
    destruct (mac sop); discriminate. }
  destruct (setup_cipher fcr sop alg) as [[b t1]|r1].
  2:{ injection E as <-. left. reflexivity. }
  right. exists b, t1. split; [reflexivity|].
  destruct (setup_hash fcr sop b hn t1) as [[h t2]|r2].
  2:{ injection E as <-. left. reflexivity. }
  right. exists h, t2. split; [reflexivity|].
  destruct (kmalloc_ok env); simpl in E.
  - right. split; [reflexivity|].
    destruct (random env) as [|r0 more]; [discriminate|].
    destruct (restart fcr r0 more _) as [[s t4]|] eqn:Er; [|discriminate].
    injection E as <-. exists r0, more, s, t4.
    split; [reflexivity|]. split; [exact Er | reflexivity].
  - left. injection E as <-. split; reflexivity.
Qed.

(** What "Set-up crypto transform" hands on. *)
Lemma setup_cipher_object (fcr : fcrypt) (sop : session_op)
    (alg : option string) (b : option blkcipher) (t : trace) :
  setup_cipher fcr sop alg = inl (b, t) ->
  match alg with
  | None => b = None /\ t = []
  | Some name =>
      exists b0,
        crypto_alloc_blkcipher name = Some b0
        /\ keylen sop <= CRYPTO_CIPHER_MAX_KEY_LEN
        /\ fst (crypto_blkcipher_setkey b0 (key sop)) = 0%Z
        /\ b = Some (snd (crypto_blkcipher_setkey b0 (key sop)))
        /\ t = [Ev_alloc_blkcipher name]
  end.
Proof.
  unfold setup_cipher. destruct alg as [name|].
  2:{ intros E. injection E as <- <-. split; reflexivity. }
  destruct (crypto_alloc_blkcipher name) as [b0|]; [|discriminate].
  destruct (match crypto_blkcipher_alg b0 with Some _ => _ | None => _ end);
    [discriminate|].
  destruct (CRYPTO_CIPHER_MAX_KEY_LEN <? keylen sop) eqn:El; [discriminate|].
  destruct (crypto_blkcipher_setkey b0 (key sop)) as [ret b'] eqn:Ek.
  destruct (Z.eqb_spec ret 0) as [->|Hr]; simpl; [|discriminate].
  intros E. injection E as <- <-. exists b0. rewrite Ek.
  split; [reflexivity|]. split; [apply Nat.ltb_ge; exact El|].
  split; [reflexivity|]. split; reflexivity.
Qed.

Lemma setup_hash_object (fcr : fcrypt) (sop : session_op)
    (b : option blkcipher) (hn : option (string * bool)) (t t' : trace)
    (h : option hash_t) :
  setup_hash fcr sop b hn t = inl (h, t') ->
  match hn with
  | None => h = None /\ t' = t
  | Some (name, hmac_mode) =>
      exists h0,
        crypto_alloc_hash name = Some h0
        /\ t' = t ++ [Ev_alloc_hash name]
        /\ if hmac_mode
           then mackeylen sop <= CRYPTO_HMAC_MAX_KEY_LEN
                /\ fst (crypto_hash_setkey h0 (mackey sop)) = 0%Z
                /\ h = Some (snd (crypto_hash_setkey h0 (mackey sop)))
           else h = Some h0
  end.
Proof.
  unfold setup_hash. destruct hn as [[name hmac_mode]|].
  2:{ intros E. injection E as <- <-. split; reflexivity. }
  destruct (crypto_alloc_hash name) as [h0|]; [|discriminate].
  destruct hmac_mode.
  - destruct (CRYPTO_HMAC_MAX_KEY_LEN <? mackeylen sop) eqn:El;
      [discriminate|].
    destruct (crypto_hash_setkey h0 (mackey sop)) as [ret h'] eqn:Ek.
    destruct (Z.eqb_spec ret 0) as [->|Hr]; simpl; [|discriminate].
    intros E. injection E as <- <-. exists h0. rewrite Ek.
    split; [reflexivity|]. split; [reflexivity|].
    split; [apply Nat.ltb_ge; exact El|]. split; reflexivity.
  - intros E. injection E as <- <-. exists h0.
    split; [reflexivity|]. split; reflexivity.
Qed.

(** *** Events of one kind *)

Lemma count_outside (p q : event -> bool) (t : trace) :
  Forall (fun e => q e = true) t ->
  (forall e, q e = true -> p e = false) -> count p t = 0.
Proof.
  intros Hq Hpq. unfold count.
  induction Hq as [|e t He _ IH]; simpl; [reflexivity|].
  rewrite (Hpq e He). exact IH.
Qed.

Lemma setup_cipher_inl_events (fcr : fcrypt) (sop : session_op)
    (alg : option string) (b : option blkcipher) (t : trace) :
  setup_cipher fcr sop alg = inl (b, t) ->
  Forall (fun e => is_handle_event e = true) t.
Proof.
  intros E. apply setup_cipher_object in E. destruct alg as [name|].
  - destruct E as (b0 & _ & _ & _ & _ & ->). repeat constructor.
  - destruct E as [_ ->]. constructor.
Qed.

Lemma setup_cipher_inr_events (fcr : fcrypt) (sop : session_op)
    (alg : option string) (r : create_result blkcipher hash_t) :
  setup_cipher fcr sop alg = inr r ->
  Forall (fun e => is_handle_event e = true) (cr_trace r).
Proof.
  unfold setup_cipher. destruct alg as [name|]; [|discriminate].
  destruct (crypto_alloc_blkcipher name) as [b0|].
  2:{ intros E. injection E as <-. constructor. }
  destruct (match crypto_blkcipher_alg b0 with Some _ => _ | None => _ end).
  { intros E. injection E as <-. repeat constructor. }
  destruct (CRYPTO_CIPHER_MAX_KEY_LEN <? keylen sop).
  { intros E. injection E as <-. repeat constructor. }
  destruct (crypto_blkcipher_setkey b0 (key sop)) as [ret b'].
  destruct (negb (Z.eqb ret 0)); [|discriminate].
  intros E. injection E as <-. repeat constructor.
Qed.

Lemma create_error_events (fcr : fcrypt) (b : option blkcipher)
    (h : option hash_t) (ret : Z) (t : trace) :
  Forall (fun e => is_handle_event e = true) t ->
  Forall (fun e => is_handle_event e = true)
    (cr_trace (create_error fcr b h ret t)).
Proof.
  intros Ht. unfold create_error. simpl.
  apply Forall_app. split; [exact Ht|].
  apply Forall_app. split; [destruct b | destruct h]; repeat constructor.
Qed.

Lemma setup_hash_inl_events (fcr : fcrypt) (sop : session_op)
    (b : option blkcipher) (hn : option (string * bool)) (t t' : trace)
    (h : option hash_t) :
  Forall (fun e => is_handle_event e = true) t ->
  setup_hash fcr sop b hn t = inl (h, t') ->
  Forall (fun e => is_handle_event e = true) t'.
Proof.
  intros Ht E. apply setup_hash_object in E. destruct hn as [[name m]|].
  - destruct E as (h0 & _ & -> & _). apply Forall_app.
    split; [exact Ht | repeat constructor].
  - destruct E as [_ ->]. exact Ht.
Qed.

Lemma setup_hash_inr_events (fcr : fcrypt) (sop : session_op)
    (b : option blkcipher) (hn : option (string * bool)) (t : trace)
    (r : create_result blkcipher hash_t) :
  Forall (fun e => is_handle_event e = true) t ->
  setup_hash fcr sop b hn t = inr r ->
  Forall (fun e => is_handle_event e = true) (cr_trace r).
Proof.
  intros Ht. unfold setup_hash. destruct hn as [[name m]|]; [|discriminate].
  destruct (crypto_alloc_hash name) as [h0|].
  2:{ intros E. injection E as <-. exact Ht. }
  assert (Ht1 : Forall (fun e => is_handle_event e = true)
                  (t ++ [Ev_alloc_hash name])).
  { apply Forall_app. split; [exact Ht | repeat constructor]. }
  destruct m; [|discriminate].
  destruct (CRYPTO_HMAC_MAX_KEY_LEN <? mackeylen sop).
  { intros E. injection E as <-. apply create_error_events. exact Ht1. }
  destruct (crypto_hash_setkey h0 (mackey sop)) as [ret h'].
  destruct (negb (Z.eqb ret 0)); [|discriminate].
  intros E. injection E as <-. apply create_error_events. exact Ht1.
Qed.

(** X4: [crypto_create_session] returns 0, [-EINVAL] or [-ENOMEM] and
    nothing else, whatever the transforms answer (a failed [setkey] is
    reported as [-EINVAL], not with its own code).  An id is stored in
    [sop->ses] exactly when 0 is returned.  [-ENOMEM] is returned only when
    [kmalloc] of the session fails: then the table is unchanged and every
    transform allocated in the call has been released again, and nothing
    but the allocation and release of transforms has happened. *)
Theorem create_session_return_codes (env : create_env) (fcr : fcrypt)
    (sop : session_op) (r : create_result blkcipher hash_t) :
  crypto_create_session env fcr sop = Some r ->
  (cr_ret r = 0%Z \/ cr_ret r = (- EINVAL)%Z \/ cr_ret r = (- ENOMEM)%Z)
  /\ (cr_ses r <> None <-> cr_ret r = 0%Z)
  /\ (cr_ret r = 0%Z -> kmalloc_ok env = true)
  /\ (cr_ret r = (- ENOMEM)%Z ->
      kmalloc_ok env = false /\ cr_fcr r = fcr
      /\ count is_alloc_blkcipher (cr_trace r)
         = count is_free_blkcipher (cr_trace r)
      /\ count is_alloc_hash (cr_trace r) = count is_free_hash (cr_trace r)
      /\ Forall (fun e => is_handle_event e = true) (cr_trace r)).
Proof.
  intros Hc.
  assert (Hinval : cr_ret r = (- EINVAL)%Z -> cr_ses r = None ->
    (cr_ret r = 0%Z \/ cr_ret r = (- EINVAL)%Z \/ cr_ret r = (- ENOMEM)%Z)
    /\ (cr_ses r <> None <-> cr_ret r = 0%Z)
    /\ (cr_ret r = 0%Z -> kmalloc_ok env = true)
    /\ (cr_ret r = (- ENOMEM)%Z ->
        kmalloc_ok env = false /\ cr_fcr r = fcr
        /\ count is_alloc_blkcipher (cr_trace r)
           = count is_free_blkcipher (cr_trace r)
        /\ count is_alloc_hash (cr_trace r)
           = count is_free_hash (cr_trace r)
        /\ Forall (fun e => is_handle_event e = true) (cr_trace r))).
  { intros E1 E2. rewrite E1, E2.
    split; [right; left; reflexivity|].
    split; [split; [intros F; contradiction F; reflexivity | discriminate]|].
    split; discriminate. }
  destruct (create_session_inv env fcr sop r Hc)
    as [->|(alg & hn & Ea & Eh & _ & [Ec|(b & t1 & Ec & [Es|(h & t2 & Es & K)])])].
  - apply Hinval; reflexivity.
  - apply setup_cipher_inr in Ec. destruct Ec as (A & _ & B & _).
    apply Hinval; assumption.
  - pose proof (setup_cipher_inl _ _ _ _ _ Ec) as (A1 & A2 & A3 & A4).
    apply (setup_hash_inr _ _ _ _ _ _ A1 A2 A3 A4) in Es.
    destruct Es as (A & _ & B & _). apply Hinval; assumption.
  - pose proof (setup_cipher_inl _ _ _ _ _ Ec) as (A1 & A2 & A3 & A4).
    pose proof (setup_hash_inl _ _ _ _ _ _ _ A1 A2 A3 A4 Es)
      as (B1 & B2 & B3 & B4).
    destruct K as [[Hk ->]|(Hk & r0 & more & s & t4 & _ & _ & ->)].
    + simpl. split; [right; right; reflexivity|].
      split; [split; [intros F; contradiction F; reflexivity | discriminate]|].
      split; [discriminate|]. intros _.
      split; [exact Hk|]. split; [reflexivity|].
      rewrite !count_app, B1, B2, B3, B4.
      split; [destruct b, h; reflexivity|].
      split; [destruct b, h; reflexivity|].
      apply (create_error_events fcr b h (- ENOMEM)%Z t2).
      apply (setup_hash_inl_events _ _ _ _ _ _ _
               (setup_cipher_inl_events _ _ _ _ _ Ec) Es).
    + simpl. split; [left; reflexivity|].
      split; [split; [reflexivity | discriminate]|].
      split; [intros _; exact Hk | discriminate].
Qed.

(** X5: what a successful [crypto_create_session] puts into the table.
    The new session is at the head of the list, under the id stored in
    [sop->ses], with all four statistics 0.  Its cipher transform is the
    object that [crypto_alloc_blkcipher] gave for the name of [sop->cipher],
    keyed with [sop->key] (no transform for cipher 0).  Its hash transform
    is the object that [crypto_alloc_hash] gave for the name of [sop->mac],
    keyed with [sop->mackey] for the HMAC algorithms and left as allocated
    for the plain digests, for which [sop->mackey] is not looked at.  At
    least one of the two is there. *)
Theorem create_session_new_session (env : create_env) (fcr : fcrypt)
    (sop : session_op) (r : create_result blkcipher hash_t) :
  crypto_create_session env fcr sop = Some r -> cr_ret r = 0%Z ->
  exists s b h,
    cr_ses r = Some s
    /\ cr_fcr r = mk_csession b h s 0 0 0 0 :: fcr
    /\ match alg_name_of (cipher sop) with
       | Some (Some name) =>
           exists b0,
             crypto_alloc_blkcipher name = Some b0
             /\ b = Some (snd (crypto_blkcipher_setkey b0 (key sop)))
       | _ => b = None
       end
    /\ match hash_name_of (mac sop) with
       | Some (Some (name, hmac_mode)) =>
           exists h0,
             crypto_alloc_hash name = Some h0
             /\ h = Some (if hmac_mode
                          then snd (crypto_hash_setkey h0 (mackey sop))
                          else h0)
       | _ => h = None
       end
    /\ (b <> None \/ h <> None).
Proof.
  intros Hc Hr.
  destruct (create_session_inv env fcr sop r Hc)
    as [->|(alg & hn & Ea & Eh & Hne
            & [Ec|(b & t1 & Ec & [Es|(h & t2 & Es & K)])])].
  - discriminate Hr.
  - apply setup_cipher_inr in Ec. destruct Ec as (A & _).
    rewrite A in Hr. discriminate Hr.
  - pose proof (setup_cipher_inl _ _ _ _ _ Ec) as (A1 & A2 & A3 & A4).
    apply (setup_hash_inr _ _ _ _ _ _ A1 A2 A3 A4) in Es.
    destruct Es as (A & _). rewrite A in Hr. discriminate Hr.
  - destruct K as [[_ ->]|(_ & r0 & more & s & t4 & _ & _ & ->)];
      [discriminate Hr|].
    exists s, b, h. simpl. split; [reflexivity|]. split; [reflexivity|].
    apply setup_cipher_object in Ec. apply setup_hash_object in Es.
    rewrite Ea, Eh.
    assert (Hb : match alg with
                 | Some name =>
                     exists b0,
                       crypto_alloc_blkcipher name = Some b0
                       /\ b = Some (snd (crypto_blkcipher_setkey b0 (key sop)))
                 | None => b = None
                 end).
    { destruct alg as [name|].
      - destruct Ec as (b0 & E1 & _ & _ & E2 & _). exists b0. auto.
      - destruct Ec as [E _]. exact E. }
    assert (Hh : match hn with
                 | Some (name, hmac_mode) =>
                     exists h0,
                       crypto_alloc_hash name = Some h0
                       /\ h = Some (if hmac_mode
                                    then snd (crypto_hash_setkey h0 (mackey sop))
                                    else h0)
                 | None => h = None
                 end).
    { destruct hn as [[name m]|].
      - destruct Es as (h0 & E1 & _ & E2). exists h0. split; [exact E1|].
        destruct m; [destruct E2 as (_ & _ & E2)|]; exact E2.
      - destruct Es as [E _]. exact E. }
    split; [exact Hb|]. split; [exact Hh|].
    destruct alg as [name|].
    + left. destruct Hb as (b0 & _ & ->). discriminate.
    + destruct hn as [[name m]|].
      * right. destruct Hh as (h0 & _ & ->). discriminate.
      * contradiction Hne; reflexivity.
Qed.

(** *** The table under lookup, insertion and removal *)

Lemma store_map (A : Type) (f : csession -> A) (l : fcrypt) (i : nat)
    (s s' : csession) :
  nth_error l i = Some s -> f s' = f s -> map f (store l i s') = map f l.
Proof.
  revert i. induction l as [|e l IH]; intros [|i] Hn Hf; simpl in *;
    try discriminate.
  - injection Hn as ->. rewrite Hf. reflexivity.
  - f_equal. exact (IH i Hn Hf).
Qed.

Lemma store_Forall (P : csession -> Prop) (l : fcrypt) (i : nat)
    (s' : csession) :
  P s' -> Forall P l -> Forall P (store l i s').
Proof.
  intros Hs Hl. revert i.
  induction Hl as [|e l He Hl IH]; intros [|i]; simpl;
    constructor; auto.
Qed.

Lemma list_del_sum (f : csession -> nat) (l : fcrypt) (i : nat)
    (e : csession) :
  nth_error l i = Some e ->
  list_sum (map f (list_del l i)) + f e = list_sum (map f l).
Proof.
  revert i. induction l as [|a l IH]; intros [|i] Hn; simpl in *;
    try discriminate.
  - injection Hn as ->. lia.
  - specialize (IH i Hn). lia.
Qed.

Lemma list_del_length (l : fcrypt) (i : nat) (e : csession) :
  nth_error l i = Some e -> S (List.length (list_del l i)) = List.length l.
Proof.
  revert i. induction l as [|a l IH]; intros [|i] Hn; simpl in *;
    try discriminate.
  - reflexivity.
  - f_equal. exact (IH i Hn).
Qed.

Lemma list_del_In (l : fcrypt) (i : nat) (e : csession) :
  In e (list_del l i) -> In e l.
Proof.
  revert i. induction l as [|a l IH]; intros [|i]; simpl; auto.
  intros [E|E]; [left; exact E | right; exact (IH i E)].
Qed.

Lemma cursor_shift (l : fcrypt) (x : Z) (k : nat) :
  list_for_each_entry_sid l x (S k)
  = match list_for_each_entry_sid l x k with
    | entry_at i => entry_at (S i)
    | p => p
    end.
Proof.
  revert k. induction l as [|e l IH]; intros k; simpl; [reflexivity|].
  destruct (Z.eqb (sid e) x); [reflexivity | apply IH].
Qed.

Lemma session_of_cons (e : csession) (l : fcrypt) (x : Z) :
  session_of (e :: l) x
  = if Z.eqb (sid e) x then Some (0, e)
    else option_map (fun p => (S (fst p), snd p)) (session_of l x).
Proof.
  unfold session_of. simpl.
  destruct (Z.eqb (sid e) x); [reflexivity|].
  rewrite cursor_shift.
  destruct (list_for_each_entry_sid l x 0) as [|i|]; simpl;
    try reflexivity.
  destruct (nth_error l i); reflexivity.
Qed.

Lemma session_of_find (l : fcrypt) (x : Z) :
  option_map snd (session_of l x) = find (fun e => Z.eqb (sid e) x) l.
Proof.
  induction l as [|e l IH]; [reflexivity|].
  rewrite session_of_cons. simpl.
  destruct (Z.eqb (sid e) x); [reflexivity|].
  rewrite <- IH. destruct (session_of l x) as [[i s]|]; reflexivity.
Qed.

Lemma session_of_absent (l : fcrypt) (x : Z) :
  ~ In x (sids l) -> session_of l x = None.
Proof.
  intros Hn. unfold session_of. rewrite (cursor_absent l x 0 Hn).
  reflexivity.
Qed.

Lemma find_list_del (l : fcrypt) (i : nat) (e : csession) (y : Z) :
  nth_error l i = Some e -> sid e <> y ->
  find (fun a => Z.eqb (sid a) y) (list_del l i)
  = find (fun a => Z.eqb (sid a) y) l.
Proof.
  revert i. induction l as [|a l IH]; intros [|i] Hn Hy; simpl in *;
    try discriminate.
  - injection Hn as ->.
    destruct (Z.eqb_spec (sid e) y) as [E|_]; [contradiction | reflexivity].
  - destruct (Z.eqb (sid a) y); [reflexivity | exact (IH i Hn Hy)].
Qed.

(** What a call of [crypto_runv] does to the table. *)
Lemma crypto_runv_table (env : run_env) (fcr : fcrypt) (copv : crypt_opv) :
  rv_fcr (crypto_runv env fcr copv) = fcr
  \/ exists i s s',
       valid_op (op copv) = true
       /\ session_of fcr (ses copv) = Some (i, s)
       /\ same_shape s s'
       /\ rv_fcr (crypto_runv env fcr copv) = store fcr i s'.
Proof.
  destruct (valid_op (op copv)) eqn:Hop.
  2:{ left. unfold crypto_runv. destruct (op copv); try discriminate Hop.
      reflexivity. }
  destruct (session_of fcr (ses copv)) as [[i s]|] eqn:Hs.
  - right. exists i, s.
    exists (cur (snd (fst (runv_body env copv s)))).
    split; [reflexivity|]. split; [reflexivity|].
    split; [apply runv_body_shape|].
    rewrite (crypto_runv_found env fcr copv i s Hop Hs). cbv zeta.
    cbn [rv_fcr].
    destruct (runv_exit_spec (fst (fst (fst (runv_body env copv s))))
                (snd (fst (runv_body env copv s)))) as (-> & _).
    reflexivity.
  - left. unfold crypto_runv, crypto_get_session_by_sid.
    unfold session_of in Hs.
    destruct (list_for_each_entry_sid fcr (ses copv) 0) as [|j|];
      simpl deref; destruct (op copv); try discriminate Hop; try reflexivity;
      try (destruct (page_ok env); reflexivity);
      destruct (nth_error fcr j); try discriminate Hs; reflexivity.
Qed.

(** X6: after a successful [crypto_create_session] the id stored in
    [sop->ses] names the new session: the lookup of [crypto_runv] finds it
    at the head of the list, every other id finds what it found before
    (one place further on), and no request on the new id makes
    [crypto_runv] run on with a pointer to no session. *)
Theorem created_session_is_found (env : create_env) (fcr : fcrypt)
    (sop : session_op) (r : create_result blkcipher hash_t) (s : Z) :
  crypto_create_session env fcr sop = Some r -> cr_ses r = Some s ->
  (exists e, cr_fcr r = e :: fcr /\ session_of (cr_fcr r) s = Some (0, e))
  /\ (forall x, x <> s ->
      session_of (cr_fcr r) x
      = option_map (fun p => (S (fst p), snd p)) (session_of fcr x))
  /\ (forall env' copv, ses copv = s ->
      exists ret, rv_outcome (crypto_runv env' (cr_fcr r) copv)
                  = returned ret).
Proof.
  intros Hc Hs.
  assert (Hr : cr_ret r = 0%Z).
  { destruct (Z.eq_dec (cr_ret r) 0) as [E|E]; [exact E|].
    destruct (create_session_failure env fcr sop r Hc E) as [_ F].
    rewrite F in Hs. discriminate Hs. }
  destruct (create_session_success env fcr sop r Hc Hr)
    as (s0 & e & Es & Ef & Eid & _).
  rewrite Es in Hs. injection Hs as ->.
  assert (Hfound : session_of (cr_fcr r) s = Some (0, e)).
  { rewrite Ef, session_of_cons, Eid, Z.eqb_refl. reflexivity. }
  split; [exists e; split; assumption|]. split.
  - intros x Hx. rewrite Ef, session_of_cons, Eid.
    destruct (Z.eqb_spec s x) as [E|_]; [|reflexivity].
    contradiction Hx. symmetry. exact E.
  - intros env' copv Hses.
    destruct (valid_op (op copv)) eqn:Hop.
    + rewrite <- Hses in Hfound.
      rewrite (crypto_runv_found env' (cr_fcr r) copv 0 e Hop Hfound).
      eexists. reflexivity.
    + exists (- EINVAL)%Z. unfold crypto_runv.
      destruct (op copv); try discriminate Hop. reflexivity.
Qed.

(** X7: in a table without duplicate ids, [crypto_finish_session] on an
    id leaves a table in which the lookup no longer finds that id, whether
    it was there or not, and in which every other id finds the session it
    found before, unchanged. *)
Theorem finished_session_is_gone (fcr : fcrypt) (x : Z) :
  NoDup (sids fcr) ->
  session_of (snd (fst (crypto_finish_session fcr x))) x = None
  /\ forall y, y <> x ->
       option_map snd (session_of (snd (fst (crypto_finish_session fcr x))) y)
       = option_map snd (session_of fcr y).
Proof.
  intros Hnd.
  destruct (in_dec Z.eq_dec x (sids fcr)) as [Hin|Hout].
  - destruct (crypto_finish_session_known_sid fcr x Hin)
      as (i & e & Hn & Hsid & _ & -> & Hgone).
    simpl. split; [apply session_of_absent; exact (Hgone Hnd)|].
    intros y Hy. rewrite !session_of_find.
    apply (find_list_del fcr i e y Hn). rewrite Hsid.
    intros E. apply Hy. symmetry. exact E.
  - unfold crypto_finish_session. rewrite (cursor_absent fcr x 0 Hout).
    simpl. split; [apply session_of_absent; exact Hout | reflexivity].
Qed.

(** *** What a call of crypto_runv records *)

Lemma events_emit (q : event -> bool) (e : event) (st : run_st) :
  q e = true ->
  Forall (fun a => q a = true) (log st) ->
  Forall (fun a => q a = true) (log (emit e st)).
Proof.
  intros He Hs. simpl. apply Forall_app. split; [exact Hs|].
  constructor; [exact He | constructor].
Qed.

Lemma body_events_closed (fl : Z) :
  turn_closed fl
    (fun st : run_st => Forall (fun a => is_body_event a = true) (log st)).
Proof.
  constructor.
  - intros st d Hs. apply events_emit; [reflexivity | exact Hs].
  - intros st h d _ _ Hs. apply events_emit; [reflexivity | exact Hs].
  - intros st c c' d _ _ Hs.
    split; apply events_emit; try reflexivity; exact Hs.
  - intros st d Hs. simpl. apply Forall_app. split; [exact Hs|].
    repeat constructor.
Qed.

Lemma runv_body_events (env : run_env) (copv : crypt_opv) (s : csession) :
  Forall (fun a => is_body_event a = true)
    (log (snd (fst (runv_body env copv s)))).
Proof.
  unfold runv_body, runv_init.
  destruct (page_ok env); simpl; [|constructor].
  assert (Hrest : forall bs st,
            Forall (fun a => is_body_event a = true) (log st) ->
            Forall (fun a => is_body_event a = true)
              (log (snd (fst (runv_rest env copv bs st))))).
  { intros bs st Hst. unfold runv_rest.
    pose proof (for_iovec_closed
                  (fun st' => Forall (fun a => is_body_event a = true)
                                (log st'))
                  (fun _ => True) env (op copv) bs
                  (fun v _ => body_events_closed (op_flags v))
                  (fun v st' E =>
                     eq_ind_r (fun l => Forall _ l) E
                       (proj1 (update_stats_frame env (op copv) v st')))
                  (iovec copv) st (Forall_True (iovec copv)) Hst) as Hf.
    destruct (for_iovec env (op copv) bs (iovec copv) st) as [[l r] st1].
    simpl in Hf. destruct l; simpl; try exact Hf.
    unfold runv_final. destruct (hash_tfm (cur st1)) as [h|]; [|exact Hf].
    destruct (crypto_hash_final h) as [[rf h'] out].
    destruct (negb (Z.eqb rf 0)); simpl.
    - apply Forall_app. split; [exact Hf | repeat constructor].
    - apply Forall_app. split; [|repeat constructor].
      apply Forall_app. split; [exact Hf | repeat constructor]. }
  destruct (hash_tfm s) as [h|].
  - destruct (crypto_hash_init h) as [r h']. simpl.
    destruct (negb (Z.eqb r 0)); simpl; [repeat constructor|].
    destruct (tfm s) as [c|]; [destruct (iv copv)|]; apply Hrest; simpl;
      repeat constructor.
  - simpl. destruct (tfm s) as [c|]; [destruct (iv copv)|]; apply Hrest;
      simpl; repeat constructor.
Qed.

Lemma crypto_runv_events (env : run_env) (fcr : fcrypt) (copv : crypt_opv) :
  Forall (fun a => is_run_event a = true)
    (rv_trace (crypto_runv env fcr copv)).
Proof.
  destruct (valid_op (op copv)) eqn:Hop.
  2:{ unfold crypto_runv. destruct (op copv); try discriminate Hop.
      constructor. }
  destruct (session_of fcr (ses copv)) as [[i s]|] eqn:Hs.
  - rewrite (crypto_runv_found env fcr copv i s Hop Hs). cbv zeta.
    cbn [rv_trace].
    destruct (runv_exit_spec (fst (fst (fst (runv_body env copv s))))
                (snd (fst (runv_body env copv s)))) as (_ & _ & ->).
    apply Forall_app. split; [repeat constructor|].
    apply Forall_app. split.
    + apply (Forall_impl _ (P := fun a => is_body_event a = true));
        [|apply runv_body_events].
      intros a. destruct a; simpl; congruence.
    + apply Forall_app.
      split; [destruct (fst (fst (fst (runv_body env copv s))))|];
        repeat constructor.
  - unfold crypto_runv, crypto_get_session_by_sid.
    unfold session_of in Hs.
    destruct (list_for_each_entry_sid fcr (ses copv) 0) as [|j|];
      simpl deref; destruct (op copv); try discriminate Hop;
      try (destruct (nth_error fcr j); try discriminate Hs);
      try (destruct (page_ok env)); simpl; repeat constructor.
Qed.

(** X8: the locks of a call of [crypto_runv] on a session of the table.
    On every path, the successful one and each of the error exits, the
    call takes the semaphore of the table and releases it before any work
    is done, having taken the semaphore of the session in between, and it
    releases the semaphore of the session once, as the last thing it does;
    no other semaphore operation occurs. *)
Theorem crypto_runv_semaphores (env : run_env) (fcr : fcrypt)
    (copv : crypt_opv) (i : nat) (s : csession) :
  valid_op (op copv) = true ->
  session_of fcr (ses copv) = Some (i, s) ->
  filter is_semaphore (rv_trace (crypto_runv env fcr copv))
  = [Ev_down_fcr; Ev_down_ses (ses copv); Ev_up_fcr; Ev_up_ses (ses copv)]
  /\ firstn 3 (rv_trace (crypto_runv env fcr copv))
     = [Ev_down_fcr; Ev_down_ses (ses copv); Ev_up_fcr]
  /\ last (rv_trace (crypto_runv env fcr copv)) Ev_down_fcr
     = Ev_up_ses (ses copv).
Proof.
  intros Hop Hs.
  rewrite (crypto_runv_found env fcr copv i s Hop Hs). cbv zeta.
  cbn [rv_trace].
  destruct (runv_exit_spec (fst (fst (fst (runv_body env copv s))))
              (snd (fst (runv_body env copv s)))) as (_ & _ & ->).
  destruct (runv_body_shape env copv s) as (-> & _).
  destruct (session_of_cursor _ _ _ _ Hs) as (_ & _ & ->).
  split; [|split].
  - rewrite !filter_app.
    rewrite (count_zero_filter is_semaphore
               (log (snd (fst (runv_body env copv s))))).
    + destruct (fst (fst (fst (runv_body env copv s)))); reflexivity.
    + apply (count_outside is_semaphore is_body_event);
        [apply runv_body_events|].
      intros a. destruct a; simpl; congruence.
  - reflexivity.
  - rewrite !app_assoc. apply last_last.
Qed.

(** X9: a call of [crypto_runv] that returns changes at most the session
    it names.  The sessions of the table stay the same in number and order,
    each with its id and with the transforms it had (a call neither creates
    nor removes a transform), and a session with another id is not touched
    at all. *)
Theorem crypto_runv_touches_one_session (env : run_env) (fcr : fcrypt)
    (copv : crypt_opv) (ret : Z) :
  rv_outcome (crypto_runv env fcr copv) = returned ret ->
  map (fun s => (sid s, held (tfm s), held (hash_tfm s)))
    (rv_fcr (crypto_runv env fcr copv))
  = map (fun s => (sid s, held (tfm s), held (hash_tfm s))) fcr
  /\ forall j e,
       nth_error fcr j = Some e -> sid e <> ses copv ->
       nth_error (rv_fcr (crypto_runv env fcr copv)) j = Some e.
Proof.
  intros _.
  destruct (crypto_runv_table env fcr copv)
    as [->|(i & s & s' & _ & Hs & (S1 & S2 & S3) & ->)].
  - split; [reflexivity | intros j e Hn _; exact Hn].
  - destruct (session_of_cursor _ _ _ _ Hs) as (_ & Hn & Hsid).
    split.
    + apply (store_map _ _ fcr i s s' Hn). rewrite S1, S2, S3. reflexivity.
    + intros j e Hj Hne. rewrite nth_error_store_other; [exact Hj|].
      intros ->. rewrite Hn in Hj. injection Hj as ->.
      contradiction.
Qed.

(** X10: every session of a table that the ioctls can build has a cipher
    transform or a hash transform (or both): no session is created without
    one, and none loses one while it is in the table. *)
Theorem sessions_have_a_transform (fcr : fcrypt) :
  reachable fcr ->
  Forall (fun s => tfm s <> None \/ hash_tfm s <> None) fcr.
Proof.
  induction 1 as [|env sop fcr fcr' _ IH Hc|x fcr fcr' _ IH Hf
                  |env copv ret fcr fcr' _ IH _ Hr].
  - constructor.
  - destruct (crypto_create_session env fcr sop) as [r|] eqn:E;
      [|discriminate Hc].
    simpl in Hc. injection Hc as <-.
    destruct (create_session_inv env fcr sop r E)
      as [->|(alg & hn & Ea & Eh & Hne
              & [Ec|(b & t1 & Ec & [Es|(h & t2 & Es & K)])])].
    + exact IH.
    + apply setup_cipher_inr in Ec. destruct Ec as (_ & -> & _). exact IH.
    + pose proof (setup_cipher_inl _ _ _ _ _ Ec) as (A1 & A2 & A3 & A4).
      apply (setup_hash_inr _ _ _ _ _ _ A1 A2 A3 A4) in Es.
      destruct Es as (_ & -> & _). exact IH.
    + destruct K as [[_ ->]|(_ & r0 & more & s & t4 & _ & _ & ->)];
        [exact IH|].
      simpl. constructor; [|exact IH]. simpl.
      apply setup_cipher_object in Ec. apply setup_hash_object in Es.
      destruct alg as [name|].
      * left. destruct Ec as (b0 & _ & _ & _ & -> & _). discriminate.
      * destruct hn as [[name m]|]; [|contradiction Hne; reflexivity].
        right. destruct Es as (h0 & _ & _ & E2).
        destruct m; [destruct E2 as (_ & _ & ->) | rewrite E2]; discriminate.
  - subst fcr'. unfold crypto_finish_session.
    destruct (list_for_each_entry_sid fcr x 0) as [|i|]; simpl; try exact IH.
    destruct (nth_error fcr i); simpl; [|exact IH].
    rewrite Forall_forall in *. intros a Ha.
    apply IH. exact (list_del_In fcr i a Ha).
  - subst fcr'.
    destruct (crypto_runv_table env fcr copv)
      as [->|(i & s & s' & _ & Hs & (S1 & S2 & S3) & ->)]; [exact IH|].
    destruct (session_of_cursor _ _ _ _ Hs) as (_ & Hn & _).
    apply (store_Forall _ fcr i s'); [|exact IH].
    rewrite Forall_forall in IH.
    pose proof (IH s (nth_error_In fcr i Hn)) as Hs0.
    destruct (tfm s), (tfm s'), (hash_tfm s), (hash_tfm s');
      try discriminate S2; try discriminate S3;
      try (left; discriminate); try (right; discriminate).
    destruct Hs0 as [F|F]; contradiction F; reflexivity.
Qed.

(** *** Handles and session memory over the life of an open file *)

Lemma destroy_session_counts (e : csession) :
  count is_free_blkcipher (crypto_destroy_session e) = held (tfm e)
  /\ count is_free_hash (crypto_destroy_session e) = held (hash_tfm e)
  /\ count is_alloc_blkcipher (crypto_destroy_session e) = 0
  /\ count is_alloc_hash (crypto_destroy_session e) = 0
  /\ count is_kmalloc_ses (crypto_destroy_session e) = 0
  /\ filter is_kfree_ses (crypto_destroy_session e) = [Ev_kfree_ses (sid e)]
  /\ filter is_semaphore (crypto_destroy_session e)
     = [Ev_down_ses (sid e); Ev_up_ses (sid e)].
Proof.
  unfold crypto_destroy_session, count.
  destruct (tfm e), (hash_tfm e); simpl; repeat split; reflexivity.
Qed.

Lemma destroy_each_counts (fcr : fcrypt) :
  count is_free_blkcipher (destroy_each fcr) = held_ciphers fcr
  /\ count is_free_hash (destroy_each fcr) = held_hashes fcr
  /\ count is_alloc_blkcipher (destroy_each fcr) = 0
  /\ count is_alloc_hash (destroy_each fcr) = 0
  /\ count is_kmalloc_ses (destroy_each fcr) = 0
  /\ filter is_kfree_ses (destroy_each fcr) = map Ev_kfree_ses (sids fcr)
  /\ filter is_semaphore (destroy_each fcr)
     = flat_map (fun s => [Ev_down_ses (sid s); Ev_up_ses (sid s)]) fcr.
Proof.
  induction fcr as [|e l IH]; [repeat split; reflexivity|].
  destruct IH as (I1 & I2 & I3 & I4 & I5 & I6 & I7).
  destruct (destroy_session_counts e) as (D1 & D2 & D3 & D4 & D5 & D6 & D7).
  unfold held_ciphers, held_hashes in *.
  change (destroy_each (e :: l))
    with ([Ev_list_del (sid e)] ++ crypto_destroy_session e ++ destroy_each l).
  rewrite !count_app, !filter_app, D1, D2, D3, D4, D5, D6, D7,
    I1, I2, I3, I4, I5, I6, I7.
  unfold count. simpl. repeat split; reflexivity.
Qed.

Lemma destroy_each_trace (fcr : fcrypt) :
  destroy_each fcr
  = flat_map
      (fun s =>
         [Ev_list_del (sid s); Ev_down_ses (sid s)]
         ++ (match tfm s with Some _ => [Ev_free_blkcipher] | None => [] end)
         ++ (match hash_tfm s with Some _ => [Ev_free_hash] | None => [] end)
         ++ [Ev_up_ses (sid s); Ev_kfree_ses (sid s)]) fcr.
Proof.
  induction fcr as [|e l IH]; [reflexivity|].
  change (destroy_each (e :: l))
    with ([Ev_list_del (sid e)] ++ crypto_destroy_session e ++ destroy_each l).
  rewrite IH. unfold crypto_destroy_session. cbn [flat_map].
  rewrite <- !app_assoc. reflexivity.
Qed.

(** X11: closing the file tears the whole table down.  [cryptodev_release]
    returns 0 and clears [filp->private_data].  For a file with a table,
    what it does is, in this order: take the semaphore of the table; for
    each session in list order, unlink it, take its semaphore, release its
    cipher transform if it has one, release its hash transform if it has
    one, release its semaphore, and only then free the session; release the
    semaphore of the table.  So every session is freed once, and exactly
    the transforms the sessions hold are released, each between the
    acquisition and the release of the semaphore of its session.  For a
    file without a table it does nothing. *)
Theorem release_frees_every_session (fcr : fcrypt) :
  cryptodev_release (Some fcr)
  = (0%Z, None,
     [Ev_down_fcr]
     ++ flat_map
          (fun s =>
             [Ev_list_del (sid s); Ev_down_ses (sid s)]
             ++ (match tfm s with
                 | Some _ => [Ev_free_blkcipher]
                 | None => []
                 end)
             ++ (match hash_tfm s with
                 | Some _ => [Ev_free_hash]
                 | None => []
                 end)
             ++ [Ev_up_ses (sid s); Ev_kfree_ses (sid s)]) fcr
     ++ [Ev_up_fcr])
  /\ filter is_kfree_ses (snd (cryptodev_release (Some fcr)))
     = map Ev_kfree_ses (sids fcr)
  /\ count is_free_blkcipher (snd (cryptodev_release (Some fcr)))
     = held_ciphers fcr
  /\ count is_free_hash (snd (cryptodev_release (Some fcr)))
     = held_hashes fcr
  /\ filter is_semaphore (snd (cryptodev_release (Some fcr)))
     = [Ev_down_fcr]
       ++ flat_map (fun s => [Ev_down_ses (sid s); Ev_up_ses (sid s)]) fcr
       ++ [Ev_up_fcr]
  /\ cryptodev_release (@None fcrypt) = (0%Z, None, []).
Proof.
  split.
  { unfold cryptodev_release, crypto_finish_all_sessions.
    rewrite destroy_each_trace. reflexivity. }
  destruct (destroy_each_counts fcr) as (I1 & I2 & _ & _ & _ & I6 & I7).
  change (snd (cryptodev_release (Some fcr)))
    with ([Ev_down_fcr] ++ destroy_each fcr ++ [Ev_up_fcr]).
  rewrite !count_app, !filter_app, I1, I2, I6, I7. unfold count. simpl.
  rewrite !app_nil_r, !Nat.add_0_r. repeat split; reflexivity.
Qed.

Lemma restart_counts (p : event -> bool) (fcr : fcrypt) (r0 : Z)
    (more : list Z) (t t' : trace) (s : Z) :
  (forall v, p (Ev_get_random_bytes v) = false) ->
  restart fcr r0 more t = Some (s, t') -> count p t' = count p t.
Proof.
  intros Hp Hr.
  destruct (restart_trace fcr r0 more t t' s Hr) as (redraws & _ & _ & -> & _).
  clear Hr. rewrite count_app.
  assert (E : count p (map Ev_get_random_bytes redraws) = 0).
  { unfold count. induction redraws as [|v l IH]; simpl; [reflexivity|].
    rewrite Hp. exact IH. }
  rewrite E. lia.
Qed.

(** The handles and the session memory of one call of
    [crypto_create_session]. *)
Lemma create_session_handles (env : create_env) (fcr : fcrypt)
    (sop : session_op) (r : create_result blkcipher hash_t) :
  crypto_create_session env fcr sop = Some r ->
  count is_alloc_hash (cr_trace r) + held_hashes fcr
  = count is_free_hash (cr_trace r) + held_hashes (cr_fcr r)
  /\ count is_free_blkcipher (cr_trace r) + held_ciphers (cr_fcr r)
     <= count is_alloc_blkcipher (cr_trace r) + held_ciphers fcr
  /\ count is_kmalloc_ses (cr_trace r) + List.length fcr
     = count is_kfree_ses (cr_trace r) + List.length (cr_fcr r).
Proof.
  intros Hc.
  assert (Hout : forall t, Forall (fun e => is_handle_event e = true) t ->
            count is_kmalloc_ses t = 0 /\ count is_kfree_ses t = 0).
  { intros t Ht.
    split; apply (count_outside _ is_handle_event t Ht);
      intros e; destruct e; simpl; congruence. }
  destruct (create_session_inv env fcr sop r Hc)
    as [->|(alg & hn & Ea & Eh & _
            & [Ec|(b & t1 & Ec & [Es|(h & t2 & Es & K)])])].
  - simpl. unfold count. simpl. lia.
  - destruct (Hout _ (setup_cipher_inr_events _ _ _ _ Ec)) as [K1 K2].
    apply setup_cipher_inr in Ec.
    destruct Ec as (_ & -> & _ & B & A & F). lia.
  - pose proof (setup_cipher_inl _ _ _ _ _ Ec) as (A1 & A2 & A3 & A4).
    destruct (Hout _ (setup_hash_inr_events _ _ _ _ _ _
                        (setup_cipher_inl_events _ _ _ _ _ Ec) Es))
      as [K1 K2].
    apply (setup_hash_inr _ _ _ _ _ _ A1 A2 A3 A4) in Es.
    destruct Es as (_ & -> & _ & Bh & [Bb | (L1 & L2 & _)]); lia.
  - pose proof (setup_cipher_inl _ _ _ _ _ Ec) as (A1 & A2 & A3 & A4).
    pose proof (setup_hash_inl _ _ _ _ _ _ _ A1 A2 A3 A4 Es)
      as (B1 & B2 & B3 & B4).
    pose proof (setup_hash_inl_events _ _ _ _ _ _ _
                  (setup_cipher_inl_events _ _ _ _ _ Ec) Es) as Hev.
    destruct (Hout _ Hev) as [K1 K2].
    destruct K as [[Hk ->]|(Hk & r0 & more & s & t4 & _ & Hr & ->)].
    + cbn [cr_trace cr_fcr create_error].
      rewrite !count_app, B1, B2, B3, B4, K1, K2.
      destruct b, h; unfold count; simpl; lia.
    + simpl. unfold held_hashes, held_ciphers. simpl.
      rewrite !count_app.
      rewrite (restart_counts is_alloc_hash _ _ _ _ _ _
                 (fun _ => eq_refl) Hr),
        (restart_counts is_free_hash _ _ _ _ _ _ (fun _ => eq_refl) Hr),
        (restart_counts is_alloc_blkcipher _ _ _ _ _ _
           (fun _ => eq_refl) Hr),
        (restart_counts is_free_blkcipher _ _ _ _ _ _
           (fun _ => eq_refl) Hr),
        (restart_counts is_kmalloc_ses _ _ _ _ _ _ (fun _ => eq_refl) Hr),
        (restart_counts is_kfree_ses _ _ _ _ _ _ (fun _ => eq_refl) Hr).
      rewrite !count_app, B1, B2, B3, B4, K1, K2.
      unfold count. simpl. lia.
Qed.

Lemma finish_session_handles (fcr : fcrypt) (x : Z) :
  let fcr' := snd (fst (crypto_finish_session fcr x)) in
  let t := snd (crypto_finish_session fcr x) in
  count is_alloc_hash t = 0 /\ count is_alloc_blkcipher t = 0
  /\ count is_kmalloc_ses t = 0
  /\ count is_free_hash t + held_hashes fcr' = held_hashes fcr
  /\ count is_free_blkcipher t + held_ciphers fcr' = held_ciphers fcr
  /\ count is_kfree_ses t + List.length fcr' = List.length fcr.
Proof.
  cbv zeta.
  destruct (in_dec Z.eq_dec x (sids fcr)) as [Hin|Hout].
  - destruct (crypto_finish_session_known_sid fcr x Hin)
      as (i & e & Hn & Hsid & _ & -> & _).
    cbn [fst snd].
    destruct (destroy_session_counts e) as (D1 & D2 & D3 & D4 & D5 & D6 & _).
    pose proof (list_del_sum (fun s => held (tfm s)) fcr i e Hn) as S1.
    pose proof (list_del_sum (fun s => held (hash_tfm s)) fcr i e Hn) as S2.
    pose proof (list_del_length fcr i e Hn) as S3.
    unfold held_hashes, held_ciphers.
    assert (D6' : count is_kfree_ses (crypto_destroy_session e) = 1)
      by (unfold count; rewrite D6; reflexivity).
    rewrite !count_app, D1, D2, D3, D4, D5, D6'.
    unfold count. simpl. lia.
  - unfold crypto_finish_session. rewrite (cursor_absent fcr x 0 Hout).
    unfold count. simpl. lia.
Qed.

Lemma crypto_runv_handles (env : run_env) (fcr : fcrypt) (copv : crypt_opv) :
  let fcr' := rv_fcr (crypto_runv env fcr copv) in
  let t := rv_trace (crypto_runv env fcr copv) in
  count is_alloc_hash t = 0 /\ count is_alloc_blkcipher t = 0
  /\ count is_free_hash t = 0 /\ count is_free_blkcipher t = 0
  /\ count is_kmalloc_ses t = 0 /\ count is_kfree_ses t = 0
  /\ held_hashes fcr' = held_hashes fcr
  /\ held_ciphers fcr' = held_ciphers fcr
  /\ List.length fcr' = List.length fcr.
Proof.
  cbv zeta.
  pose proof (crypto_runv_events env fcr copv) as Hev.
  assert (Hz : forall p, (forall e, is_run_event e = true -> p e = false) ->
                 count p (rv_trace (crypto_runv env fcr copv)) = 0).
  { intros p Hp. exact (count_outside p is_run_event _ Hev Hp). }
  repeat (split; [apply Hz; intros e; destruct e; simpl; congruence|]).
  destruct (crypto_runv_table env fcr copv)
    as [->|(i & s & s' & _ & Hs & (S1 & S2 & S3) & ->)];
    [repeat split; reflexivity|].
  destruct (session_of_cursor _ _ _ _ Hs) as (_ & Hn & _).
  unfold held_hashes, held_ciphers.
  rewrite (store_map _ (fun a => held (hash_tfm a)) fcr i s s' Hn S3),
    (store_map _ (fun a => held (tfm a)) fcr i s s' Hn S2), length_store.
  repeat split; reflexivity.
Qed.

(** X12: the accounts of an open file.  At every moment of its life (any
    sequence of session creations, removals and crypto calls that return)
    the hash transforms allocated so far are the ones released so far plus
    the ones the sessions of the table hold, and the sessions allocated are
    the ones freed plus the ones in the table; no cipher transform was
    released that had not been allocated, the table included (no double
    release).  So when the file is then closed, every hash transform and
    every session it ever allocated has been released, and no cipher
    transform more often than allocated. *)
Theorem handles_are_conserved (fcr : fcrypt) (T : trace) :
  execution fcr T ->
  (count is_alloc_hash T = count is_free_hash T + held_hashes fcr
   /\ count is_kmalloc_ses T = count is_kfree_ses T + List.length fcr
   /\ count is_free_blkcipher T + held_ciphers fcr
      <= count is_alloc_blkcipher T)
  /\ (count is_alloc_hash (T ++ snd (cryptodev_release (Some fcr)))
      = count is_free_hash (T ++ snd (cryptodev_release (Some fcr)))
      /\ count is_kmalloc_ses (T ++ snd (cryptodev_release (Some fcr)))
         = count is_kfree_ses (T ++ snd (cryptodev_release (Some fcr)))
      /\ count is_free_blkcipher (T ++ snd (cryptodev_release (Some fcr)))
         <= count is_alloc_blkcipher
              (T ++ snd (cryptodev_release (Some fcr)))).
Proof.
  intros Hex.
  assert (Hinv : count is_alloc_hash T = count is_free_hash T + held_hashes fcr
                 /\ count is_kmalloc_ses T
                    = count is_kfree_ses T + List.length fcr
                 /\ count is_free_blkcipher T + held_ciphers fcr
                    <= count is_alloc_blkcipher T).
  { induction Hex as [fcr Ho|env sop fcr fcr' T T' _ IH Hc
                      |x fcr fcr' T T' _ IH Hf
                      |env copv ret fcr fcr' T T' _ IH _ Hr].
    - injection Ho as <-.
      unfold count, held_hashes, held_ciphers. simpl. lia.
    - destruct (crypto_create_session env fcr sop) as [r|] eqn:E;
        [|discriminate Hc].
      simpl in Hc. injection Hc as <- <-.
      destruct (create_session_handles env fcr sop r E) as (C1 & C2 & C3).
      rewrite !count_app. lia.
    - injection Hf as <- <-.
      destruct (finish_session_handles fcr x) as (F1 & F2 & F3 & F4 & F5 & F6).
      rewrite !count_app. lia.
    - injection Hr as <- <-.
      destruct (crypto_runv_handles env fcr copv)
        as (R1 & R2 & R3 & R4 & R5 & R6 & R7 & R8 & R9).
      rewrite !count_app, R7, R8, R9. lia. }
  split; [exact Hinv|].
  destruct Hinv as (I1 & I2 & I3).
  destruct (destroy_each_counts fcr) as (D1 & D2 & D3 & D4 & D5 & D6 & _).
  change (snd (cryptodev_release (Some fcr)))
    with ([Ev_down_fcr] ++ destroy_each fcr ++ [Ev_up_fcr]).
  assert (D6' : count is_kfree_ses (destroy_each fcr) = List.length fcr)
    by (unfold count; rewrite D6; unfold sids; rewrite !length_map;
        reflexivity).
  rewrite !count_app, D1, D2, D3, D4, D5, D6'.
  unfold count in *. simpl. lia.
Qed.

(** *** The statistics *)

Lemma stats_closed (fl : Z) (x : Z * Z * Z * Z) :
  turn_closed fl (fun st : run_st => stats_of (cur st) = x).
Proof.
  constructor; simpl; auto.
Qed.

Lemma run_segment_stats (o : cop) (v : crypt_iovec) (st : run_st) :
  stats_of (cur (snd (run_segment o v st))) = stats_of (cur st).
Proof.
  apply (run_segment_inv (fun st' => stats_of (cur st') = stats_of (cur st)));
    [|reflexivity].
  intros chunk st0 E.
  exact (chunk_body_inv (op_flags v) _ o chunk st0
           (stats_closed (op_flags v) _) E).
Qed.

Lemma runv_init_stats (env : run_env) (copv : crypt_opv) (s : csession) :
  match runv_init env copv s with
  | inl (_, _, st) => stats_of (cur st) = stats_of s
  | inr (_, st) => stats_of (cur st) = stats_of s
  end.
Proof.
  unfold runv_init. destruct (page_ok env); simpl; [|reflexivity].
  destruct (hash_tfm s) as [h|]; simpl.
  - destruct (crypto_hash_init h) as [r h']. simpl.
    destruct (negb (Z.eqb r 0)); simpl; [reflexivity|].
    destruct (tfm s); [destruct (iv copv)|]; reflexivity.
  - destruct (tfm s); [destruct (iv copv)|]; reflexivity.
Qed.

Lemma runv_final_stats (st : run_st) :
  stats_of (cur (snd (fst (runv_final st)))) = stats_of (cur st).
Proof.
  unfold runv_final. destruct (hash_tfm (cur st)) as [h|]; [|reflexivity].
  destruct (crypto_hash_final h) as [[r h'] out].
  destruct (negb (Z.eqb r 0)); reflexivity.
Qed.

Lemma for_iovec_stats_off (env : run_env) (o : cop) (blocksize : nat)
    (vs : list crypt_iovec) (st : run_st) :
  enable_stats env = false ->
  stats_of (cur (snd (for_iovec env o blocksize vs st))) = stats_of (cur st).
Proof.
  intros Hoff.
  apply (for_iovec_closed (fun st' => stats_of (cur st') = stats_of (cur st))
           (fun _ => True)).
  - intros v _. apply stats_closed.
  - intros v st' E. unfold update_stats. rewrite Hoff. exact E.
  - apply Forall_True.
  - reflexivity.
Qed.

Lemma max_step (m n : Z) : (if (m <? n)%Z then n else m) = Z.max m n.
Proof.
  destruct (Z.ltb_spec m n); lia.
Qed.

Lemma update_stats_on (env : run_env) (o : cop) (v : crypt_iovec)
    (st : run_st) :
  enable_stats env = true ->
  stat_encrypt (cur (update_stats env o v st))
  = match o with
    | COP_ENCRYPT => ((stat_encrypt (cur st) + Z.of_nat (len v)) mod 2 ^ 64)%Z
    | _ => stat_encrypt (cur st)
    end
  /\ stat_decrypt (cur (update_stats env o v st))
     = match o with
       | COP_DECRYPT =>
           ((stat_decrypt (cur st) + Z.of_nat (len v)) mod 2 ^ 64)%Z
       | _ => stat_decrypt (cur st)
       end
  /\ stat_max_size (cur (update_stats env o v st))
     = Z.max (stat_max_size (cur st)) (Z.of_nat (len v))
  /\ stat_count (cur (update_stats env o v st))
     = ((stat_count (cur st) + 1) mod 2 ^ BITS_PER_LONG)%Z.
Proof.
  intros Hon. unfold update_stats. rewrite Hon.
  cbn [cur stat_encrypt stat_decrypt stat_max_size stat_count].
  rewrite max_step. repeat split; reflexivity.
Qed.

Lemma for_iovec_stats_on (env : run_env) (o : cop) (blocksize : nat)
    (vs : list crypt_iovec) :
  enable_stats env = true -> valid_op o = true ->
  forall st ret st',
    for_iovec env o blocksize vs st = (fall_through, ret, st') ->
    (match o with
     | COP_ENCRYPT =>
         (stat_encrypt (cur st') mod 2 ^ 64
          = (stat_encrypt (cur st) + Z.of_nat (list_sum (map len vs)))
            mod 2 ^ 64)%Z
         /\ stat_decrypt (cur st') = stat_decrypt (cur st)
     | _ =>
         (stat_decrypt (cur st') mod 2 ^ 64
          = (stat_decrypt (cur st) + Z.of_nat (list_sum (map len vs)))
            mod 2 ^ 64)%Z
         /\ stat_encrypt (cur st') = stat_encrypt (cur st)
     end)
    /\ stat_max_size (cur st')
       = fold_left Z.max (map (fun v => Z.of_nat (len v)) vs)
           (stat_max_size (cur st))
    /\ (stat_count (cur st') mod 2 ^ BITS_PER_LONG
        = (stat_count (cur st) + Z.of_nat (List.length vs))
          mod 2 ^ BITS_PER_LONG)%Z.
Proof.
  intros Hon Hop. induction vs as [|v vs IH]; intros st ret st' Hfor.
  - simpl in Hfor. injection Hfor as _ <-. simpl.
    rewrite !Z.add_0_r. destruct o; auto.
  - simpl in Hfor.
    destruct (misaligned blocksize v st); [discriminate Hfor|].
    pose proof (run_segment_stats o v st) as Hseg.
    destruct (run_segment o v st) as [r st1]. simpl in Hseg.
    destruct (negb (Z.eqb r 0)); [discriminate Hfor|].
    specialize (IH _ _ _ Hfor). clear Hfor.
    unfold stats_of in Hseg. injection Hseg as E1 E2 E3 E4.
    destruct (update_stats_on env o v st1 Hon) as (U1 & U2 & U3 & U4).
    rewrite U1, U2, U3, U4, E1, E2, E3, E4 in IH.
    destruct IH as (IA & IB & IC).
    simpl map. simpl list_sum. simpl List.length. simpl fold_left.
    rewrite Nat2Z.inj_add, Nat2Z.inj_succ.
    split; [|split].
    + destruct o; try discriminate Hop; destruct IA as [IA1 IA2];
        (split; [|exact IA2]); rewrite IA1, Zplus_mod_idemp_l;
        f_equal; lia.
    + exact IB.
    + rewrite IC, Zplus_mod_idemp_l. f_equal. lia.
Qed.

(** X13: the usage statistics of a session after a call of
    [crypto_runv] on it.  With [enable_stats] off, no call changes any of
    the four fields, whatever its outcome.  With [enable_stats] on, a call
    that returns 0 has added the lengths of all its segments to the counter
    of its own direction (modulo [2^64]) and left the counter of the other
    direction alone, has raised [stat_max_size] to the longest segment
    length if that is larger, and has added the number of segments (not 1
    per call) to [stat_count] (modulo [2^BITS_PER_LONG]). *)
Theorem statistics_of_a_call (env : run_env) (fcr : fcrypt)
    (copv : crypt_opv) (i : nat) (s : csession) :
  valid_op (op copv) = true ->
  session_of fcr (ses copv) = Some (i, s) ->
  exists s',
    session_of (rv_fcr (crypto_runv env fcr copv)) (ses copv) = Some (i, s')
    /\ (enable_stats env = false -> stats_of s' = stats_of s)
    /\ (enable_stats env = true ->
        rv_outcome (crypto_runv env fcr copv) = returned 0%Z ->
        (match op copv with
         | COP_ENCRYPT =>
             (stat_encrypt s' mod 2 ^ 64
              = (stat_encrypt s
                 + Z.of_nat (list_sum (map len (iovec copv)))) mod 2 ^ 64)%Z
             /\ stat_decrypt s' = stat_decrypt s
         | _ =>
             (stat_decrypt s' mod 2 ^ 64
              = (stat_decrypt s
                 + Z.of_nat (list_sum (map len (iovec copv)))) mod 2 ^ 64)%Z
             /\ stat_encrypt s' = stat_encrypt s
         end)
        /\ stat_max_size s'
           = fold_left Z.max (map (fun v => Z.of_nat (len v)) (iovec copv))
               (stat_max_size s)
        /\ (stat_count s' mod 2 ^ BITS_PER_LONG
            = (stat_count s + Z.of_nat (List.length (iovec copv)))
              mod 2 ^ BITS_PER_LONG)%Z).
Proof.
  intros Hop Hs.
  exists (cur (snd (fst (runv_body env copv s)))).
  split; [|split].
  - rewrite (crypto_runv_found env fcr copv i s Hop Hs). cbv zeta.
    cbn [rv_fcr].
    destruct (runv_exit_spec (fst (fst (fst (runv_body env copv s))))
                (snd (fst (runv_body env copv s)))) as (-> & _).
    apply (session_of_store fcr (ses copv) i s _ Hs).
    apply runv_body_shape.
  - intros Hoff. unfold runv_body.
    pose proof (runv_init_stats env copv s) as Hi.
    destruct (runv_init env copv s) as [[[l r] st]|[bs st0]]; [exact Hi|].
    unfold runv_rest.
    pose proof (for_iovec_stats_off env (op copv) bs (iovec copv) st0 Hoff)
      as Hf.
    destruct (for_iovec env (op copv) bs (iovec copv) st0) as [[l r] st1].
    simpl in Hf.
    destruct l; simpl; try (rewrite Hf; exact Hi).
    rewrite runv_final_stats, Hf. exact Hi.
  - intros Hon Hret.
    destruct (crypto_runv_success env fcr copv i s Hop Hs Hret)
      as (bs & st0 & stN & Hinit & Hfor & _).
    pose proof (runv_init_stats env copv s) as Hi. rewrite Hinit in Hi.
    unfold stats_of in Hi. injection Hi as E1 E2 E3 E4.
    pose proof (for_iovec_stats_on env (op copv) bs (iovec copv) Hon Hop
                  st0 0%Z stN Hfor) as Hst.
    rewrite E1, E2, E3, E4 in Hst.
    pose proof (runv_final_stats stN) as Hfin.
    unfold runv_body. rewrite Hinit. unfold runv_rest. rewrite Hfor.
    unfold stats_of in Hfin. injection Hfin as -> -> -> ->.
    exact Hst.
Qed.

(** *** The chunks of a segment *)

Lemma cipher_inputs_app (t1 t2 : trace) :
  cipher_inputs (t1 ++ t2) = cipher_inputs t1 ++ cipher_inputs t2.
Proof.
  induction t1 as [|e t1 IH]; [reflexivity|].
  destruct e; simpl; rewrite IH; reflexivity.
Qed.

Lemma no_data_events (t : trace) :
  Forall (fun e => is_data_event e = false) t ->
  from_user t = [] /\ cipher_inputs t = [] /\ to_dst t = []
  /\ hash_inputs t = [].
Proof.
  induction 1 as [|e t He _ IH]; [repeat split; reflexivity|].
  destruct e; simpl in *; try discriminate He; exact IH.
Qed.

(** The invariant of [while (nbytes > 0)] when it depends on the chunk:
    [I] holds of what is still to be read, [C] of every chunk cut off. *)
Lemma while_nbytes_chunks (P : run_st -> Prop) (I C : list byte -> Prop)
    (o : cop) (fl : Z) (bufsize : nat) (Hb : 0 < bufsize) :
  (forall chunk st, C chunk -> P st -> P (snd (chunk_body o fl chunk st))) ->
  (forall rest,
     I rest -> rest <> [] ->
     C (firstn (current_len_of bufsize (List.length rest)) rest)
     /\ I (skipn (current_len_of bufsize (List.length rest)) rest)) ->
  forall rest st,
    I rest -> P st -> P (snd (while_nbytes o fl bufsize Hb rest st)).
Proof.
  intros Hstep Hcut rest.
  remember (List.length rest) as n eqn:Hn. revert rest Hn.
  induction n as [n IH] using lt_wf_ind. intros rest Hn st HI HP.
  destruct rest as [|b bs]; [rewrite while_nbytes_equation_1; exact HP|].
  rewrite while_nbytes_cons. cbv zeta.
  destruct (Hcut (b :: bs) HI ltac:(discriminate)) as [HC HI'].
  pose proof (Hstep _ st HC HP) as HP1.
  destruct (chunk_body o fl _ st) as [ret st1]. simpl in HP1 |- *.
  destruct (negb (Z.eqb ret 0)); [exact HP1|].
  apply (IH (List.length (skipn (current_len_of bufsize (S (List.length bs)))
                            (b :: bs)))); [|reflexivity | exact HI' | exact HP1].
  subst n. rewrite length_skipn. unfold current_len_of.
  destruct (bufsize <? _); simpl List.length; lia.
Qed.

Lemma run_segment_chunks (P : run_st -> Prop) (I C : list byte -> Prop)
    (o : cop) (v : crypt_iovec) :
  (forall chunk st,
     C chunk -> P st -> P (snd (chunk_body o (op_flags v) chunk st))) ->
  (0 < len v ->
   forall rest,
     I rest -> rest <> [] ->
     C (firstn (current_len_of (bufsize_of (len v)) (List.length rest)) rest)
     /\ I (skipn (current_len_of (bufsize_of (len v)) (List.length rest))
             rest)) ->
  I (src v) -> forall st, P st -> P (snd (run_segment o v st)).
Proof.
  intros Hstep Hcut HI st HP. unfold run_segment.
  destruct (lt_dec 0 (len v)) as [Hn|]; [|exact HP].
  apply (while_nbytes_chunks P I C); auto.
Qed.

Lemma for_iovec_segments (P : run_st -> Prop) (env : run_env) (o : cop)
    (blocksize : nat) :
  (forall v st,
     P st -> misaligned blocksize v st = false ->
     P (snd (run_segment o v st))) ->
  (forall v st, P st -> P (update_stats env o v st)) ->
  forall vs st, P st -> P (snd (for_iovec env o blocksize vs st)).
Proof.
  intros Hseg Hstat vs. induction vs as [|v vs IH]; intros st HP.
  - exact HP.
  - simpl. destruct (misaligned blocksize v st) eqn:Hm; [exact HP|].
    pose proof (Hseg v st HP Hm) as H1.
    destruct (run_segment o v st) as [ret st1]. simpl in H1.
    destruct (negb (Z.eqb ret 0)); [exact H1|].
    apply IH. apply Hstat. exact H1.
Qed.

Lemma current_len_le (bufsize n : nat) :
  current_len_of bufsize n <= n /\ current_len_of bufsize n <= bufsize
  /\ (0 < bufsize -> 0 < n -> 0 < current_len_of bufsize n).
Proof.
  unfold current_len_of. destruct (Nat.ltb_spec bufsize n); lia.
Qed.

Lemma bufsize_of_le (n : nat) : bufsize_of n <= PAGE_SIZE.
Proof.
  unfold bufsize_of. destruct (Nat.ltb_spec PAGE_SIZE n); lia.
Qed.

(** What happens before and after the [for] loop records no data event
    and stores nothing through [dst]. *)
Lemma runv_body_log (env : run_env) (copv : crypt_opv) (s : csession) :
  (Forall (fun e => is_data_event e = false)
     (log (snd (fst (runv_body env copv s))))
   /\ dst (snd (fst (runv_body env copv s))) = [])
  \/ exists bs st0 t,
       runv_init env copv s = inr (bs, st0)
       /\ Forall (fun e => is_data_event e = false) (log st0)
       /\ dst st0 = []
       /\ Forall (fun e => is_data_event e = false) t
       /\ log (snd (fst (runv_body env copv s)))
          = log (snd (for_iovec env (op copv) bs (iovec copv) st0)) ++ t
       /\ dst (snd (fst (runv_body env copv s)))
          = dst (snd (for_iovec env (op copv) bs (iovec copv) st0)).
Proof.
  assert (Hinit : match runv_init env copv s with
                  | inl (_, _, st) | inr (_, st) =>
                      Forall (fun e => is_data_event e = false) (log st)
                      /\ dst st = []
                  end).
  { unfold runv_init. destruct (page_ok env); simpl;
      [|split; [constructor | reflexivity]].
    destruct (hash_tfm s) as [h|]; simpl.
    - destruct (crypto_hash_init h) as [r h']. simpl.
      destruct (negb (Z.eqb r 0)); simpl;
        [split; [repeat constructor | reflexivity]|].
      destruct (tfm s); [destruct (iv copv)|]; simpl;
        (split; [repeat constructor | reflexivity]).
    - destruct (tfm s); [destruct (iv copv)|]; simpl;
        (split; [repeat constructor | reflexivity]). }
  unfold runv_body.
  destruct (runv_init env copv s) as [[[l r] st]|[bs st0]]; [left; exact Hinit|].
  right. exists bs, st0. destruct Hinit as [Hl Hd].
  unfold runv_rest.
  destruct (for_iovec env (op copv) bs (iovec copv) st0) as [[l r] st1].
  simpl snd.
  destruct l; simpl;
    try (exists []; rewrite app_nil_r; repeat split; auto; fail).
  unfold runv_final. destruct (hash_tfm (cur st1)) as [h|].
  - destruct (crypto_hash_final h) as [[rf h'] out].
    destruct (negb (Z.eqb rf 0)); simpl.
    + exists [Ev_hash_final]. repeat split; auto.
    + exists [Ev_hash_final;
              Ev_copy_to_user_mac (firstn (crypto_hash_digestsize h') out)].
      rewrite <- app_assoc. repeat split; auto.
  - exists []. rewrite app_nil_r. repeat split; auto.
Qed.

(** The trace of a call on a session of the table: the events of the
    [for] loop, between events that move no data. *)
Lemma crypto_runv_split (env : run_env) (fcr : fcrypt) (copv : crypt_opv)
    (i : nat) (s : csession) :
  valid_op (op copv) = true ->
  session_of fcr (ses copv) = Some (i, s) ->
  (Forall (fun e => is_data_event e = false)
     (rv_trace (crypto_runv env fcr copv))
   /\ rv_dst (crypto_runv env fcr copv) = [])
  \/ exists bs st0 t1 t2,
       runv_init env copv s = inr (bs, st0)
       /\ Forall (fun e => is_data_event e = false) (log st0)
       /\ dst st0 = []
       /\ Forall (fun e => is_data_event e = false) t1
       /\ Forall (fun e => is_data_event e = false) t2
       /\ rv_trace (crypto_runv env fcr copv)
          = t1 ++ log (snd (for_iovec env (op copv) bs (iovec copv) st0))
            ++ t2
       /\ rv_dst (crypto_runv env fcr copv)
          = dst (snd (for_iovec env (op copv) bs (iovec copv) st0)).
Proof.
  intros Hop Hs.
  rewrite (crypto_runv_found env fcr copv i s Hop Hs). cbv zeta.
  cbn [rv_trace rv_dst].
  destruct (runv_exit_spec (fst (fst (fst (runv_body env copv s))))
              (snd (fst (runv_body env copv s)))) as (_ & -> & ->).
  assert (Hexit : Forall (fun e => is_data_event e = false)
                    ((match fst (fst (fst (runv_body env copv s))) with
                      | goto_out_unlock => []
                      | _ => [Ev_free_page]
                      end)
                     ++ [Ev_up_ses
                           (sid (cur (snd (fst (runv_body env copv s)))))])).
  { apply Forall_app.
    split; [destruct (fst (fst (fst (runv_body env copv s))))|];
      repeat constructor. }
  assert (Hlook : Forall (fun e => is_data_event e = false)
                    (lookup_trace (sid s))).
  { repeat constructor. }
  destruct (runv_body_log env copv s)
    as [[Hl Hd]|(bs & st0 & t & Hi & Hl0 & Hd0 & Ht & E1 & E2)].
  - left. split; [|exact Hd].
    apply Forall_app. split; [exact Hlook|].
    apply Forall_app. split; [exact Hl | exact Hexit].
  - right. exists bs, st0, (lookup_trace (sid s)).
    eexists. split; [exact Hi|]. split; [exact Hl0|]. split; [exact Hd0|].
    split; [exact Hlook|].
    split; [|split; [rewrite E1, <- app_assoc; reflexivity | exact E2]].
    apply Forall_app. split; [exact Ht | exact Hexit].
Qed.

(** The same for one way [f] of reading data off a trace. *)
Lemma crypto_runv_data (f : trace -> list (list byte)) (env : run_env)
    (fcr : fcrypt) (copv : crypt_opv) (i : nat) (s : csession) :
  (forall a b, f (a ++ b) = f a ++ f b) ->
  (forall t, Forall (fun e => is_data_event e = false) t -> f t = []) ->
  valid_op (op copv) = true ->
  session_of fcr (ses copv) = Some (i, s) ->
  (f (rv_trace (crypto_runv env fcr copv)) = []
   /\ rv_dst (crypto_runv env fcr copv) = [])
  \/ exists bs st0,
       runv_init env copv s = inr (bs, st0)
       /\ f (log st0) = [] /\ dst st0 = []
       /\ f (rv_trace (crypto_runv env fcr copv))
          = f (log (snd (for_iovec env (op copv) bs (iovec copv) st0)))
       /\ rv_dst (crypto_runv env fcr copv)
          = dst (snd (for_iovec env (op copv) bs (iovec copv) st0)).
Proof.
  intros Happ Hnil Hop Hs.
  destruct (crypto_runv_split env fcr copv i s Hop Hs)
    as [[Hl Hd]|(bs & st0 & t1 & t2 & Hi & Hl0 & Hd0 & H1 & H2 & -> & ->)].
  - left. split; [apply Hnil; exact Hl | exact Hd].
  - right. exists bs, st0. split; [exact Hi|].
    split; [apply Hnil; exact Hl0|]. split; [exact Hd0|].
    rewrite !Happ, (Hnil t1 H1), (Hnil t2 H2), app_nil_r.
    split; reflexivity.
Qed.

(** X14: the staging page is never overrun.  In every call of
    [crypto_runv] that returns, whatever the table, the request and the
    value returned, each [copy_from_user] into the page moves at least one
    byte and at most [PAGE_SIZE] bytes. *)
Theorem staging_page_never_overrun (env : run_env) (fcr : fcrypt)
    (copv : crypt_opv) (ret : Z) :
  rv_outcome (crypto_runv env fcr copv) = returned ret ->
  Forall (fun d => 0 < List.length d <= PAGE_SIZE)
    (from_user (rv_trace (crypto_runv env fcr copv))).
Proof.
  intros _.
  destruct (valid_op (op copv)) eqn:Hop.
  2:{ unfold crypto_runv. destruct (op copv); try discriminate Hop.
      constructor. }
  destruct (session_of fcr (ses copv)) as [[i s]|] eqn:Hs.
  - destruct (crypto_runv_data from_user env fcr copv i s from_user_app
                (fun t Ht => proj1 (no_data_events t Ht)) Hop Hs)
      as [[-> _]|(bs & st0 & _ & H0 & _ & -> & _)]; [constructor|].
    apply (for_iovec_segments
             (fun st => Forall (fun d => 0 < List.length d <= PAGE_SIZE)
                          (from_user (log st)))).
    + intros v st HP _.
      apply (run_segment_chunks
               (fun st' => Forall (fun d => 0 < List.length d <= PAGE_SIZE)
                             (from_user (log st')))
               (fun _ => True)
               (fun d => 0 < List.length d <= PAGE_SIZE)); auto.
      * intros chunk st1 HC HP1. rewrite chunk_body_from_user.
        apply Forall_app. split; [exact HP1 | repeat constructor; apply HC].
      * intros Hn rest _ Hne. split; [|exact I].
        destruct (current_len_le (bufsize_of (len v)) (List.length rest))
          as (L1 & L2 & L3).
        rewrite (firstn_length_le rest L1).
        pose proof (bufsize_of_le (len v)).
        split; [|lia]. apply L3; [exact (bufsize_of_pos (len v) Hn)|].
        destruct rest; [contradiction Hne; reflexivity | simpl; lia].
    + intros v st HP. destruct (update_stats_frame env (op copv) v st) as [-> _].
      exact HP.
    + rewrite H0. constructor.
  - unfold crypto_runv, crypto_get_session_by_sid.
    unfold session_of in Hs.
    destruct (list_for_each_entry_sid fcr (ses copv) 0) as [|j|];
      simpl deref; destruct (op copv); try discriminate Hop;
      try (destruct (nth_error fcr j); try discriminate Hs);
      try (destruct (page_ok env)); simpl; repeat constructor.
Qed.

(** *** What reaches the cipher *)

Lemma hash_step_frame (fl : Z) (d : list byte) (st : run_st) :
  tfm (cur (snd (hash_step fl d st))) = tfm (cur st)
  /\ dst (snd (hash_step fl d st)) = dst st
  /\ cipher_inputs (log (snd (hash_step fl d st))) = cipher_inputs (log st)
  /\ to_dst (log (snd (hash_step fl d st))) = to_dst (log st).
Proof.
  apply (hash_step_inv fl
           (fun st' => tfm (cur st') = tfm (cur st) /\ dst st' = dst st
                       /\ cipher_inputs (log st') = cipher_inputs (log st)
                       /\ to_dst (log st') = to_dst (log st)));
    [|repeat split; reflexivity].
  intros st' h d' _ _ (A & B & C & D). simpl.
  rewrite cipher_inputs_app, to_dst_app. simpl. rewrite !app_nil_r.
  repeat split; assumption.
Qed.

(** A cipher step either does nothing at all, or hands its data to the
    cipher. *)
Lemma cipher_step_cases (o : cop) (fl : Z) (d : list byte) (st : run_st) :
  held (tfm (cur (snd (cipher_step o fl d st)))) = held (tfm (cur st))
  /\ (cipher_step o fl d st = (0%Z, d, st)
      \/ (held (tfm (cur st)) = 1 /\ has_flag fl IOP_CIPHER = true
          /\ cipher_inputs (log (snd (cipher_step o fl d st)))
             = cipher_inputs (log st) ++ [d])).
Proof.
  unfold cipher_step.
  destruct (tfm (cur st)) as [c|] eqn:Ec;
    [|simpl; rewrite Ec; split; [reflexivity | left; reflexivity]].
  destruct (has_flag fl IOP_CIPHER) eqn:Ef;
    [|simpl; rewrite Ec; split; [reflexivity | left; reflexivity]].
  destruct o;
    [destruct (crypto_blkcipher_encrypt c d) as [[ret c'] d']
    |destruct (crypto_blkcipher_decrypt c d) as [[ret c'] d']
    |destruct (crypto_blkcipher_decrypt c d) as [[ret c'] d']];
    destruct (negb (Z.eqb ret 0)); simpl;
    (split; [reflexivity|]); right;
    (split; [reflexivity|]); (split; [reflexivity|]);
    rewrite ?cipher_inputs_app; simpl; rewrite ?app_nil_r; reflexivity.
Qed.

(** A turn of the loop either leaves the cipher and [dst] alone, or hands
    the chunk it read to the cipher. *)
Lemma chunk_body_cipher (o : cop) (fl : Z) (chunk : list byte)
    (st : run_st) :
  held (tfm (cur (snd (chunk_body o fl chunk st)))) = held (tfm (cur st))
  /\ ((cipher_inputs (log (snd (chunk_body o fl chunk st)))
       = cipher_inputs (log st)
       /\ dst (snd (chunk_body o fl chunk st)) = dst st
       /\ to_dst (log (snd (chunk_body o fl chunk st))) = to_dst (log st))
      \/ (held (tfm (cur st)) = 1 /\ has_flag fl IOP_CIPHER = true
          /\ cipher_inputs (log (snd (chunk_body o fl chunk st)))
             = cipher_inputs (log st) ++ [chunk])).
Proof.
  unfold chunk_body.
  remember (emit (Ev_copy_from_user chunk) st) as st0 eqn:Est0.
  assert (H0 : tfm (cur st0) = tfm (cur st) /\ dst st0 = dst st
               /\ cipher_inputs (log st0) = cipher_inputs (log st)
               /\ to_dst (log st0) = to_dst (log st)).
  { rewrite Est0. simpl. rewrite cipher_inputs_app, to_dst_app. simpl.
    rewrite !app_nil_r. repeat split; reflexivity. }
  destruct H0 as (T0 & D0 & C0 & O0). clear Est0.
  assert (Hdec : forall o',
            let r := cipher_step o' fl chunk st0 in
            let st2 := if negb (Z.eqb (fst (fst r)) 0) then snd r
                       else snd (hash_step fl (snd (fst r)) (snd r)) in
            held (tfm (cur st2)) = held (tfm (cur st))
            /\ ((cipher_inputs (log st2) = cipher_inputs (log st)
                 /\ dst st2 = dst st /\ to_dst (log st2) = to_dst (log st))
                \/ (held (tfm (cur st)) = 1 /\ has_flag fl IOP_CIPHER = true
                    /\ cipher_inputs (log st2)
                       = cipher_inputs (log st) ++ [chunk]))).
  { intros o'. cbv zeta.
    destruct (cipher_step_cases o' fl chunk st0) as [K1 K2].
    destruct (hash_step_frame fl (snd (fst (cipher_step o' fl chunk st0)))
                (snd (cipher_step o' fl chunk st0))) as (F1 & F2 & F3 & F4).
    assert (Hh : held (tfm (cur
                   (if negb (Z.eqb (fst (fst (cipher_step o' fl chunk st0))) 0)
                    then snd (cipher_step o' fl chunk st0)
                    else snd (hash_step fl
                                (snd (fst (cipher_step o' fl chunk st0)))
                                (snd (cipher_step o' fl chunk st0))))))
                 = held (tfm (cur st))).
    { destruct (negb _); [|rewrite F1]; rewrite K1, T0; reflexivity. }
    split; [exact Hh|].
    destruct K2 as [E|(A & B & C)].
    - left. rewrite E in F2, F3, F4 |- *. simpl in F2, F3, F4 |- *.
      rewrite F2, F3, F4, D0, C0, O0. repeat split; reflexivity.
    - right. rewrite T0 in A. split; [exact A|]. split; [exact B|].
      destruct (negb _); [|rewrite F3]; rewrite C, C0; reflexivity. }
  destruct o.
  - destruct (hash_step_frame fl chunk st0) as (F1 & F2 & F3 & F4).
    destruct (hash_step fl chunk st0) as [ret st1]. simpl in F1, F2, F3, F4.
    destruct (negb (Z.eqb ret 0)); simpl.
    + rewrite F1, T0. split; [reflexivity|]. left.
      rewrite F2, F3, F4, D0, C0, O0. repeat split; reflexivity.
    + destruct (cipher_step_cases COP_ENCRYPT fl chunk st1) as [K1 K2].
      destruct (cipher_step COP_ENCRYPT fl chunk st1) as [[r2 d2] st2].
      simpl in *. rewrite K1, F1, T0. split; [reflexivity|].
      destruct K2 as [E|(A & B & C)].
      * left. injection E as _ _ ->.
        rewrite F2, F3, F4, D0, C0, O0. repeat split; reflexivity.
      * right. rewrite F1, T0 in A. split; [exact A|]. split; [exact B|].
        rewrite C, F3, C0. reflexivity.
  - specialize (Hdec COP_DECRYPT). cbv zeta in Hdec.
    destruct (cipher_step COP_DECRYPT fl chunk st0) as [[r d1] st1].
    simpl in Hdec. destruct (negb (Z.eqb r 0)); exact Hdec.
  - specialize (Hdec (COP_other code)). cbv zeta in Hdec.
    destruct (cipher_step (COP_other code) fl chunk st0) as [[r d1] st1].
    simpl in Hdec. destruct (negb (Z.eqb r 0)); exact Hdec.
Qed.

Lemma misaligned_false (blocksize : nat) (v : crypt_iovec) (st : run_st) :
  misaligned blocksize v st = false ->
  held (tfm (cur st)) = 1 -> has_flag (op_flags v) IOP_CIPHER = true ->
  Nat.divide blocksize (len v).
Proof.
  unfold misaligned. intros Hm Hh Hf.
  destruct (tfm (cur st)); [|discriminate Hh].
  rewrite Hf in Hm. simpl in Hm.
  apply Nat.Lcm0.mod_divide. apply Nat.eqb_eq.
  destruct (len v mod blocksize =? 0); [reflexivity | discriminate Hm].
Qed.

(** X15: the cipher is only ever given whole blocks.  When the block size
    of the session's cipher divides [PAGE_SIZE], every buffer that a call
    of [crypto_runv] hands to [crypto_blkcipher_encrypt] or
    [crypto_blkcipher_decrypt] has a length that is a multiple of the block
    size, also when a long segment is cut into page-sized chunks. *)
Theorem cipher_gets_whole_blocks (env : run_env) (fcr : fcrypt)
    (copv : crypt_opv) (i : nat) (s : csession) (c : blkcipher) :
  valid_op (op copv) = true ->
  session_of fcr (ses copv) = Some (i, s) ->
  tfm s = Some c ->
  Nat.divide (crypto_blkcipher_blocksize c) PAGE_SIZE ->
  Forall (fun d => Nat.divide (crypto_blkcipher_blocksize c) (List.length d))
    (cipher_inputs (rv_trace (crypto_runv env fcr copv))).
Proof.
  intros Hop Hs Hc Hdiv.
  destruct (crypto_runv_data cipher_inputs env fcr copv i s cipher_inputs_app
              (fun t Ht => proj1 (proj2 (no_data_events t Ht))) Hop Hs)
    as [[-> _]|(bs & st0 & Hi & H0 & _ & -> & _)]; [constructor|].
  apply runv_init_inr in Hi.
  destruct Hi as (_ & _ & _ & _ & _ & _ & _ & _ & _ & _ & Hbs).
  rewrite Hc in Hbs. destruct Hbs as (-> & _).
  set (bs := crypto_blkcipher_blocksize c) in *.
  set (D := fun d : list byte => Nat.divide bs (List.length d)).
  apply (for_iovec_segments (fun st => Forall D (cipher_inputs (log st)))).
  - intros v st HP Hm.
    apply (run_segment_chunks
             (fun st' => held (tfm (cur st')) = held (tfm (cur st))
                         /\ Forall D (cipher_inputs (log st')))
             (fun rest =>
                held (tfm (cur st)) = 1 ->
                has_flag (op_flags v) IOP_CIPHER = true ->
                Nat.divide bs (List.length rest))
             (fun chunk =>
                held (tfm (cur st)) = 1 ->
                has_flag (op_flags v) IOP_CIPHER = true -> D chunk));
      [| | |split; [reflexivity | exact HP]].
    + intros chunk st1 HC [HT HP1].
      destruct (chunk_body_cipher (op copv) (op_flags v) chunk st1)
        as [K1 [(K2 & _)|(A & B & K2)]].
      * split; [congruence|]. rewrite K2. exact HP1.
      * split; [congruence|]. rewrite K2. apply Forall_app.
        split; [exact HP1|]. constructor; [|constructor].
        apply HC; [congruence | exact B].
    + intros Hn rest HI Hne.
      destruct (current_len_le (bufsize_of (len v)) (List.length rest))
        as (L1 & _ & _).
      assert (Hk : held (tfm (cur st)) = 1 ->
                   has_flag (op_flags v) IOP_CIPHER = true ->
                   Nat.divide bs
                     (current_len_of (bufsize_of (len v)) (List.length rest))).
      { intros A B. unfold current_len_of, bufsize_of.
        destruct (_ <? List.length rest); [|exact (HI A B)].
        destruct (PAGE_SIZE <? len v); [exact Hdiv|].
        exact (misaligned_false bs v st Hm A B). }
      split.
      * intros A B. unfold D. rewrite (firstn_length_le rest L1).
        exact (Hk A B).
      * intros A B. rewrite length_skipn.
        apply Nat.divide_sub_r; [exact (HI A B) | exact (Hk A B)].
    + intros A B. exact (misaligned_false bs v st Hm A B).
  - intros v st HP. destruct (update_stats_frame env (op copv) v st) as [-> _].
    exact HP.
  - rewrite H0. constructor.
Qed.

(** X16: without the cipher nothing is written.  On a session without a
    cipher transform, or for a request none of whose segments carries
    [IOP_CIPHER], a call of [crypto_runv] stores no byte through [dst] and
    calls neither [crypto_blkcipher_encrypt] nor
    [crypto_blkcipher_decrypt], whatever its outcome. *)
Theorem no_cipher_no_output (env : run_env) (fcr : fcrypt)
    (copv : crypt_opv) (i : nat) (s : csession) :
  valid_op (op copv) = true ->
  session_of fcr (ses copv) = Some (i, s) ->
  tfm s = None
  \/ Forall (fun v => has_flag (op_flags v) IOP_CIPHER = false) (iovec copv) ->
  rv_dst (crypto_runv env fcr copv) = []
  /\ cipher_inputs (rv_trace (crypto_runv env fcr copv)) = []
  /\ to_dst (rv_trace (crypto_runv env fcr copv)) = [].
Proof.
  intros Hop Hs Hno.
  assert (Hloop : forall bs st0,
            runv_init env copv s = inr (bs, st0) ->
            cipher_inputs (log st0) = [] -> to_dst (log st0) = [] ->
            dst st0 = [] ->
            let stN := snd (for_iovec env (op copv) bs (iovec copv) st0) in
            dst stN = [] /\ cipher_inputs (log stN) = []
            /\ to_dst (log stN) = []).
  { intros bs st0 Hi C0 O0 D0. cbv zeta.
    apply runv_init_inr in Hi.
    destruct Hi as (_ & (_ & Hshape & _) & _).
    assert (HQ : Forall (fun v => held (tfm s) = 0
                           \/ has_flag (op_flags v) IOP_CIPHER = false)
                   (iovec copv)).
    { destruct Hno as [E|HF].
      - rewrite E. apply Forall_forall. intros v _. left. reflexivity.
      - apply (Forall_impl _ (P := fun v => has_flag (op_flags v) IOP_CIPHER
                                            = false)); [|exact HF].
        intros v E. right. exact E. }
    pose proof (for_iovec_inv
                  (fun st => held (tfm (cur st)) = held (tfm s)
                             /\ dst st = [] /\ cipher_inputs (log st) = []
                             /\ to_dst (log st) = [])
                  (fun v => held (tfm s) = 0
                            \/ has_flag (op_flags v) IOP_CIPHER = false)
                  env (op copv) bs) as Hinv.
    apply Hinv; [| |exact HQ|repeat split; assumption].
    - intros v chunk st HQv (T & D1 & C1 & O1).
      destruct (chunk_body_cipher (op copv) (op_flags v) chunk st)
        as [K1 [(K2 & K3 & K4)|(A & B & _)]].
      + split; [congruence|]. rewrite K2, K3, K4. repeat split; assumption.
      + destruct HQv as [E|E]; [rewrite T, E in A | rewrite E in B];
          discriminate.
    - intros v st (T & D1 & C1 & O1).
      destruct (update_stats_frame env (op copv) v st) as (-> & -> & -> & _).
      repeat split; assumption. }
  destruct (crypto_runv_split env fcr copv i s Hop Hs)
    as [[Hl Hd]|(bs & st0 & t1 & t2 & Hi & Hl0 & Hd0 & H1 & H2 & -> & ->)].
  - destruct (no_data_events _ Hl) as (_ & A & B & _).
    repeat split; assumption.
  - destruct (no_data_events _ Hl0) as (_ & A0 & B0 & _).
    destruct (no_data_events _ H1) as (_ & A1 & B1 & _).
    destruct (no_data_events _ H2) as (_ & A2 & B2 & _).
    destruct (Hloop bs st0 Hi A0 B0 Hd0) as (A & B & C).
    rewrite !cipher_inputs_app, !to_dst_app, A1, A2, B1, B2, B, C.
    split; [exact A|]. split; reflexivity.
Qed.

(** *** What the MAC covers *)

Lemma cipher_step_hash_frame (o : cop) (fl : Z) (d : list byte)
    (st : run_st) :
  hash_tfm (cur (snd (cipher_step o fl d st))) = hash_tfm (cur st)
  /\ hash_inputs (log (snd (cipher_step o fl d st))) = hash_inputs (log st).
Proof.
  apply (cipher_step_inv fl
           (fun st' => hash_tfm (cur st') = hash_tfm (cur st)
                       /\ hash_inputs (log st') = hash_inputs (log st)));
    [| |split; reflexivity].
  - intros st' c c' d' _ _ [A B]. simpl. rewrite !hash_inputs_app. simpl.
    rewrite !app_nil_r. auto.
  - intros st' d' [A B]. simpl. rewrite hash_inputs_app. simpl.
    rewrite app_nil_r. auto.
Qed.

Lemma cipher_step_idle (o : cop) (fl : Z) (d : list byte) (st : run_st) :
  tfm (cur st) = None -> cipher_step o fl d st = (0%Z, d, st).
Proof.
  intros E. unfold cipher_step. rewrite E. reflexivity.
Qed.

(** The hash step of a turn that ended well. *)
Lemma hash_step_ok (fl : Z) (d : list byte) (st st' : run_st) :
  held (hash_tfm (cur st)) = 1 ->
  hash_step fl d st = (0%Z, st') ->
  held (hash_tfm (cur st')) = 1 /\ tfm (cur st') = tfm (cur st)
  /\ hash_inputs (log st')
     = hash_inputs (log st) ++ (if has_flag fl IOP_HASH then [d] else []).
Proof.
  intros Hh. unfold hash_step.
  destruct (hash_tfm (cur st)) as [h|] eqn:Eh; [|discriminate Hh].
  destruct (has_flag fl IOP_HASH).
  - destruct (crypto_hash_update h d) as [r h'].
    intros E. injection E as _ <-. simpl. rewrite hash_inputs_app.
    repeat split; reflexivity.
  - intros E. injection E as <-. rewrite Eh, app_nil_r.
    repeat split; reflexivity.
Qed.

(** A turn in which hashing is not preceded by decryption. *)
Lemma chunk_body_hashes (o : cop) (fl : Z) (chunk : list byte)
    (st st' : run_st) :
  o = COP_ENCRYPT \/ tfm (cur st) = None ->
  held (hash_tfm (cur st)) = 1 ->
  chunk_body o fl chunk st = (0%Z, st') ->
  held (hash_tfm (cur st')) = 1
  /\ held (tfm (cur st')) = held (tfm (cur st))
  /\ hash_inputs (log st')
     = hash_inputs (log st) ++ (if has_flag fl IOP_HASH then [chunk] else []).
Proof.
  intros Ho Hh. unfold chunk_body.
  remember (emit (Ev_copy_from_user chunk) st) as st0 eqn:E0.
  assert (H0 : held (hash_tfm (cur st0)) = 1 /\ tfm (cur st0) = tfm (cur st)
               /\ hash_inputs (log st0) = hash_inputs (log st)).
  { rewrite E0. simpl. rewrite hash_inputs_app. simpl. rewrite app_nil_r.
    auto. }
  clear E0. destruct H0 as (A0 & B0 & C0).
  assert (Hdec : tfm (cur st) = None ->
                 hash_step fl chunk st0 = (0%Z, st') ->
                 held (hash_tfm (cur st')) = 1
                 /\ held (tfm (cur st')) = held (tfm (cur st))
                 /\ hash_inputs (log st')
                    = hash_inputs (log st)
                      ++ (if has_flag fl IOP_HASH then [chunk] else [])).
  { intros Et E. destruct (hash_step_ok fl chunk st0 st' A0 E) as (A & B & C).
    rewrite B, B0, C, C0. auto. }
  destruct o.
  - destruct (hash_step fl chunk st0) as [ret st1] eqn:Eh.
    destruct (Z.eqb_spec ret 0) as [->|Hr]; simpl.
    2:{ intros E. injection E as E _. contradiction. }
    destruct (hash_step_ok fl chunk st0 st1 A0 Eh) as (A & B & C).
    destruct (cipher_step_hash_frame COP_ENCRYPT fl chunk st1) as [F1 F2].
    pose proof (cipher_step_shape COP_ENCRYPT fl chunk st1) as (_ & S2 & _).
    destruct (cipher_step COP_ENCRYPT fl chunk st1) as [[r2 d2] st2].
    simpl in F1, F2, S2. intros E. injection E as _ <-.
    rewrite F1, F2, S2, B, B0, C, C0. auto.
  - destruct Ho as [Ho|Et]; [discriminate Ho|].
    rewrite (cipher_step_idle COP_DECRYPT fl chunk st0) by congruence.
    simpl. exact (Hdec Et).
  - destruct Ho as [Ho|Et]; [discriminate Ho|].
    rewrite (cipher_step_idle (COP_other code) fl chunk st0) by congruence.
    simpl. exact (Hdec Et).
Qed.

Lemma while_nbytes_hashes (o : cop) (fl : Z) (bufsize : nat)
    (Hb : 0 < bufsize) (rest : list byte) (st st' : run_st) :
  o = COP_ENCRYPT \/ tfm (cur st) = None ->
  held (hash_tfm (cur st)) = 1 ->
  while_nbytes o fl bufsize Hb rest st = (0%Z, st') ->
  held (hash_tfm (cur st')) = 1
  /\ held (tfm (cur st')) = held (tfm (cur st))
  /\ List.concat (hash_inputs (log st'))
     = List.concat (hash_inputs (log st))
       ++ (if has_flag fl IOP_HASH then rest else []).
Proof.
  remember (List.length rest) as n eqn:Hn. revert rest Hn st.
  induction n as [n IH] using lt_wf_ind. intros rest Hn st Ho Hh.
  destruct rest as [|b bs].
  { rewrite while_nbytes_equation_1. intros E. injection E as <-.
    destruct (has_flag fl IOP_HASH); rewrite app_nil_r; auto. }
  rewrite while_nbytes_cons. cbv zeta.
  set (k := current_len_of bufsize (List.length (b :: bs))).
  pose proof (chunk_body_hashes o fl (firstn k (b :: bs)) st) as Hc.
  destruct (chunk_body o fl _ st) as [ret st1]. simpl fst. simpl snd.
  destruct (Z.eqb_spec ret 0) as [->|Hr]; simpl negb; cbv iota.
  - destruct (Hc st1 Ho Hh eq_refl) as (A & B & C).
    intros E.
    apply (IH (List.length (skipn k (b :: bs)))) in E; [| |reflexivity | |exact A].
    + destruct E as (A' & B' & C').
      split; [exact A'|]. split; [congruence|].
      rewrite C', C, concat_app.
      destruct (has_flag fl IOP_HASH); simpl; rewrite ?app_nil_r; [|reflexivity].
      rewrite <- app_assoc, firstn_skipn. reflexivity.
    + subst n k. rewrite length_skipn. unfold current_len_of.
      destruct (bufsize <? _); simpl List.length; lia.
    + destruct Ho as [Ho|Et]; [left; exact Ho | right].
      rewrite Et in B. destruct (tfm (cur st1)); [discriminate B | reflexivity].
  - intros E. injection E as E0 _. contradiction.
Qed.

Lemma for_iovec_hashes (env : run_env) (o : cop) (blocksize : nat)
    (vs : list crypt_iovec) :
  forall st ret st',
    o = COP_ENCRYPT \/ tfm (cur st) = None ->
    held (hash_tfm (cur st)) = 1 ->
    for_iovec env o blocksize vs st = (fall_through, ret, st') ->
    List.concat (hash_inputs (log st'))
    = List.concat (hash_inputs (log st))
      ++ List.concat
           (map src (filter (fun v => has_flag (op_flags v) IOP_HASH) vs)).
Proof.
  induction vs as [|v vs IH]; intros st ret st' Ho Hh Hfor.
  - simpl in Hfor. injection Hfor as _ <-. simpl. rewrite app_nil_r.
    reflexivity.
  - simpl in Hfor.
    destruct (misaligned blocksize v st); [discriminate Hfor|].
    destruct (run_segment o v st) as [r st1] eqn:Eseg.
    destruct (Z.eqb_spec r 0) as [->|Hr]; simpl in Hfor;
      [|discriminate Hfor].
    assert (Hseg : held (hash_tfm (cur st1)) = 1
                   /\ held (tfm (cur st1)) = held (tfm (cur st))
                   /\ List.concat (hash_inputs (log st1))
                      = List.concat (hash_inputs (log st))
                        ++ (if has_flag (op_flags v) IOP_HASH
                            then src v else [])).
    { unfold run_segment in Eseg. destruct (lt_dec 0 (len v)) as [Hn|Hn].
      - exact (while_nbytes_hashes o (op_flags v) _ _ (src v) st st1 Ho Hh
                 Eseg).
      - injection Eseg as <-. split; [exact Hh|]. split; [reflexivity|].
        unfold len in Hn. destruct (src v); [|simpl in Hn; lia].
        destruct (has_flag (op_flags v) IOP_HASH); rewrite app_nil_r;
          reflexivity. }
    destruct Hseg as (A & B & C).
    destruct (update_stats_frame env o v st1) as (U1 & _ & U3 & U4).
    apply IH in Hfor.
    + rewrite Hfor, U1, C. simpl filter.
      destruct (has_flag (op_flags v) IOP_HASH); simpl;
        rewrite <- ?app_assoc, ?app_nil_r; reflexivity.
    + destruct Ho as [Ho|Et]; [left; exact Ho | right].
      rewrite U3. rewrite Et in B.
      destruct (tfm (cur st1)); [discriminate B | reflexivity].
    + rewrite U4. exact A.
Qed.

(** X17: which bytes the MAC covers when hashing is not preceded by
    decryption (an encrypting call, or any call on a session without
    cipher transform).  If the call returns 0 on a session with a hash
    transform, the MAC is the digest of the source bytes of exactly the
    segments flagged [IOP_HASH], in the order of the request: segments
    without the flag contribute nothing, whether or not they are
    encrypted. *)
Theorem mac_covers_flagged_segments (env : run_env) (fcr : fcrypt)
    (copv : crypt_opv) (i : nat) (s : csession) (h : hash_t) :
  valid_op (op copv) = true ->
  op copv = COP_ENCRYPT \/ tfm s = None ->
  session_of fcr (ses copv) = Some (i, s) ->
  hash_tfm s = Some h ->
  rv_outcome (crypto_runv env fcr copv) = returned 0%Z ->
  rv_mac (crypto_runv env fcr copv)
  = Some (digest_of h (hash_inputs (rv_trace (crypto_runv env fcr copv))))
  /\ List.concat (hash_inputs (rv_trace (crypto_runv env fcr copv)))
     = List.concat
         (map src
            (filter (fun v => has_flag (op_flags v) IOP_HASH) (iovec copv))).
Proof.
  intros Hop Ho Hs Hh Hret.
  split; [exact (crypto_runv_mac env fcr copv i s h Hop Hs Hh Hret)|].
  destruct (crypto_runv_success env fcr copv i s Hop Hs Hret)
    as (bs & st0 & stN & Hinit & Hfor & _ & -> & _).
  apply runv_init_inr in Hinit.
  destruct Hinit as (_ & (_ & S2 & S3) & _ & H0 & _ & _ & _ & _ & _ & _ & _).
  rewrite (for_iovec_hashes env (op copv) bs (iovec copv) st0 0%Z stN);
    [rewrite H0; reflexivity | | |exact Hfor].
  - destruct Ho as [Ho|Et]; [left; exact Ho | right].
    rewrite Et in S2. destruct (tfm (cur st0)); [discriminate S2 | reflexivity].
  - rewrite S3, Hh. reflexivity.
Qed.

(** *** Decryption undoes encryption *)










(** *** How much is read and written *)






End Further.

(** *** The further properties on the concrete kernels *)

Lemma crypto_runv_hash_init_failure_witness :
  @crypto_runv Toy.header unit Z Faulty.api Toy.env_ok Faulty.table
    Faulty.copv
  = mk_runv_result (returned (-5)%Z) Faulty.table [] None
      [Ev_down_fcr; Ev_down_ses 3; Ev_up_fcr; Ev_get_free_page; Ev_hash_init;
       Ev_up_ses 3].
Proof.
  exact (@crypto_runv_hash_init_failure Toy.header unit Z Faulty.api
           Toy.env_ok Faulty.table Faulty.copv 0 Faulty.ses_failing (-5)%Z
           eq_refl eq_refl eq_refl eq_refl
           ltac:(discriminate)).
Defined.

Lemma mac_stored_iff_witness :
  rv_mac (crypto_runv Toy.env_ok Toy.table Toy.copv_both) <> None
  <-> rv_outcome (crypto_runv Toy.env_ok Toy.table Toy.copv_both)
      = returned 0%Z
      /\ hash_tfm Toy.ses_both <> None.
Proof.
  exact (mac_stored_iff Toy.env_ok Toy.table Toy.copv_both 0 Toy.ses_both
           eq_refl eq_refl).
Defined.

Lemma create_session_return_codes_witness :
  crypto_create_session (mk_create_env false []) Toy.table Toy.sop_aes
  = Some (mk_create_result (- ENOMEM)%Z Toy.table None
            [Ev_alloc_blkcipher "cbc(aes)"%string; Ev_free_blkcipher])
  /\ (kmalloc_ok (mk_create_env false []) = false
      /\ Toy.table = Toy.table
      /\ 1 = 1 /\ 0 = 0
      /\ Forall (fun e => is_handle_event e = true)
           [Ev_alloc_blkcipher "cbc(aes)"%string; Ev_free_blkcipher]).
Proof.
  split; [reflexivity|].
  exact (proj2 (proj2 (proj2
           (create_session_return_codes (mk_create_env false []) Toy.table
              Toy.sop_aes _ eq_refl))) eq_refl).
Defined.

Lemma create_session_new_session_witness :
  exists s b h,
    Some 5%Z = Some s
    /\ Toy.table2 = mk_csession b h s 0 0 0 0 :: Toy.table1
    /\ (exists b0,
          Toy.alloc_blkcipher "cbc(aes)" = Some b0
          /\ b = Some (snd (Toy.setkey b0 Toy.key16)))
    /\ h = None
    /\ (b <> None \/ h <> None).
Proof.
  exact (create_session_new_session (mk_create_env true [7%Z; 5%Z])
           Toy.table1 Toy.sop_aes _ eq_refl eq_refl).
Defined.

Lemma created_session_is_found_witness :
  (exists e, Toy.table2 = e :: Toy.table1
             /\ session_of Toy.table2 5 = Some (0, e))
  /\ (forall x, x <> 5%Z ->
      session_of Toy.table2 x
      = option_map (fun p => (S (fst p), snd p)) (session_of Toy.table1 x))
  /\ (forall env' copv, ses copv = 5%Z ->
      exists ret, rv_outcome (crypto_runv env' Toy.table2 copv)
                  = returned ret).
Proof.
  exact (created_session_is_found (mk_create_env true [7%Z; 5%Z])
           Toy.table1 Toy.sop_aes _ 5%Z eq_refl eq_refl).
Defined.

Lemma toy_table_NoDup : NoDup (sids Toy.table).
Proof.
  repeat constructor; simpl; intuition discriminate.
Defined.

Lemma finished_session_is_gone_witness :
  session_of [Toy.ses_both; Toy.ses_cipher_only] 8 = None
  /\ forall y, y <> 8%Z ->
       option_map snd (session_of [Toy.ses_both; Toy.ses_cipher_only] y)
       = option_map snd (session_of Toy.table y).
Proof.
  exact (finished_session_is_gone Toy.table 8 toy_table_NoDup).
Defined.

Lemma crypto_runv_semaphores_witness :
  filter is_semaphore
    (rv_trace (crypto_runv Toy.env_ok Toy.table Toy.copv_misaligned))
  = [Ev_down_fcr; Ev_down_ses (ses Toy.copv_misaligned); Ev_up_fcr;
     Ev_up_ses (ses Toy.copv_misaligned)]
  /\ firstn 3 (rv_trace (crypto_runv Toy.env_ok Toy.table Toy.copv_misaligned))
     = [Ev_down_fcr; Ev_down_ses (ses Toy.copv_misaligned); Ev_up_fcr]
  /\ last (rv_trace (crypto_runv Toy.env_ok Toy.table Toy.copv_misaligned))
       Ev_down_fcr
     = Ev_up_ses (ses Toy.copv_misaligned).
Proof.
  exact (crypto_runv_semaphores Toy.env_ok Toy.table Toy.copv_misaligned
           _ _ eq_refl eq_refl).
Defined.

Lemma sessions_have_a_transform_witness :
  Forall (fun s : csession Toy.blk Toy.hsh =>
            tfm s <> None \/ hash_tfm s <> None) Toy.table2.
Proof.
  exact (sessions_have_a_transform Toy.table2 toy_table2_reachable).
Defined.

Lemma toy_table2_execution :
  execution Toy.table2
    [Ev_alloc_blkcipher "cbc(aes)"%string; Ev_kmalloc_ses;
     Ev_get_random_bytes 7; Ev_down_fcr; Ev_list_add 7; Ev_up_fcr;
     Ev_alloc_blkcipher "cbc(aes)"%string; Ev_kmalloc_ses;
     Ev_get_random_bytes 7; Ev_down_fcr; Ev_get_random_bytes 5;
     Ev_list_add 5; Ev_up_fcr].
Proof.
  apply (exec_create (mk_create_env true [7%Z; 5%Z]) Toy.sop_aes Toy.table1
           _ [Ev_alloc_blkcipher "cbc(aes)"%string; Ev_kmalloc_ses;
              Ev_get_random_bytes 7; Ev_down_fcr; Ev_list_add 7; Ev_up_fcr]).
  - apply (exec_create (mk_create_env true [7%Z]) Toy.sop_aes [] _ []).
    + apply exec_open. reflexivity.
    + vm_compute. reflexivity.
  - vm_compute. reflexivity.
Defined.

Lemma handles_are_conserved_witness :
  (0 = 0 + held_hashes Toy.table2
   /\ 2 = 0 + List.length Toy.table2
   /\ 0 + held_ciphers Toy.table2 <= 2)
  /\ (0 = 0 /\ 2 = 2 /\ 2 <= 2).
Proof.
  exact (handles_are_conserved Toy.table2 _ toy_table2_execution).
Defined.

Lemma statistics_of_a_call_witness :
  exists s',
    session_of
      (rv_fcr (crypto_runv (mk_run_env true true) Toy.table Toy.copv_both))
      (ses Toy.copv_both) = Some (0, s')
    /\ (enable_stats (mk_run_env true true) = false ->
        stats_of s' = stats_of Toy.ses_both)
    /\ (enable_stats (mk_run_env true true) = true ->
        rv_outcome (crypto_runv (mk_run_env true true) Toy.table
                      Toy.copv_both) = returned 0%Z ->
        ((stat_encrypt s' mod 2 ^ 64
          = (stat_encrypt Toy.ses_both
             + Z.of_nat (list_sum (map len (iovec Toy.copv_both))))
            mod 2 ^ 64)%Z
         /\ stat_decrypt s' = stat_decrypt Toy.ses_both)
        /\ stat_max_size s'
           = fold_left Z.max
               (map (fun v => Z.of_nat (len v)) (iovec Toy.copv_both))
               (stat_max_size Toy.ses_both)
        /\ (stat_count s' mod 2 ^ BITS_PER_LONG
            = (stat_count Toy.ses_both
               + Z.of_nat (List.length (iovec Toy.copv_both)))
              mod 2 ^ BITS_PER_LONG)%Z).
Proof.
  exact (statistics_of_a_call (mk_run_env true true) Toy.table Toy.copv_both
           0 Toy.ses_both eq_refl eq_refl).
Defined.

Lemma cipher_gets_whole_blocks_witness :
  Forall (fun d => Nat.divide (crypto_blkcipher_blocksize Toy.aes)
                     (List.length d))
    (cipher_inputs (rv_trace (crypto_runv Toy.env_ok Toy.table Toy.copv_long))).
Proof.
  apply (cipher_gets_whole_blocks Toy.env_ok Toy.table Toy.copv_long 0
           Toy.ses_both Toy.aes); try reflexivity.
  exists 256. vm_compute. reflexivity.
Defined.

Lemma no_cipher_no_output_witness :
  rv_dst (crypto_runv Toy.env_ok Toy.table Toy.copv_cipher_on_hash_only) = []
  /\ cipher_inputs
       (rv_trace (crypto_runv Toy.env_ok Toy.table
                    Toy.copv_cipher_on_hash_only)) = []
  /\ to_dst
       (rv_trace (crypto_runv Toy.env_ok Toy.table
                    Toy.copv_cipher_on_hash_only)) = [].
Proof.
  exact (no_cipher_no_output Toy.env_ok Toy.table
           Toy.copv_cipher_on_hash_only 1 Toy.ses_hash_only eq_refl eq_refl
           (or_introl eq_refl)).
Defined.

Lemma mac_covers_flagged_segments_witness :
  rv_mac (crypto_runv Toy.env_ok Toy.table Toy.copv_mixed)
  = Some (digest_of Toy.sha1
            (hash_inputs
               (rv_trace (crypto_runv Toy.env_ok Toy.table
                            Toy.copv_mixed))))
  /\ List.concat
       (hash_inputs
          (rv_trace (crypto_runv Toy.env_ok Toy.table Toy.copv_mixed)))
     = List.concat
         (map src
            (filter (fun v => has_flag (op_flags v) IOP_HASH)
               (iovec Toy.copv_mixed))).
Proof.
  exact (mac_covers_flagged_segments Toy.env_ok Toy.table
           Toy.copv_mixed 0 Toy.ses_both Toy.sha1 eq_refl
           (or_introl eq_refl) eq_refl eq_refl eq_refl).
Defined.







Lemma crypto_runv_touches_one_session_witness :
  map (fun s => (sid s, held (tfm s), held (hash_tfm s)))
    (rv_fcr (crypto_runv Toy.env_ok Toy.table Toy.copv_both))
  = map (fun s => (sid s, held (tfm s), held (hash_tfm s))) Toy.table
  /\ forall j e,
       nth_error Toy.table j = Some e -> sid e <> ses Toy.copv_both ->
       nth_error (rv_fcr (crypto_runv Toy.env_ok Toy.table Toy.copv_both)) j
       = Some e.
Proof.
  apply (crypto_runv_touches_one_session Toy.env_ok Toy.table Toy.copv_both
           0%Z).
  vm_compute. reflexivity.
Defined.

Lemma staging_page_never_overrun_witness :
  Forall (fun d => 0 < List.length d <= PAGE_SIZE)
    (from_user (rv_trace (crypto_runv Toy.env_ok Toy.table Toy.copv_long))).
Proof.
  apply (staging_page_never_overrun Toy.env_ok Toy.table Toy.copv_long 0%Z).
  vm_compute. reflexivity.
Defined.
